(** * Eventbrite ticket monitor: availability polling and checkout automation

    A shallow embedding of [app.py].  The first module models the polling
    side ([fetch_page], [check_ticket_availability]); the second one the
    browser automation ([automate_registration], [purchase_attempt]); the
    third one the program around them ([open_browser_and_login], [main]).

    Python exceptions are values of [exn]; a computation is a function from
    the state of the world to a [result] and the next state.  The network
    and the browser are the environment: they appear as oracles the
    computations consult, and every consultation is recorded in a log. *)

From Stdlib Require Import List ZArith String Ascii Bool Arith Lia Permutation.
Import ListNotations.

Set Implicit Arguments.

(** ** Exceptions and results *)

(** The exception classes the program raises or catches.  [SystemExit] is a
    [BaseException] only; the other four are subclasses of [Exception]. *)
Inductive exn : Type :=
| SystemExit (code : Z)
| RequestException
| TimeoutException
| NoSuchElementException
| OtherException.

Definition is_Exception (e : exn) : bool :=
  match e with SystemExit _ => false | _ => true end.

(** [OutOfFuel] is not a Python outcome: it marks a run of a [while True]
    loop that was cut off by the step budget of the model. *)
Inductive result (A : Type) : Type :=
| Ok (a : A)
| Raise (e : exn)
| OutOfFuel.

Arguments Ok {A} a.
Arguments Raise {A} e.
Arguments OutOfFuel {A}.

(** State-and-exception monad over a world [W]. *)
Definition M (W A : Type) : Type := W -> result A * W.

Definition ret {W A} (a : A) : M W A := fun w => (Ok a, w).

Definition bind {W A B} (m : M W A) (k : A -> M W B) : M W B :=
  fun w =>
    match m w with
    | (Ok a, w') => k a w'
    | (Raise e, w') => (Raise e, w')
    | (OutOfFuel, w') => (OutOfFuel, w')
    end.

Definition raise {W A} (e : exn) : M W A := fun w => (Raise e, w).

(** [try: m  except <classes selected by handles>: h] *)
Definition try_except {W A} (m : M W A) (handles : exn -> bool) (h : exn -> M W A)
  : M W A :=
  fun w =>
    match m w with
    | (Raise e, w') => if handles e then h e w' else (Raise e, w')
    | r => r
    end.

Declare Scope py_scope.
Delimit Scope py_scope with py.
Notation "x <- c1 ;; c2" := (bind c1 (fun x => c2))
  (at level 61, c1 at next level, right associativity) : py_scope.
Notation "c1 ;; c2" := (bind c1 (fun _ => c2))
  (at level 61, right associativity) : py_scope.
Open Scope py_scope.

(** [range(lo, hi)] *)
Definition range (lo hi : Z) : list Z :=
  map (fun k => (lo + Z.of_nat k)%Z) (seq 0 (Z.to_nat (hi - lo))).

(** * Polling *)

Module Polling.

(** ** Data model: what the code reads of a ticket-class collection page *)

(** One entry of ["ticket_classes"].  The code reads ["id"] and ["name"]
    with [tc[...]] and ["on_sale_status"] with [tc.get(...)], so only the
    status may be absent. *)
Record ticket_class : Type := {
  tc_id : string;
  tc_name : string;
  on_sale_status : option string
}.

(** The ["pagination"] object; both keys are read with [.get]. *)
Record pagination_info : Type := {
  has_more_items : option bool;
  page_count : option Z
}.

(** A parsed response body.  [other_keys] says whether the object has keys
    besides the two the code reads; it only matters for the truth value of
    the object ([{}] is false in Python). *)
Record payload : Type := {
  ticket_classes : option (list ticket_class);
  pagination : option pagination_info;
  other_keys : bool
}.

(** Outcome of [session.get(url, params)] for one page. *)
Inductive http_result : Type :=
| ConnectionFailed                       (* raises RequestException *)
| Response (status_code : Z) (json : payload).

(** The remote API during one poll cycle: what each page request yields. *)
Definition server : Type := Z -> http_result.

(** ** Configuration constants of the module *)

Record config : Type := {
  ENABLE_PARALLEL_FETCH : bool;
  EARLY_EXIT : bool;
  MAX_WORKERS : positive;
  SAVE_JSON_RESPONSE : bool;
  DISCORD_WEBHOOK_URL : option string
}.

(** ** World: the request counter and the log of external effects *)

Inductive message : Type :=
| RateLimitMessage
| AvailabilityMessage (attempts : nat).

Inductive event : Type :=
| Request (page : Z)                          (* session.get issued *)
| Notification (m : message)                  (* send_discord_notification called *)
| WebhookPost (hook : string) (m : message)   (* requests.post to the webhook *)
| SavedJson (total_tickets pages : nat)       (* response_<ts>.json written (assumed to succeed) *)
| Sleep                                       (* time.sleep(POLL_INTERVAL) *)
| PurchaseAttempt.                            (* purchase_attempt(driver) *)

Record world : Type := {
  request_counter : nat;
  log : list event
}.

Definition emit (e : event) : M world unit :=
  fun w => (Ok tt, {| request_counter := request_counter w; log := log w ++ [e] |}).

Definition count_request : M world unit :=
  fun w => (Ok tt, {| request_counter := S (request_counter w); log := log w |}).

Definition initial_world : world := {| request_counter := 0; log := [] |}.

(** Pages requested, in the order of the log. *)
Fixpoint requests (l : list event) : list Z :=
  match l with
  | [] => []
  | Request p :: l' => p :: requests l'
  | _ :: l' => requests l'
  end.

(** Notification attempts in the log. *)
Fixpoint notifications (l : list event) : list message :=
  match l with
  | [] => []
  | Notification m :: l' => m :: notifications l'
  | _ :: l' => notifications l'
  end.

Section WithConfig.

Variable cfg : config.

(** ** [send_discord_notification] *)

Definition send_discord_notification (m : message) : M world unit :=
  emit (Notification m) ;;
  match DISCORD_WEBHOOK_URL cfg with
  | None => ret tt
  | Some hook => emit (WebhookPost hook m)
  end.

(** ** [fetch_page] *)

(** [exit(1)] *)
Definition exit {A} (code : Z) : M world A := raise (SystemExit code).

(** First half of [fetch_page]: count the request and send it. *)
Definition send_request (page : Z) : M world unit :=
  count_request ;; emit (Request page).

(** Second half: classify the outcome of [session.get]. *)
Definition handle_response (r : http_result) : M world (option payload) :=
  match r with
  | ConnectionFailed => raise RequestException
  | Response status body =>
      if (status =? 429)%Z then
        send_discord_notification RateLimitMessage ;;
        exit 1
      else if (status =? 200)%Z then ret (Some body)
      else ret None
  end.

Definition fetch_page (srv : server) (page : Z) : M world (option payload) :=
  send_request page ;;
  handle_response (srv page).

(** Truth value of what [fetch_page] returned: [None] and [{}] are false. *)
Definition truthy (data : option payload) : bool :=
  match data with
  | None => false
  | Some p =>
      match ticket_classes p, pagination p with
      | None, None => other_keys p
      | _, _ => true
      end
  end.

(** [data.get('ticket_classes', [])] *)
Definition get_ticket_classes (p : payload) : list ticket_class :=
  match ticket_classes p with Some l => l | None => [] end.

(** [data.get('pagination', {})], the empty object being a pagination
    record without keys. *)
Definition get_pagination (p : payload) : pagination_info :=
  match pagination p with
  | Some pg => pg
  | None => {| has_more_items := None; page_count := None |}
  end.

(** [pagination.get('page_count', 1)] *)
Definition get_page_count (pg : pagination_info) : Z :=
  match page_count pg with Some n => n | None => 1%Z end.

(** [pagination.get('has_more_items', False)] *)
Definition get_has_more_items (pg : pagination_info) : bool :=
  match has_more_items pg with Some b => b | None => false end.

(** ** Availability scans *)

(** The dictionary appended to [available_tickets]. *)
Definition summary (tc : ticket_class) (status : option string) : ticket_class :=
  {| tc_id := tc_id tc; tc_name := tc_name tc; on_sale_status := status |}.

(** [tc.get('on_sale_status') == 'AVAILABLE'] *)
Definition status_is_available (tc : ticket_class) : bool :=
  match on_sale_status tc with
  | Some s => (s =? "AVAILABLE")%string
  | None => false
  end.

(** The early-exit scan of one page:
    [for tc in tickets: if tc.get('on_sale_status') == 'AVAILABLE': append]. *)
Fixpoint scan_page (tickets : list ticket_class) (available : list ticket_class)
  : list ticket_class :=
  match tickets with
  | [] => available
  | tc :: rest =>
      if status_is_available tc
      then scan_page rest (available ++ [summary tc (on_sale_status tc)])
      else scan_page rest available
  end.

(** The final scan:
    [on_sale_status = tc.get('on_sale_status', '')] compared with
    ['AVAILABLE']. *)
Fixpoint scan_all (tickets : list ticket_class) (available : list ticket_class)
  : list ticket_class :=
  match tickets with
  | [] => available
  | tc :: rest =>
      let status := match on_sale_status tc with Some s => s | None => EmptyString end in
      if (status =? "AVAILABLE")%string
      then scan_all rest (available ++ [summary tc (Some status)])
      else scan_all rest available
  end.

(** Local variables of [check_ticket_availability]. *)
Record locals : Type := {
  all_ticket_classes : list ticket_class;
  all_responses : list payload;
  available_tickets : list ticket_class
}.

Definition fresh : locals :=
  {| all_ticket_classes := []; all_responses := []; available_tickets := [] |}.

(** [all_responses.append(data); all_ticket_classes.extend(tickets)] *)
Definition merge (st : locals) (p : payload) : locals :=
  {| all_ticket_classes := all_ticket_classes st ++ get_ticket_classes p;
     all_responses := all_responses st ++ [p];
     available_tickets := available_tickets st |}.

Definition with_available (st : locals) (av : list ticket_class) : locals :=
  {| all_ticket_classes := all_ticket_classes st;
     all_responses := all_responses st;
     available_tickets := av |}.

Definition nonempty {A} (l : list A) : bool :=
  match l with [] => false | _ => true end.

(** Lines 311-329: the evaluation of the merged set.  It yields the verdict
    and the locals as they are when the function returns. *)
Definition evaluate (st : locals) : bool * locals :=
  if negb (EARLY_EXIT cfg) || negb (nonempty (available_tickets st)) then
    let st' := with_available st (scan_all (all_ticket_classes st) (available_tickets st)) in
    if nonempty (available_tickets st') then (true, st') else (false, st')
  else (false, st).

(** ** Sequential mode (lines 267-298) *)

Variable srv : server.

(** A page loop either makes the function return ([inl], with the value
    returned and the locals at that point) or ends and falls through to the
    code after it ([inr]). *)
Definition flow : Type := (bool * locals + locals)%type.

(** [while True:] starting at [page]; [fuel] bounds the number of
    iterations. *)
Fixpoint sequential_pages (fuel : nat) (page : Z) (st : locals) : M world flow :=
  match fuel with
  | O => fun w => (OutOfFuel, w)
  | S fuel' =>
      data <- fetch_page srv page ;;
      match data with
      | None => ret (inr st)                              (* if not data: break *)
      | Some p =>
          if negb (truthy data) then ret (inr st)
          else
            let st1 := merge st p in
            let tickets := get_ticket_classes p in
            let paginate (st' : locals) : M world flow :=
              if negb (get_has_more_items (get_pagination p))
              then ret (inr st')                          (* break *)
              else sequential_pages fuel' (page + 1) st' in
            if EARLY_EXIT cfg then
              let st2 := with_available st1 (scan_page tickets (available_tickets st1)) in
              if nonempty (available_tickets st2)
              then ret (inl (true, st2))                  (* return True *)
              else paginate st2
            else paginate st1
      end
  end.

(** ** Concurrent mode (lines 209-266) *)

(** *** The worker pool

    [ThreadPoolExecutor(max_workers)] keeps the submitted calls in a FIFO
    queue and runs at most [max_workers] of them at a time; which running
    call finishes next is the scheduler's choice.  An exception raised by
    a call, [SystemExit] included, is stored in the call's future and
    raised again by [future.result()].  Leaving the [with] block waits
    until every submitted call has run. *)

Inductive pool_event : Type :=
| Started (page : Z)
| Completed (page : Z).

(** Remove the [n]-th element of a list. *)
Fixpoint pick {A} (n : nat) (l : list A) {struct l} : option (A * list A) :=
  match l with
  | [] => None
  | x :: l' =>
      match n with
      | O => Some (x, l')
      | S n' =>
          match pick n' l' with
          | Some (y, r) => Some (y, x :: r)
          | None => None
          end
      end
  end.

(** One round: free workers take calls from the head of the queue, then
    the running call chosen by the head of [choices] finishes. *)
Fixpoint pool_schedule (fuel workers : nat) (choices : list nat)
         (queue running : list Z) : list pool_event :=
  match fuel with
  | O => []
  | S fuel' =>
      let free := workers - List.length running in
      let starting := firstn free queue in
      let running' := running ++ starting in
      map Started starting ++
      match pick (hd 0 choices mod List.length running') running' with
      | Some (p, rest) =>
          Completed p :: pool_schedule fuel' workers (tl choices) (skipn free queue) rest
      | None => []
      end
  end.

Definition future : Type := (Z * result (option payload))%type.

(** The workers' effects on the world, and the futures in completion
    order. *)
Fixpoint run_pool (evs : list pool_event) (w : world) : list future * world :=
  match evs with
  | [] => ([], w)
  | Started p :: evs' => run_pool evs' (snd (send_request p w))
  | Completed p :: evs' =>
      let (r, w1) := handle_response (srv p) w in
      let (futs, w2) := run_pool evs' w1 in
      ((p, r) :: futs, w2)
  end.

(** [for future in as_completed(future_to_page):] in the main thread. *)
Fixpoint collect (futs : list future) (st : locals) : result flow :=
  match futs with
  | [] => Ok (inr st)
  | (_, r) :: rest =>
      match r with
      | Raise e => Raise e                                (* future.result() *)
      | OutOfFuel => OutOfFuel
      | Ok None => collect rest st
      | Ok (Some p) =>
          if truthy (Some p) then
            let st1 := merge st p in
            let tickets := get_ticket_classes p in
            if EARLY_EXIT cfg then
              let st2 := with_available st1 (scan_page tickets (available_tickets st1)) in
              if nonempty (available_tickets st2)
              then Ok (inl (true, st2))                   (* return True *)
              else collect rest st2
            else collect rest st1
          else collect rest st
      end
  end.

(** The [with ThreadPoolExecutor(...) as executor:] block for pages
    [2..page_count]. *)
Definition parallel_pages (choices : list nat) (page_count : Z) (st : locals)
  : M world flow :=
  fun w =>
    let pages := range 2 (page_count + 1) in
    let evs := pool_schedule (List.length pages) (Pos.to_nat (MAX_WORKERS cfg)) choices pages [] in
    let (futs, w') := run_pool evs w in
    (collect futs st, w').

Definition parallel_fetch (choices : list nat) : M world flow :=
  first_page <- fetch_page srv 1 ;;
  match first_page with
  | None => ret (inl (false, fresh))                      (* return False *)
  | Some p =>
      if negb (truthy first_page) then ret (inl (false, fresh))
      else
        let st1 := merge fresh p in
        let rest (st' : locals) : M world flow :=
          let page_count := get_page_count (get_pagination p) in
          if (page_count >? 1)%Z
          then parallel_pages choices page_count st'
          else ret (inr st') in
        if EARLY_EXIT cfg then
          let st2 := with_available st1
                       (scan_page (get_ticket_classes p) (available_tickets st1)) in
          if nonempty (available_tickets st2)
          then ret (inl (true, st2))                      (* return True *)
          else rest st2
        else rest st1
  end.

(** ** [check_ticket_availability] *)

(** The body of the [try]: the value returned together with the locals at
    the point of return. *)
Definition poll_cycle (fuel : nat) (choices : list nat) : M world (bool * locals) :=
  r <- (if ENABLE_PARALLEL_FETCH cfg
        then parallel_fetch choices
        else sequential_pages fuel 1 fresh) ;;
  match r with
  | inl v => ret v
  | inr st =>
      (if SAVE_JSON_RESPONSE cfg
       then emit (SavedJson (List.length (all_ticket_classes st)) (List.length (all_responses st)))
       else ret tt) ;;
      ret (evaluate st)
  end.

Definition is_RequestException (e : exn) : bool :=
  match e with RequestException => true | _ => false end.

Definition check_ticket_availability (fuel : nat) (choices : list nat) : M world bool :=
  try_except (v <- poll_cycle fuel choices ;; ret (fst v))
             is_RequestException
             (fun _ => ret false).

End WithConfig.

(** ** The monitoring loop of [main] *)

(** What the environment does in one poll cycle: the answers of the API
    and the scheduling of the worker pool. *)
Definition cycle_env : Type := (server * list nat)%type.

(** [while True:] of [main], with [attempts] cycles done so far. *)
Fixpoint monitor (cfg : config) (env : nat -> cycle_env) (page_fuel : nat)
         (fuel : nat) (attempts : nat) : M world unit :=
  match fuel with
  | O => fun w => (OutOfFuel, w)
  | S fuel' =>
      let attempts := S attempts in
      let (srv, choices) := env attempts in
      found <- check_ticket_availability cfg srv page_fuel choices ;;
      if found then
        send_discord_notification cfg (AvailabilityMessage attempts) ;;
        emit PurchaseAttempt                               (* then break *)
      else
        emit Sleep ;;
        monitor cfg env page_fuel fuel' attempts
  end.

(** Exit status of the interpreter for an outcome of [main]. *)
Definition exit_status (r : result unit) : option Z :=
  match r with
  | Ok _ => Some 0%Z
  | Raise (SystemExit code) => Some code
  | Raise _ => Some 1%Z
  | OutOfFuel => None
  end.

(** ** Notions used in the statements *)

Unset Implicit Arguments.

Local Open Scope string_scope.
Local Open Scope list_scope.

(** Whether a list of ticket classes holds an AVAILABLE entry. *)
Definition has_available (tickets : list ticket_class) : bool :=
  existsb status_is_available tickets.

(** The merged set as it reaches the evaluation: nothing matched yet. *)
Definition merged_state (merged : list ticket_class) (responses : list payload) : locals :=
  {| all_ticket_classes := merged; all_responses := responses; available_tickets := [] |}.

(** The world after one request for [page] has been sent. *)
Definition sent (w : world) (page : Z) : world :=
  {| request_counter := S (request_counter w); log := log w ++ [Request page] |}.

(** What a webhook adds to the log for a rate-limit notification. *)
Definition rate_limit_events (cfg : config) : list event :=
  Notification RateLimitMessage ::
  match DISCORD_WEBHOOK_URL cfg with
  | None => []
  | Some hook => [WebhookPost hook RateLimitMessage]
  end.

Definition logged (w : world) (evs : list event) : world :=
  {| request_counter := request_counter w; log := log w ++ evs |}.

(** The part of [poll_cycle] after the page loops. *)
Definition finish (cfg : config) (st : locals) : M world (bool * locals) :=
  (if SAVE_JSON_RESPONSE cfg
   then emit (SavedJson (List.length (all_ticket_classes st)) (List.length (all_responses st)))
   else ret tt) ;;
  ret (evaluate cfg st).

(** [n] consecutive page numbers starting at [s]. *)
Definition pages_from (s : Z) (n : nat) : list Z :=
  map (fun k => (s + Z.of_nat k)%Z) (seq 0 n).

(** The server answers 200 with the given payloads for the pages numbered
    from [s] on. *)
Definition served_from (srv : server) (s : Z) (pages : list payload) : Prop :=
  forall k p, nth_error pages k = Some p -> srv (s + Z.of_nat k)%Z = Response 200 p.

(** A page after which the loop goes on: it has data and reports more
    items. *)
Definition goes_on (p : payload) : Prop :=
  truthy (Some p) = true /\ get_has_more_items (get_pagination p) = true.

Definition none_available (p : payload) : Prop :=
  has_available (get_ticket_classes p) = false.

Fixpoint started (evs : list pool_event) : list Z :=
  match evs with
  | [] => []
  | Started p :: evs' => p :: started evs'
  | Completed _ :: evs' => started evs'
  end.

Fixpoint completed (evs : list pool_event) : list Z :=
  match evs with
  | [] => []
  | Started _ :: evs' => completed evs'
  | Completed p :: evs' => p :: completed evs'
  end.

(** What a worker's call yields for its future, whatever the world. *)
Definition classify (r : http_result) : result (option payload) :=
  match r with
  | ConnectionFailed => Raise RequestException
  | Response status body =>
      if (status =? 429)%Z then Raise (SystemExit 1)
      else if (status =? 200)%Z then Ok (Some body)
      else Ok None
  end.

Definition is_rate_limited (r : http_result) : bool :=
  match r with
  | Response status _ => (status =? 429)%Z
  | ConnectionFailed => false
  end.

(** The code after the page loops. *)
Definition after_loops (cfg : config) (r : flow) : M world (bool * locals) :=
  match r with
  | inl v => ret v
  | inr st => finish cfg st
  end.

(** The tickets a page contributes: those of a 200 answer, none otherwise. *)
Definition page_tickets (r : http_result) : list ticket_class :=
  match classify r with
  | Ok (Some body) => get_ticket_classes body
  | _ => []
  end.

(** Whether one of the listed pages answers with an AVAILABLE entry. *)
Definition some_page_available (srv : server) (pages : list Z) : bool :=
  existsb (fun k => has_available (page_tickets (srv k))) pages.

(** The tickets a future hands to the main thread: those of a returned
    payload, none otherwise. *)
Definition future_tickets (f : future) : list ticket_class :=
  match snd f with
  | Ok (Some body) => get_ticket_classes body
  | _ => []
  end.



(** An answer that ends the paging: a page with data that reports no more
    items, or a request without data (a status other than 200, or an empty
    body).  A rate limit or a transport failure do not end the paging, they
    raise. *)
Definition ends_paging (r : http_result) : Prop :=
  match r with
  | ConnectionFailed => False
  | Response status p =>
      status <> 429%Z
      /\ (status = 200%Z -> truthy (Some p) = true ->
          get_has_more_items (get_pagination p) = false)
  end.

(** ** Further notions used in the statements *)

(** The snapshots written, each with the counts it records, in the order
    of the log. *)
Fixpoint saved (l : list event) : list (nat * nat) :=
  match l with
  | [] => []
  | SavedJson a b :: l' => (a, b) :: saved l'
  | _ :: l' => saved l'
  end.

(** The POSTs to a webhook, in the order of the log. *)
Fixpoint posts (l : list event) : list (string * message) :=
  match l with
  | [] => []
  | WebhookPost hook m :: l' => (hook, m) :: posts l'
  | _ :: l' => posts l'
  end.

(** The number of sleeps in the log. *)
Fixpoint sleeps (l : list event) : nat :=
  match l with
  | [] => 0
  | Sleep :: l' => S (sleeps l')
  | _ :: l' => sleeps l'
  end.

(** The number of purchase attempts in the log. *)
Fixpoint purchases (l : list event) : nat :=
  match l with
  | [] => 0
  | PurchaseAttempt :: l' => S (purchases l')
  | _ :: l' => purchases l'
  end.

(** Poll cycles begun: each one starts by requesting page 1. *)
Definition cycles (l : list event) : nat := count_occ Z.eq_dec (requests l) 1%Z.

(** What [send_discord_notification] adds to the log. *)
Definition notification_events (cfg : config) (m : message) : list event :=
  Notification m ::
  match DISCORD_WEBHOOK_URL cfg with
  | None => []
  | Some hook => [WebhookPost hook m]
  end.

(** A request that fails at transport level. *)
Definition is_failed (r : http_result) : bool :=
  match r with ConnectionFailed => true | Response _ _ => false end.

(** A page with data that reports more items and, under early exit, holds
    nothing available: the sequential loop goes on to the next page. *)
Definition keeps_paging (cfg : config) (r : http_result) : Prop :=
  exists p, r = Response 200 p /\ goes_on p
            /\ (EARLY_EXIT cfg = true -> none_available p).

(** The outcome of a poll cycle; it does not depend on the log. *)
Definition outcome (cfg : config) (e : cycle_env) (page_fuel : nat) : result bool :=
  fst (check_ticket_availability cfg (fst e) page_fuel (snd e) initial_world).


(** ** Invariants and other devices of the proofs *)

(** What one call of [fetch_page] can add to the log: its request, and
    the notification of a rate limit. *)
Inductive fetch_block (cfg : config) : list event -> Prop :=
| request_block (page : Z) : fetch_block cfg [Request page]
| rate_limit_block : fetch_block cfg (rate_limit_events cfg).

(** A list of events that is a sequence of blocks of the kind [B]. *)
Inductive made_of (B : list event -> Prop) : list event -> Prop :=
| made_nil : made_of B []
| made_app (b l : list event) : B b -> made_of B l -> made_of B (b ++ l).

(** A computation that only appends to the log, and appends blocks of the
    kind [B], however it ends. *)
Definition grows {A} (B : list event -> Prop) (m : M world A) : Prop :=
  forall w r w', m w = (r, w') -> exists new, log w' = log w ++ new /\ made_of B new.

(** The merged list is the concatenation of the stored responses' lists. *)
Definition well_merged (st : locals) : Prop :=
  all_ticket_classes st = List.concat (map get_ticket_classes (all_responses st)).

(** The locals between two pages: nothing matched yet, and under early exit
    nothing to match in what has been merged. *)
Definition scanned (cfg : config) (st : locals) : Prop :=
  well_merged st
  /\ available_tickets st = []
  /\ (EARLY_EXIT cfg = true -> has_available (all_ticket_classes st) = false).

(** What a [return] hands back. *)
Definition sound_return (v : bool) (st : locals) : Prop :=
  well_merged st
  /\ v = has_available (all_ticket_classes st)
  /\ available_tickets st = filter status_is_available (all_ticket_classes st).

(** The page merged last holds an AVAILABLE entry, those before it none. *)
Definition found_on_last_page (st : locals) : Prop :=
  exists earlier p,
    all_responses st = earlier ++ [p]
    /\ Forall none_available earlier
    /\ has_available (get_ticket_classes p) = true.

(** What a page loop yields: a [return] of [True] comes from the early-exit
    scan of the page merged last, a [return] of [False] from the failure
    of the first page of concurrent mode, and the loop falls through with
    scanned locals. *)
Definition sound_flow (cfg : config) (r : flow) : Prop :=
  match r with
  | inl (v, st) =>
      sound_return v st
      /\ (if v then EARLY_EXIT cfg = true /\ found_on_last_page st
          else ENABLE_PARALLEL_FETCH cfg = true /\ st = fresh)
  | inr st => scanned cfg st
  end.


(** What a poll cycle can add to the log: what its calls of [fetch_page]
    add, and the snapshot. *)
Inductive cycle_block (cfg : config) : list event -> Prop :=
| fetch_events (b : list event) : fetch_block cfg b -> cycle_block cfg b
| snapshot_block (total pages : nat) : cycle_block cfg [SavedJson total pages].

(** What the monitoring loop can add to the log. *)
Inductive monitor_block (cfg : config) : list event -> Prop :=
| cycle_events (b : list event) : cycle_block cfg b -> monitor_block cfg b
| sleep_block : monitor_block cfg [Sleep]
| availability_block (attempts : nat) :
    monitor_block cfg (notification_events cfg (AvailabilityMessage attempts))
| purchase_block : monitor_block cfg [PurchaseAttempt].

(** A computation whose outcome does not depend on the world it starts
    from. *)
Definition oblivious {A} (m : M world A) : Prop :=
  forall w w0 : world, fst (m w) = fst (m w0).

(** Whether two requests for page 1 follow each other with no sleep in
    between; [seen] says that page 1 has been requested since the last
    sleep. *)
Fixpoint unpaced (seen : bool) (l : list event) : bool :=
  match l with
  | [] => false
  | Request page :: l' =>
      if (page =? 1)%Z then seen || unpaced true l' else unpaced seen l'
  | Sleep :: l' => unpaced false l'
  | _ :: l' => unpaced seen l'
  end.



(** ** Inputs of the concrete runs *)

(** The constants as they stand in the source; the webhook comes from the
    environment. *)
Definition source_constants (webhook : option string) : config :=
  {| ENABLE_PARALLEL_FETCH := true; EARLY_EXIT := false; MAX_WORKERS := 10;
     SAVE_JSON_RESPONSE := true; DISCORD_WEBHOOK_URL := webhook |}.

(** The same, without a webhook. *)
Definition shipped : config := source_constants None.

Definition sequential (early_exit : bool) : config :=
  {| ENABLE_PARALLEL_FETCH := false; EARLY_EXIT := early_exit; MAX_WORKERS := 10;
     SAVE_JSON_RESPONSE := true; DISCORD_WEBHOOK_URL := None |}.

Definition parallel_early_exit : config :=
  {| ENABLE_PARALLEL_FETCH := true; EARLY_EXIT := true; MAX_WORKERS := 10;
     SAVE_JSON_RESPONSE := true; DISCORD_WEBHOOK_URL := None |}.

Definition ticket (i : string) (status : option string) : ticket_class :=
  {| tc_id := i; tc_name := i; on_sale_status := status |}.

Definition page_of (tickets : list ticket_class) (more : bool) (count : Z) : payload :=
  {| ticket_classes := Some tickets;
     pagination := Some {| has_more_items := Some more; page_count := Some count |};
     other_keys := true |}.

(** A page without pagination metadata. *)
Definition bare_page (tickets : list ticket_class) : payload :=
  {| ticket_classes := Some tickets; pagination := None; other_keys := false |}.

Definition empty_body : payload :=
  {| ticket_classes := None; pagination := None; other_keys := false |}.

Definition page_a : payload := page_of [ticket "t1" (Some "AVAILABLE")] true 2.
Definition page_b : payload := page_of [ticket "t2" (Some "SOLD_OUT")] false 2.

(** Two pages, the first of which holds an AVAILABLE entry. *)
Definition two_pages : server :=
  fun page =>
    if (page =? 1)%Z then Response 200 page_a
    else if (page =? 2)%Z then Response 200 page_b
    else Response 404 empty_body.

(** Page 1 holds an AVAILABLE entry; the request for page 2 fails at
    transport level. *)
Definition second_page_unreachable : server :=
  fun page =>
    if (page =? 1)%Z then Response 200 page_a else ConnectionFailed.

(** Three pages of which the second answers 503. *)
Definition second_page_503 : server :=
  fun page =>
    if (page =? 1)%Z then Response 200 (page_of [ticket "t1" (Some "AVAILABLE")] true 3)
    else if (page =? 2)%Z then Response 503 empty_body
    else Response 200 (page_of [ticket "t3" (Some "SOLD_OUT")] false 3).

(** Twelve pages; the API rate-limits every request after the first. *)
Definition rate_limited_api : server :=
  fun page =>
    if (page =? 1)%Z then Response 200 (page_of [ticket "t1" (Some "SOLD_OUT")] true 12)
    else Response 429 empty_body.

(** Three pages; page 2 is unreachable and page 3 is rate-limited. *)
Definition unreachable_then_rate_limited : server :=
  fun page =>
    if (page =? 1)%Z then Response 200 (page_of [ticket "t1" (Some "SOLD_OUT")] true 3)
    else if (page =? 2)%Z then ConnectionFailed
    else Response 429 empty_body.

(** The locals and the world at the end of a cycle over [two_pages], with
    the constants of the source. *)
Definition two_pages_locals : locals :=
  {| all_ticket_classes := [ticket "t1" (Some "AVAILABLE"); ticket "t2" (Some "SOLD_OUT")];
     all_responses := [page_a; page_b];
     available_tickets := [ticket "t1" (Some "AVAILABLE")] |}.

Definition two_pages_world : world :=
  {| request_counter := 2; log := [Request 1; Request 2; SavedJson 2 2] |}.

(** The world and the locals when early exit returns on page 1 of
    [two_pages]. *)
Definition first_page_world : world := {| request_counter := 1; log := [Request 1] |}.

Definition first_page_locals : locals :=
  {| all_ticket_classes := [ticket "t1" (Some "AVAILABLE")];
     all_responses := [page_a];
     available_tickets := [ticket "t1" (Some "AVAILABLE")] |}.

(** An API that never runs out of pages. *)
Definition endless : server :=
  fun _ => Response 200 (page_of [ticket "t1" (Some "SOLD_OUT")] true 1).

(** A constant API with a single sold-out page. *)
Definition sold_out : server :=
  fun _ => Response 200 (page_of [ticket "t1" (Some "SOLD_OUT")] false 1).


(** The API rate-limits the very first request. *)
Definition always_rate_limited (attempt : nat) : cycle_env :=
  (fun _ => Response 429 empty_body, []).

Set Implicit Arguments.

End Polling.

(** * Automation *)

(** ** Python string operations used on element texts and class lists *)

Definition is_space (c : ascii) : bool :=
  let n := nat_of_ascii c in
  ((9 <=? n) && (n <=? 13)) || ((28 <=? n) && (n <=? 32)).

Definition is_digit (c : ascii) : bool :=
  let n := nat_of_ascii c in (48 <=? n) && (n <=? 57).

Fixpoint lstrip (l : list ascii) : list ascii :=
  match l with
  | c :: l' => if is_space c then lstrip l' else l
  | [] => []
  end.

(** [s.strip()] *)
Definition strip (s : string) : string :=
  string_of_list_ascii
    (rev (lstrip (rev (lstrip (list_ascii_of_string s))))).

(** [s.isdigit()], for ASCII digits. *)
Definition isdigit (s : string) : bool :=
  match list_ascii_of_string s with
  | [] => false
  | l => forallb is_digit l
  end.

(** [int(s)] for a string of ASCII digits. *)
Definition int (s : string) : Z :=
  fold_left (fun acc c => (10 * acc + (Z.of_nat (nat_of_ascii c) - 48))%Z)
            (list_ascii_of_string s) 0%Z.

(** [s.lower()], for ASCII letters. *)
Definition lower (s : string) : string :=
  string_of_list_ascii
    (map (fun c => let n := nat_of_ascii c in
                   if (65 <=? n) && (n <=? 90) then ascii_of_nat (n + 32) else c)
         (list_ascii_of_string s)).

(** [needle in s] *)
Definition contains (needle s : string) : bool :=
  match String.index 0 needle s with
  | Some _ => true
  | None => false
  end.

Module Automation.

(** ** The browser as the code drives it *)

Inductive By : Type := CSS_SELECTOR | XPATH | TAG_NAME.

(** A handle on a [WebElement]. *)
Definition element : Type := nat.

(** Expected conditions passed to [wait.until]. *)
Inductive condition : Type :=
| element_to_be_clickable
| presence_of_element_located.

(** The two families of screenshot files. *)
Inductive screenshot : Type :=
| iframe_screenshot       (* iframe_screenshot_<timestamp>.png *)
| error_screenshot.       (* error_screenshot_<timestamp>.png *)

(** The WebDriver operations the code invokes, indexed by what they return. *)
Inductive call : Type -> Type :=
| Get (url : string) : call unit
| Title : call string
| CurrentUrl : call string
| WaitUntil (c : condition) (by_ : By) (selector : string) : call element
| SwitchToFrame (frame : element) : call unit
| Click (e : element) : call unit
| SaveScreenshot (file : screenshot) : call unit
| FindElements (by_ : By) (selector : string) : call (list element)
| FindElement (e : element) (by_ : By) (selector : string) : call element
| Text (e : element) : call string
| GetAttribute (e : element) (attribute : string) : call (option string)
| TagName (e : element) : call string
| IsDisplayed (e : element) : call bool
| IsEnabled (e : element) : call bool.

(** What a WebDriver operation can raise: [TimeoutException] (from
    [wait.until]), [NoSuchElementException], or another subclass of
    [Exception]. *)
Inductive webdriver_error : Type :=
| Timeout
| NoSuchElement
| OtherError.

Definition to_exn (e : webdriver_error) : exn :=
  match e with
  | Timeout => TimeoutException
  | NoSuchElement => NoSuchElementException
  | OtherError => OtherException
  end.

Inductive event : Type :=
| Called {A : Type} (c : call A)        (* a WebDriver operation was invoked *)
| Printed (line : string)               (* print(...) *)
| Prompted (prompt : string)            (* input(...) *)
| Slept (seconds : nat).                (* time.sleep(...) *)

Section WithDriver.

(** The browser: a state and the effect of each operation on it. *)
Variable browser : Type.
Variable driver : forall A : Type, call A -> browser -> (A + webdriver_error) * browser.

(** The state of an automation run: the browser, what has happened so
    far, and the local variable [available_date] of
    [automate_registration] (its value survives the exceptions caught
    around the code that assigns it). *)
Record session : Type := {
  page : browser;
  trace : list event;
  available_date : option element
}.

Definition perform {A} (c : call A) : M session A :=
  fun s =>
    let (r, b) := driver c (page s) in
    (match r with inl a => Ok a | inr e => Raise (to_exn e) end,
     {| page := b; trace := trace s ++ [Called c]; available_date := available_date s |}).

Definition record (e : event) : M session unit :=
  fun s => (Ok tt, {| page := page s; trace := trace s ++ [e];
                      available_date := available_date s |}).

(** Console output is modelled for the lines that tell the operator the
    step reached and the outcome; symbols and interpolated values are left
    out. *)
Definition say (line : string) : M session unit := record (Printed line).

Definition assign_available_date (d : option element) : M session unit :=
  fun s => (Ok tt, {| page := page s; trace := trace s; available_date := d |}).

Definition read_available_date : M session (option element) :=
  fun s => (Ok (available_date s), s).

Definition is_TimeoutException (e : exn) : bool :=
  match e with TimeoutException => true | _ => false end.

(** [WebDriverWait(driver, 20).until(EC.element_to_be_clickable((by, selector)))] *)
Definition wait_clickable (by_ : By) (selector : string) : M session element :=
  perform (WaitUntil element_to_be_clickable by_ selector).

(** ** Selector resolution

    [for selector in selectors: try: x = wait.until(...); print(...); break
     except TimeoutException: continue], leaving [x] at [None] when every
    candidate timed out. *)
Fixpoint first_clickable (found : string) (selectors : list string)
  : M session (option element) :=
  match selectors with
  | [] => ret None
  | selector :: rest =>
      try_except
        (e <- wait_clickable CSS_SELECTOR selector ;;
         say found ;;
         ret (Some e))
        is_TimeoutException
        (fun _ => first_clickable found rest)
  end.

Definition check_availability_selectors : list string :=
  [ "button[id*='check-availability']";
    "button.check-availability-btnbutton";
    "button:contains('Check availability')" ]%string.

Definition time_slot_selectors : list string :=
  [ "div[role='button'][class*='TimeSlot']";
    "div.TimeSlot-moduleslot_1Z-Kw";
    "div[class*='timeSlotContainer']" ]%string.

Definition register_selectors : list string :=
  [ "button[data-testid='eds-modal__primary-button']";
    "button[data-automation='eds-modalprimary-button']";
    "button.eds-btn--fill" ]%string.

(** ** Step 1 and the switch into the widget's iframe *)

Definition click_check_availability : M session unit :=
  say "Step 1: Clicking 'Check availability' button..." ;;
  found <- first_clickable "Found button with selector" check_availability_selectors ;;
  btn <- match found with
         | Some btn => ret btn
         | None =>
             say "Trying XPath method..." ;;
             wait_clickable XPATH "//button[contains(text(), 'Check availability')]"
         end ;;
  perform (Click btn) ;;
  say "Clicked Check availability button".

Definition enter_iframe : M session unit :=
  say "Checking for iframe..." ;;
  try_except
    (iframe <- perform (WaitUntil presence_of_element_located CSS_SELECTOR
                          "iframe[id*='eventbrite-widget']") ;;
     perform (SwitchToFrame iframe) ;;
     say "Switched to iframe")
    is_TimeoutException
    (fun _ => say "No iframe found, continuing in main page").

(** ** Step 2: the search for an available date *)

(** A [for] loop whose body says whether to [break]. *)
Fixpoint for_each {A} (body : A -> M session bool) (l : list A) : M session unit :=
  match l with
  | [] => ret tt
  | x :: rest =>
      stop <- body x ;;
      if stop then ret tt else for_each body rest
  end.

(** [try: body  except Exception: continue] as the body of a loop. *)
Definition or_continue (body : M session bool) : M session bool :=
  try_except body is_Exception (fun _ => ret false).

(** The debugging print of one of the first ten buttons. *)
Definition show_button (btn : element) : M session bool :=
  or_continue
    (t <- perform (Text btn) ;;
     (if (t =? EmptyString)%string then ret tt
      else (_ <- perform (Text btn) ;; ret tt)) ;;
     _ <- perform (GetAttribute btn "class") ;;
     ret false).

(** One element with a short numeric text (second strategy). *)
Definition try_date_element (elem : element) : M session bool :=
  or_continue
    (displayed <- perform (IsDisplayed elem) ;;
     if displayed then
       raw <- perform (Text elem) ;;
       let text := strip raw in
       tag <- perform (TagName elem) ;;
       classes <- perform (GetAttribute elem "class") ;;
       if isdigit text && (int text <=? 31)%Z then
         is_date_text <-
           (if (tag =? "p")%string then
              match classes with
              | Some cl => ret (contains "dateText" cl)
              | None => raise OtherException           (* TypeError *)
              end
            else ret false) ;;
         if is_date_text then
           parent <- perform (FindElement elem XPATH "./ancestor::li[1]") ;;
           parent_classes <- perform (GetAttribute parent "class") ;;
           match parent_classes with
           | None => raise OtherException               (* AttributeError *)
           | Some pc =>
               if negb (contains "unavailable" (lower pc))
                  && negb (contains "disabled" (lower pc))
               then assign_available_date (Some parent) ;; ret true
               else ret false
           end
         else
           assign_available_date (Some elem) ;; ret true
       else ret false
     else ret false).

(** One [li] element (third strategy). *)
Definition try_list_item (li : element) : M session bool :=
  or_continue
    (displayed <- perform (IsDisplayed li) ;;
     if displayed then
       classes <- perform (GetAttribute li "class") ;;
       match classes with
       | None => raise OtherException                   (* AttributeError *)
       | Some cl =>
           if contains "enabled" (lower cl)
           then assign_available_date (Some li) ;; ret true
           else ret false
       end
     else ret false).

(** One button of the calendar area (the alternative method).  The text
    is read once more for the message after [available_date] has been
    assigned. *)
Definition try_calendar_button (btn : element) : M session bool :=
  or_continue
    (displayed <- perform (IsDisplayed btn) ;;
     if displayed then
       enabled <- perform (IsEnabled btn) ;;
       if enabled then
         raw <- perform (Text btn) ;;
         if isdigit (strip raw) then
           assign_available_date (Some btn) ;;
           _ <- perform (Text btn) ;;
           ret true
         else ret false
       else ret false
     else ret false).

(** Lines 426-519: the first [try] block of step 2. *)
Definition search_widget : M session unit :=
  try_except
    (perform (SaveScreenshot iframe_screenshot) ;;
     all_buttons <- perform (FindElements TAG_NAME "button") ;;
     for_each show_button (firstn 10 all_buttons) ;;
     _ <- perform (FindElements XPATH "//*[contains(text(), 'Date')]") ;;
     date_buttons <- perform (FindElements XPATH
       "//button[not(@disabled) and string-length(normalize-space(text())) <= 2 and number(text()) = number(text())]") ;;
     (match date_buttons with
      | [] =>
          date_elements <- perform (FindElements XPATH
            "//*[string-length(normalize-space(text())) <= 2 and number(text()) = number(text()) and not(contains(@class, 'disabled'))]") ;;
          for_each try_date_element date_elements
      | _ => ret tt
      end) ;;
     date <- read_available_date ;;
     match date with
     | None =>
         li_elements <- perform (FindElements TAG_NAME "li") ;;
         for_each try_list_item li_elements
     | Some _ => ret tt
     end)
    is_Exception
    (fun _ => say "Error finding date buttons").

(** Lines 521-538: the alternative method. *)
Definition search_calendar : M session unit :=
  say "Trying alternative method..." ;;
  try_except
    (date_buttons <- perform (FindElements CSS_SELECTOR
       "table button, [role='grid'] button, [class*='calendar'] button") ;;
     for_each try_calendar_button date_buttons)
    is_Exception
    (fun _ => say "Alternative method failed").

(** All the strategies of the date search, in order. *)
Definition search_date : M session unit :=
  say "Step 2: Selecting available date..." ;;
  assign_available_date None ;;
  search_widget ;;
  date <- read_available_date ;;
  match date with
  | None => search_calendar
  | Some _ => ret tt
  end.

Definition select_date : M session unit :=
  search_date ;;
  date <- read_available_date ;;
  match date with
  | None => raise TimeoutException       (* "Could not find available date button" *)
  | Some d =>
      perform (Click d) ;;
      say "Selected available date"
  end.

(** ** Steps 3 and 5 *)

Definition select_time_slot : M session unit :=
  say "Step 3: Selecting time slot..." ;;
  found <- first_clickable "Found time slot with selector" time_slot_selectors ;;
  match found with
  | None => raise TimeoutException       (* "Could not find time slot" *)
  | Some slot =>
      perform (Click slot) ;;
      say "Selected time slot"
  end.

Definition click_register : M session unit :=
  say "Step 5: Clicking 'Register' button..." ;;
  found <- first_clickable "Found register button with selector" register_selectors ;;
  btn <- match found with
         | Some btn => ret btn
         | None =>
             say "Trying XPath method..." ;;
             wait_clickable XPATH "//button[contains(text(), 'Register')]"
         end ;;
  perform (Click btn) ;;
  say "Clicked Register button".

(** ** [automate_registration] *)

(** [except TimeoutException as e:] *)
Definition on_timeout : M session bool :=
  say "Timeout error: Element not found within time limit" ;;
  _ <- perform CurrentUrl ;;
  _ <- perform Title ;;
  try_except
    (perform (SaveScreenshot error_screenshot) ;;
     say "Screenshot saved")
    is_Exception
    (fun _ => say "Could not save screenshot") ;;
  ret false.

Definition automate_registration : M session bool :=
  try_except
    (click_check_availability ;;
     enter_iframe ;;
     select_date ;;
     select_time_slot ;;
     say "Step 4: Ticket quantity already set to 1, skipping..." ;;
     click_register ;;
     say "Registration automation completed successfully!" ;;
     ret true)
    is_Exception
    (fun e =>
       match e with
       | TimeoutException => on_timeout
       | NoSuchElementException => say "Element not found" ;; ret false
       | _ => say "Unexpected error during automation" ;; ret false
       end).

(** ** [purchase_attempt] *)

Definition CHECKOUT_BASE_URL : string := "https://www.eventbrite.com/e/1247015881069".

Definition handoff : string := "Please complete the process manually in the browser.".

Definition closing_prompt : string := "Press Enter when you're done (browser will close)...".

Definition open_checkout_page : M session unit :=
  perform (Get CHECKOUT_BASE_URL) ;;
  record (Slept 3) ;;
  _ <- perform Title ;;
  ret tt.

Definition purchase_attempt : M session unit :=
  say "Starting automation..." ;;
  try_except
    (open_checkout_page ;;
     success <- automate_registration ;;
     if success then
       say "Automation completed successfully!" ;;
       _ <- perform CurrentUrl ;;
       say "Browser is ready! Please complete the checkout manually." ;;
       record (Prompted closing_prompt)
     else
       say "Automation failed." ;;
       say handoff ;;
       record (Prompted closing_prompt))
    is_Exception
    (fun _ =>
       say "Error during automation" ;;
       say handoff ;;
       record (Prompted closing_prompt)).

End WithDriver.

(** The screenshots taken, in the order of the trace. *)
Fixpoint screenshots (l : list event) : list screenshot :=
  match l with
  | [] => []
  | Called (SaveScreenshot file) :: l' => file :: screenshots l'
  | _ :: l' => screenshots l'
  end.

(** The candidates waited for with [element_to_be_clickable], in the order
    of the trace. *)
Fixpoint attempts (l : list event) : list (By * string) :=
  match l with
  | [] => []
  | Called (WaitUntil element_to_be_clickable by_ selector) :: l' =>
      (by_, selector) :: attempts l'
  | _ :: l' => attempts l'
  end.

(** ** Notions used in the statements *)

Unset Implicit Arguments.

Local Open Scope string_scope.
Local Open Scope list_scope.

Definition is_screenshot {A} (c : call A) : bool :=
  match c with SaveScreenshot _ => true | _ => false end.

Section Notions.

Variable browser : Type.
Variable driver : forall A : Type, call A -> browser -> (A + webdriver_error) * browser.

(** Every candidate of the list is waited for in turn, each wait ending in
    [TimeoutException]. *)
Inductive all_time_out : list string -> session browser -> session browser -> Prop :=
| none_left (s : session browser) : all_time_out [] s s
| timed_out (selector : string) (rest : list string) (s s1 s2 : session browser) :
    wait_clickable driver CSS_SELECTOR selector s = (Raise TimeoutException, s1) ->
    all_time_out rest s1 s2 ->
    all_time_out (selector :: rest) s s2.

(** A computation that takes no screenshot, however it ends. *)
Definition quiet {A} (m : M (session browser) A) : Prop :=
  forall s r s', m s = (r, s') -> screenshots (trace s') = screenshots (trace s).

(** A computation that takes exactly the screenshot [file], however it
    ends. *)
Definition shoots {A} (file : screenshot) (m : M (session browser) A) : Prop :=
  forall s r s', m s = (r, s') -> screenshots (trace s') = screenshots (trace s) ++ [file].

(** A computation that ends by returning or by raising a subclass of
    [Exception]. *)
Definition tame {A} (m : M (session browser) A) : Prop :=
  forall s r s',
    m s = (r, s') ->
    match r with
    | Ok _ => True
    | Raise e => is_Exception e = true
    | OutOfFuel => False
    end.


(** Whether [driver.current_url] and then [driver.title] can be read. *)
Definition can_report (b : browser) : bool :=
  match driver _ CurrentUrl b with
  | (inl _, b1) =>
      match driver _ Title b1 with
      | (inl _, _) => true
      | (inr _, _) => false
      end
  | (inr _, _) => false
  end.

End Notions.

Arguments quiet {browser A} m.
Arguments shoots {browser A} file m.
Arguments tame {browser A} m.

(** ** Further notions used in the statements *)

(** The elements clicked, in the order of the trace. *)
Fixpoint clicks (l : list event) : list element :=
  match l with
  | [] => []
  | Called (Click e) :: l' => e :: clicks l'
  | _ :: l' => clicks l'
  end.


Section Projections.

Variable browser : Type.

(** A computation that adds nothing to what [proj] reads off the trace,
    however it ends. *)
Definition silent {X A} (proj : list event -> list X) (m : M (session browser) A) : Prop :=
  forall s r s', m s = (r, s') -> proj (trace s') = proj (trace s).

(** A computation that returns, whatever the state it starts from. *)
Definition returns {A} (m : M (session browser) A) : Prop :=
  forall s, exists a s', m s = (Ok a, s').

End Projections.

Arguments silent {browser X A} proj m.
Arguments returns {browser A} m.

(** A page that does not change while it is read: an operation answers the
    same whenever it is invoked. *)
Definition still (answer : forall A : Type, call A -> A + webdriver_error)
  (A : Type) (c : call A) (b : unit) : (A + webdriver_error) * unit :=
  (answer A c, b).

(** ** A browser for the concrete runs *)

(** A browser without state in which the second candidate for the
    check-availability button resolves, no iframe shows up, and the widget
    holds no element at all. *)
Definition empty_widget (A : Type) (c : call A) (b : unit) : (A + webdriver_error) * unit :=
  match c in call T return (T + webdriver_error) * unit with
  | Get _ => (inl tt, b)
  | Title => (inl "Event"%string, b)
  | CurrentUrl => (inl CHECKOUT_BASE_URL, b)
  | WaitUntil element_to_be_clickable CSS_SELECTOR selector =>
      if (selector =? "button.check-availability-btnbutton")%string
      then (inl 7, b)
      else (inr Timeout, b)
  | WaitUntil _ _ _ => (inr Timeout, b)
  | SwitchToFrame _ => (inl tt, b)
  | Click _ => (inl tt, b)
  | SaveScreenshot _ => (inl tt, b)
  | FindElements _ _ => (inl [], b)
  | FindElement _ _ _ => (inr NoSuchElement, b)
  | Text _ => (inl EmptyString, b)
  | GetAttribute _ _ => (inl None, b)
  | TagName _ => (inl "div"%string, b)
  | IsDisplayed _ => (inl false, b)
  | IsEnabled _ => (inl false, b)
  end.

Definition start : session unit :=
  {| page := tt; trace := []; available_date := None |}.

(** The sessions of that run: after the wait for the first candidate, after
    the wait for the second, when the date search starts, and when it
    ends. *)
Definition after_first_wait : session unit :=
  snd (wait_clickable empty_widget CSS_SELECTOR "button[id*='check-availability']" start).

Definition after_second_wait : session unit :=
  snd (wait_clickable empty_widget CSS_SELECTOR "button.check-availability-btnbutton"
         after_first_wait).



(** A browser in which every wait resolves and the widget shows one
    enabled [li]. *)
Definition ready_widget (A : Type) (c : call A) (b : unit) : (A + webdriver_error) * unit :=
  match c in call T return (T + webdriver_error) * unit with
  | Get _ => (inl tt, b)
  | Title => (inl "Event", b)
  | CurrentUrl => (inl CHECKOUT_BASE_URL, b)
  | WaitUntil _ _ _ => (inl 1, b)
  | SwitchToFrame _ => (inl tt, b)
  | Click _ => (inl tt, b)
  | SaveScreenshot _ => (inl tt, b)
  | FindElements TAG_NAME selector =>
      if (selector =? "li")%string then (inl [9], b) else (inl [], b)
  | FindElements _ _ => (inl [], b)
  | FindElement _ _ _ => (inr NoSuchElement, b)
  | Text _ => (inl EmptyString, b)
  | GetAttribute _ _ => (inl (Some "day enabled"), b)
  | TagName _ => (inl "li", b)
  | IsDisplayed _ => (inl true, b)
  | IsEnabled _ => (inl true, b)
  end.

(** A browser that rejects the third candidate for the check-availability
    button as an invalid selector; every other wait times out. *)
Definition strict_widget (A : Type) (c : call A) (b : unit) : (A + webdriver_error) * unit :=
  match c in call T return (T + webdriver_error) * unit with
  | WaitUntil element_to_be_clickable CSS_SELECTOR selector =>
      if (selector =? "button:contains('Check availability')")%string
      then (inr OtherError, b)
      else (inr Timeout, b)
  | other => empty_widget _ other b
  end.

(** A page on which every element is a displayed [div] with the text
    [" 15 "]. *)
Definition calendar_day (A : Type) (c : call A) : A + webdriver_error :=
  match c in call T return T + webdriver_error with
  | IsDisplayed _ => inl true
  | Text _ => inl " 15 "
  | TagName _ => inl "div"
  | GetAttribute _ _ => inl (Some "day")
  | _ => inr NoSuchElement
  end.

(** The sessions at the end of the runs used below. *)
Definition registered : session unit := snd (automate_registration ready_widget start).

Definition no_slot : session unit :=
  snd (first_clickable empty_widget "Found time slot with selector" time_slot_selectors start).

Definition rejected : session unit :=
  snd (first_clickable strict_widget "Found button with selector"
         check_availability_selectors start).

Definition picked : session unit := snd (try_date_element (still calendar_day) 4 start).

Set Implicit Arguments.

End Automation.

(** * The program *)

Module Main.

Import Polling.

(** What the program does, in order: the start of the browser, the events
    of the polling side, those of the browser automation, and the end of
    the browser. *)
Inductive step : Type :=
| Launched                               (* webdriver.Chrome(options=options) *)
| Maximized                              (* driver.maximize_window() *)
| Polled (e : Polling.event)
| Drove (e : Automation.event)
| Closed.                                (* driver.quit() *)

Section WithEnvironment.

Variable cfg : config.

(** The browser, as in [Automation], with the three operations on the
    browser process that only [open_browser_and_login] and [main] use. *)
Variable browser : Type.
Variable driver : forall A : Type, Automation.call A -> browser
                                   -> (A + Automation.webdriver_error) * browser.
Variable Chrome : browser + Automation.webdriver_error.
Variable maximize_window : browser -> (unit + Automation.webdriver_error) * browser.
Variable driver_quit : browser -> unit + Automation.webdriver_error.

(** The API and the scheduling of the worker pool, cycle by cycle. *)
Variable env : nat -> cycle_env.

Definition login_prompt : string := "Press Enter after you've logged in...".

(** ** [open_browser_and_login]

    Any exception of the [try] block ends the program with [exit(1)]. *)
Definition open_browser_and_login : M (list step) browser :=
  fun h =>
    match Chrome with
    | inr _ => (Raise (SystemExit 1), h ++ [Launched])
    | inl b0 =>
        match maximize_window b0 with
        | (inr _, _) => (Raise (SystemExit 1), h ++ [Launched; Maximized])
        | (inl _, b1) =>
            let opened := Automation.Called (Automation.Get "https://www.eventbrite.com") in
            match driver (Automation.Get "https://www.eventbrite.com") b1 with
            | (inr _, _) => (Raise (SystemExit 1), h ++ [Launched; Maximized; Drove opened])
            | (inl _, b2) =>
                (Ok b2, h ++ [Launched; Maximized; Drove opened;
                              Drove (Automation.Prompted login_prompt)])
            end
        end
    end.

(** ** [main] *)

(** The state of the monitoring loop: the request counter, the browser
    window, and what has happened so far. *)
Record process : Type := {
  counter : nat;
  window : browser;
  history : list step
}.

(** A computation of the polling side, run in the process.  The polling
    side never reads its log, so it is run on an empty one, and what it
    logs is appended to the history. *)
Definition polling {A} (m : M world A) : M process A :=
  fun p =>
    let (r, w) := m {| request_counter := counter p; log := [] |} in
    (r, {| counter := request_counter w; window := window p;
           history := history p ++ map Polled (log w) |}).

(** A computation of the automation, run on the browser window; what it
    leaves in its trace is appended to the history. *)
Definition driving {A} (m : M (Automation.session browser) A) : M process A :=
  fun p =>
    let (r, s) := m {| Automation.page := window p; Automation.trace := [];
                       Automation.available_date := None |} in
    (r, {| counter := counter p; window := Automation.page s;
           history := history p ++ map Drove (Automation.trace s) |}).

(** [while True:] of [main], with [attempts] cycles done so far. *)
Fixpoint watch (page_fuel fuel attempts : nat) : M process unit :=
  match fuel with
  | O => fun p => (OutOfFuel, p)
  | S fuel' =>
      let attempts := S attempts in
      let (srv, choices) := env attempts in
      found <- polling (check_ticket_availability cfg srv page_fuel choices) ;;
      if found then
        polling (send_discord_notification cfg (AvailabilityMessage attempts)) ;;
        driving (Automation.purchase_attempt driver)          (* then break *)
      else
        polling (emit Sleep) ;;
        watch page_fuel fuel' attempts
  end.

(** [finally: if driver: driver.quit()]; an exception of [quit] replaces
    the outcome of the loop. *)
Definition close (r : result unit) (p : process) : result unit * list step :=
  match r with
  | OutOfFuel => (OutOfFuel, history p)
  | _ =>
      match driver_quit (window p) with
      | inl _ => (r, history p ++ [Closed])
      | inr e => (Raise (Automation.to_exn e), history p ++ [Closed])
      end
  end.

(** [main()], without the interrupt from the keyboard. *)
Definition main (page_fuel fuel : nat) : M (list step) unit :=
  fun h =>
    match open_browser_and_login h with
    | (Ok b, h1) =>
        let (r, p) := watch page_fuel fuel 0 {| counter := 0; window := b; history := h1 |} in
        close r p
    | (Raise e, h1) => (Raise e, h1)
    | (OutOfFuel, h1) => (OutOfFuel, h1)
    end.

End WithEnvironment.

(** ** Notions used in the statements *)

Unset Implicit Arguments.

(** The events of the polling side, in the order of the history. *)
Fixpoint polled (h : list step) : list Polling.event :=
  match h with
  | [] => []
  | Polled e :: h' => e :: polled h'
  | _ :: h' => polled h'
  end.

(** How often the browser has been quit. *)
Fixpoint quits (h : list step) : nat :=
  match h with
  | [] => 0
  | Closed :: h' => S (quits h')
  | _ :: h' => quits h'
  end.

(** A computation that only appends to the history and does not quit the
    browser, however it ends. *)
Definition keeps_open {browser A} (m : M (process browser) A) : Prop :=
  forall p r p', m p = (r, p') ->
    exists new, history p' = history p ++ new /\ quits new = 0.


(** ** An environment for the concrete runs *)

(** A browser process that starts, maximizes and quits without error. *)
Definition starts : unit + Automation.webdriver_error := inl tt.

(** One that fails to start. *)
Definition does_not_start : unit + Automation.webdriver_error := inr Automation.OtherError.

Definition maximizes (b : unit) : (unit + Automation.webdriver_error) * unit := (inl tt, b).

Definition quits_cleanly (b : unit) : unit + Automation.webdriver_error := inl tt.

(** The history after the login step, and at the end of a run whose first
    request is rate-limited. *)
Definition logged_in : list step :=
  snd (open_browser_and_login Automation.empty_widget starts maximizes []).

Definition rate_limited_run : list step :=
  snd (main shipped Automation.empty_widget starts maximizes quits_cleanly
         always_rate_limited 1 3 []).

Set Implicit Arguments.

End Main.


(** * Properties of the polling engine *)

Import Polling.

Unset Implicit Arguments.

Local Open Scope string_scope.
Local Open Scope list_scope.

(** ** The scans *)

Lemma summary_same (tc : ticket_class) : summary tc (on_sale_status tc) = tc.
Proof. destruct tc; reflexivity. Qed.

Lemma status_is_available_spec (tc : ticket_class) :
  status_is_available tc = true <-> on_sale_status tc = Some "AVAILABLE".
Proof.
  unfold status_is_available. destruct (on_sale_status tc) as [s|].
  - rewrite String.eqb_eq. split; congruence.
  - split; discriminate.
Qed.

Lemma scan_page_filter (tickets available : list ticket_class) :
  scan_page tickets available = available ++ filter status_is_available tickets.
Proof.
  revert available. induction tickets as [|tc rest IH]; intros available; simpl.
  - now rewrite app_nil_r.
  - destruct (status_is_available tc).
    + rewrite IH, summary_same, <- app_assoc. reflexivity.
    + apply IH.
Qed.

Lemma scan_all_filter (tickets available : list ticket_class) :
  scan_all tickets available = available ++ filter status_is_available tickets.
Proof.
  revert available. induction tickets as [|tc rest IH]; intros available; simpl.
  - now rewrite app_nil_r.
  - unfold status_is_available at 1.
    destruct tc as [i n [s|]]; simpl.
    + destruct (s =? "AVAILABLE")%string eqn:E.
      * apply String.eqb_eq in E. subst s.
        rewrite IH, <- app_assoc. reflexivity.
      * apply IH.
    + apply IH.
Qed.

Lemma nonempty_existsb {A} (f : A -> bool) (l : list A) :
  nonempty (filter f l) = existsb f l.
Proof.
  induction l as [|x l IH]; simpl; [reflexivity|].
  destruct (f x); simpl; [reflexivity | exact IH].
Qed.

Lemma has_available_spec (tickets : list ticket_class) :
  has_available tickets = true <->
  exists tc, In tc tickets /\ on_sale_status tc = Some "AVAILABLE".
Proof.
  unfold has_available. rewrite existsb_exists.
  split; intros [tc [Hin H]]; exists tc; split; auto;
    now apply status_is_available_spec.
Qed.

Lemma has_available_app (l1 l2 : list ticket_class) :
  has_available (l1 ++ l2) = has_available l1 || has_available l2.
Proof. apply existsb_app. Qed.

Lemma evaluate_merged (cfg : config) (merged : list ticket_class) (responses : list payload) :
  evaluate cfg (merged_state merged responses) =
  (has_available merged,
   with_available (merged_state merged responses) (filter status_is_available merged)).
Proof.
  unfold evaluate, merged_state; simpl.
  rewrite orb_true_r, scan_all_filter; simpl.
  rewrite nonempty_existsb. fold (has_available merged).
  destruct (has_available merged); reflexivity.
Qed.

(** C1.  The evaluation of a merged ticket-class set (lines 311-329) reports
    "available" exactly when some entry has [on_sale_status] equal to
    ['AVAILABLE']; the matched subset it leaves in [available_tickets] is the
    sub-list of the entries with that status, in their order; the empty set
    is never reported available. *)
Theorem evaluate_available_iff (cfg : config) (merged : list ticket_class)
        (responses : list payload) :
  let verdict := fst (evaluate cfg (merged_state merged responses)) in
  let matched := available_tickets (snd (evaluate cfg (merged_state merged responses))) in
  (verdict = true <-> exists tc, In tc merged /\ on_sale_status tc = Some "AVAILABLE")
  /\ matched = filter status_is_available merged
  /\ (forall tc, In tc matched <-> In tc merged /\ on_sale_status tc = Some "AVAILABLE")
  /\ fst (evaluate cfg (merged_state [] responses)) = false.
Proof.
  cbv zeta. rewrite !evaluate_merged. simpl.
  repeat split.
  - apply has_available_spec.
  - apply has_available_spec.
  - apply filter_In in H. tauto.
  - apply filter_In in H. now apply status_is_available_spec.
  - intros [Hin Hs]. apply filter_In. split; auto.
    now apply status_is_available_spec.
Qed.

(** C10.  An entry without the [on_sale_status] key is invisible to every
    availability scan: removing it from the scanned list changes neither the
    early-exit scan of a page nor the final scan, the entry never shows up
    among the matches, and alone it yields the verdict "not available". *)
Theorem missing_status_not_available (cfg : config) (tc : ticket_class)
        (before after available : list ticket_class) (responses : list payload) :
  on_sale_status tc = None ->
  scan_page (before ++ tc :: after) available = scan_page (before ++ after) available
  /\ scan_all (before ++ tc :: after) available = scan_all (before ++ after) available
  /\ ~ In tc (scan_page (before ++ tc :: after) [])
  /\ ~ In tc (scan_all (before ++ tc :: after) [])
  /\ scan_page [tc] [] = []
  /\ evaluate cfg (merged_state [tc] responses) = (false, merged_state [tc] responses)
  /\ fst (evaluate cfg (merged_state (before ++ tc :: after) responses)) =
     fst (evaluate cfg (merged_state (before ++ after) responses)).
Proof.
  intros Hnone.
  assert (Hna : status_is_available tc = false).
  { unfold status_is_available. now rewrite Hnone. }
  assert (Hf : filter status_is_available (before ++ tc :: after) =
               filter status_is_available (before ++ after)).
  { rewrite !filter_app. simpl. now rewrite Hna. }
  assert (Hnotin : forall l, ~ In tc (filter status_is_available l)).
  { intros l Hin. apply filter_In in Hin. destruct Hin as [_ Hin]. congruence. }
  rewrite !scan_page_filter, !scan_all_filter, !evaluate_merged, Hf. simpl.
  rewrite Hna.
  repeat split; auto.
  unfold has_available. rewrite !existsb_app. simpl. now rewrite Hna.
Qed.

Lemma missing_status_not_available_witness :
  let tc := {| tc_id := "t3"; tc_name := "Balcony"; on_sale_status := None |} in
  let cfg := {| ENABLE_PARALLEL_FETCH := true; EARLY_EXIT := false; MAX_WORKERS := 10;
                SAVE_JSON_RESPONSE := true; DISCORD_WEBHOOK_URL := None |} in
  on_sale_status tc = None /\ scan_page [tc] [] = [] /\
  evaluate cfg (merged_state [tc] []) = (false, merged_state [tc] []).
Proof.
  cbv zeta. split; [reflexivity|].
  pose proof (missing_status_not_available
                {| ENABLE_PARALLEL_FETCH := true; EARLY_EXIT := false; MAX_WORKERS := 10;
                   SAVE_JSON_RESPONSE := true; DISCORD_WEBHOOK_URL := None |}
                {| tc_id := "t3"; tc_name := "Balcony"; on_sale_status := None |}
                [] [] [] [] eq_refl) as H.
  split; [apply H | apply H].
Defined.

(** ** The log *)

Lemma requests_app (l1 l2 : list event) :
  requests (l1 ++ l2) = requests l1 ++ requests l2.
Proof.
  induction l1 as [|e l1 IH]; simpl; [reflexivity|].
  destruct e; simpl; now rewrite ?IH.
Qed.

Lemma notifications_app (l1 l2 : list event) :
  notifications (l1 ++ l2) = notifications l1 ++ notifications l2.
Proof.
  induction l1 as [|e l1 IH]; simpl; [reflexivity|].
  destruct e; simpl; now rewrite ?IH.
Qed.

Lemma requests_map_Request (pages : list Z) : requests (map Request pages) = pages.
Proof. induction pages; simpl; congruence. Qed.

Lemma requests_rate_limit_events (cfg : config) : requests (rate_limit_events cfg) = [].
Proof. unfold rate_limit_events. now destruct (DISCORD_WEBHOOK_URL cfg). Qed.

Lemma notifications_rate_limit_events (cfg : config) :
  notifications (rate_limit_events cfg) = [RateLimitMessage].
Proof. unfold rate_limit_events. now destruct (DISCORD_WEBHOOK_URL cfg). Qed.

(** ** [fetch_page], case by case *)

Section FetchPage.

Variable cfg : config.

Lemma send_request_run (page : Z) (w : world) :
  send_request page w = (Ok tt, sent w page).
Proof. reflexivity. Qed.

Lemma handle_response_429 (body : payload) (w : world) :
  handle_response cfg (Response 429 body) w =
  (Raise (SystemExit 1), logged w (rate_limit_events cfg)).
Proof.
  unfold handle_response, send_discord_notification, rate_limit_events, logged,
    exit, raise, bind, emit, ret; simpl.
  destruct (DISCORD_WEBHOOK_URL cfg); simpl; rewrite <- ?app_assoc; reflexivity.
Qed.

Lemma handle_response_200 (body : payload) (w : world) :
  handle_response cfg (Response 200 body) w = (Ok (Some body), w).
Proof. reflexivity. Qed.

Lemma handle_response_other (status : Z) (body : payload) (w : world) :
  status <> 429%Z -> status <> 200%Z ->
  handle_response cfg (Response status body) w = (Ok None, w).
Proof.
  intros H1 H2. unfold handle_response.
  apply Z.eqb_neq in H1, H2. now rewrite H1, H2.
Qed.

Lemma handle_response_failed (w : world) :
  handle_response cfg ConnectionFailed w = (Raise RequestException, w).
Proof. reflexivity. Qed.

Lemma fetch_page_run (srv : server) (page : Z) (w : world) :
  fetch_page cfg srv page w = handle_response cfg (srv page) (sent w page).
Proof. reflexivity. Qed.

Lemma fetch_page_200 (srv : server) (page : Z) (body : payload) (w : world) :
  srv page = Response 200 body ->
  fetch_page cfg srv page w = (Ok (Some body), sent w page).
Proof. intros H. now rewrite fetch_page_run, H. Qed.

Lemma fetch_page_429 (srv : server) (page : Z) (body : payload) (w : world) :
  srv page = Response 429 body ->
  fetch_page cfg srv page w =
  (Raise (SystemExit 1), logged (sent w page) (rate_limit_events cfg)).
Proof. intros H. now rewrite fetch_page_run, H, handle_response_429. Qed.

Lemma fetch_page_other (srv : server) (page status : Z) (body : payload) (w : world) :
  srv page = Response status body -> status <> 429%Z -> status <> 200%Z ->
  fetch_page cfg srv page w = (Ok None, sent w page).
Proof. intros H H1 H2. now rewrite fetch_page_run, H, handle_response_other. Qed.


End FetchPage.

Lemma scan_page_fresh (tickets : list ticket_class) :
  scan_page tickets [] = filter status_is_available tickets.
Proof. now rewrite scan_page_filter. Qed.

Lemma nonempty_scan_page (tickets : list ticket_class) :
  nonempty (scan_page tickets []) = has_available tickets.
Proof. rewrite scan_page_fresh. apply nonempty_existsb. Qed.

Lemma scan_page_none (tickets : list ticket_class) :
  has_available tickets = false -> scan_page tickets [] = [].
Proof.
  intros H. rewrite <- nonempty_scan_page in H.
  now destruct (scan_page tickets []).
Qed.

Lemma with_available_nil (st : locals) :
  available_tickets st = [] -> with_available st [] = st.
Proof. destruct st; simpl; intros ->; reflexivity. Qed.

Lemma truthy_tickets (p : payload) :
  get_ticket_classes p <> [] -> truthy (Some p) = true.
Proof.
  unfold get_ticket_classes, truthy.
  destruct (ticket_classes p); [reflexivity | congruence].
Qed.

Lemma falsy_no_tickets (p : payload) :
  truthy (Some p) = false -> get_ticket_classes p = [].
Proof.
  unfold get_ticket_classes, truthy.
  destruct (ticket_classes p); [discriminate | reflexivity].
Qed.

(** C6.  Concurrent mode with early exit enabled: when page 1 answers with a
    ticket class whose status is AVAILABLE, the cycle returns the verdict
    "available" and the only request it ever sent is the one for page 1,
    whatever the other pages hold and however the pool would schedule. *)
Theorem parallel_early_exit_on_first_page
        (cfg : config) (srv : server) (fuel : nat) (choices : list nat)
        (w : world) (p : payload) :
  ENABLE_PARALLEL_FETCH cfg = true ->
  EARLY_EXIT cfg = true ->
  srv 1%Z = Response 200 p ->
  (exists tc, In tc (get_ticket_classes p) /\ on_sale_status tc = Some "AVAILABLE") ->
  exists w',
    check_ticket_availability cfg srv fuel choices w = (Ok true, w')
    /\ log w' = log w ++ [Request 1%Z]
    /\ requests (log w') = requests (log w) ++ [1%Z].
Proof.
  intros Hpar Hee Hsrv Hav.
  assert (Hha : has_available (get_ticket_classes p) = true)
    by now apply has_available_spec.
  assert (Hne : get_ticket_classes p <> []).
  { intros E. rewrite E in Hha. discriminate. }
  exists (sent w 1). split; [|split].
  - unfold check_ticket_availability, try_except, poll_cycle, parallel_fetch, bind.
    rewrite Hpar, (fetch_page_200 cfg srv 1 p w Hsrv), (truthy_tickets p Hne), Hee.
    cbn [negb available_tickets with_available merge fresh].
    now rewrite nonempty_scan_page, Hha.
  - reflexivity.
  - simpl. now rewrite requests_app.
Qed.

(** ** From the body of the [try] to the function *)

Lemma check_of_cycle (cfg : config) (srv : server) (fuel : nat) (choices : list nat)
      (w w' : world) (v : bool) (st : locals) :
  poll_cycle cfg srv fuel choices w = (Ok (v, st), w') ->
  check_ticket_availability cfg srv fuel choices w = (Ok v, w').
Proof.
  intros H. unfold check_ticket_availability, try_except, bind. now rewrite H.
Qed.

Lemma merge_fresh (p : payload) :
  merge fresh p = merged_state (get_ticket_classes p) [p].
Proof. reflexivity. Qed.

Lemma merged_state_available (merged : list ticket_class) (responses : list payload) :
  with_available (merged_state merged responses) [] = merged_state merged responses.
Proof. reflexivity. Qed.

Lemma finish_run (cfg : config) (st : locals) (w : world) :
  exists w', finish cfg st w = (Ok (evaluate cfg st), w')
             /\ requests (log w') = requests (log w)
             /\ notifications (log w') = notifications (log w).
Proof.
  unfold finish, bind, emit, ret. destruct (SAVE_JSON_RESPONSE cfg).
  - eexists; split; [reflexivity|]. simpl.
    rewrite requests_app, notifications_app. simpl. now rewrite !app_nil_r.
  - eexists; split; [reflexivity|]. split; reflexivity.
Qed.

Lemma poll_cycle_unfold (cfg : config) (srv : server) (fuel : nat) (choices : list nat) :
  poll_cycle cfg srv fuel choices =
  (r <- (if ENABLE_PARALLEL_FETCH cfg
         then parallel_fetch cfg srv choices
         else sequential_pages cfg srv fuel 1 fresh) ;;
   match r with
   | inl v => ret v
   | inr st => finish cfg st
   end).
Proof. reflexivity. Qed.

(** C9.  A page 1 whose payload lacks the pagination key the mode relies on
    ([page_count] in concurrent mode, [has_more_items] in sequential mode)
    ends the aggregation: page 1 is the only page requested, the merged set
    is the ticket list of page 1, and the verdict is "available" exactly
    when that list holds an AVAILABLE entry. *)
Theorem missing_pagination_stops_after_first_page
        (cfg : config) (srv : server) (fuel : nat) (choices : list nat)
        (w : world) (p : payload) :
  srv 1%Z = Response 200 p ->
  (if ENABLE_PARALLEL_FETCH cfg
   then page_count (get_pagination p) = None
   else has_more_items (get_pagination p) = None /\ fuel <> 0) ->
  exists (st : locals) (w' : world),
    poll_cycle cfg srv fuel choices w = (Ok (has_available (get_ticket_classes p), st), w')
    /\ check_ticket_availability cfg srv fuel choices w
       = (Ok (has_available (get_ticket_classes p)), w')
    /\ requests (log w') = requests (log w) ++ [1%Z]
    /\ all_ticket_classes st = get_ticket_classes p.
Proof.
  intros Hsrv Hmiss.
  assert (Hsent : requests (log (sent w 1)) = requests (log w) ++ [1%Z]).
  { simpl. now rewrite requests_app. }
  assert (Hcore : exists st w',
             poll_cycle cfg srv fuel choices w
             = (Ok (has_available (get_ticket_classes p), st), w')
             /\ requests (log w') = requests (log w) ++ [1%Z]
             /\ all_ticket_classes st = get_ticket_classes p).
  { rewrite poll_cycle_unfold. unfold bind.
    destruct (ENABLE_PARALLEL_FETCH cfg).
    - (* concurrent mode *)
      unfold parallel_fetch, bind.
      rewrite (fetch_page_200 cfg srv 1 p w Hsrv).
      destruct (truthy (Some p)) eqn:Ht; cbn [negb].
      + unfold get_page_count. rewrite Hmiss. cbn [Z.gtb Z.compare Pos.compare Pos.compare_cont].
        cbn [available_tickets with_available merge fresh].
        rewrite nonempty_scan_page.
        destruct (EARLY_EXIT cfg) eqn:Hee;
          [destruct (has_available (get_ticket_classes p)) eqn:Hha|].
        * exists (with_available (merge fresh p) (scan_page (get_ticket_classes p) [])),
            (sent w 1).
          unfold ret. repeat split; auto.
        * rewrite (scan_page_none _ Hha), merge_fresh, merged_state_available.
          unfold ret.
          destruct (finish_run cfg (merged_state (get_ticket_classes p) [p]) (sent w 1))
            as [w' [Hf [Hr _]]].
          rewrite Hf, evaluate_merged, Hha.
          eexists; exists w'. repeat split. congruence.
        * rewrite merge_fresh. unfold ret.
          destruct (finish_run cfg (merged_state (get_ticket_classes p) [p]) (sent w 1))
            as [w' [Hf [Hr _]]].
          rewrite Hf, evaluate_merged.
          eexists; exists w'. repeat split. congruence.
      + rewrite (falsy_no_tickets p Ht). unfold ret.
        exists fresh, (sent w 1). repeat split; auto.
    - (* sequential mode *)
      destruct Hmiss as [Hmiss Hfuel].
      destruct fuel as [|fuel']; [congruence|].
      cbn [sequential_pages]. unfold bind.
      rewrite (fetch_page_200 cfg srv 1 p w Hsrv).
      destruct (truthy (Some p)) eqn:Ht; cbn [negb].
      + unfold get_has_more_items. rewrite Hmiss. cbn [negb].
        cbn [available_tickets with_available merge fresh].
        rewrite nonempty_scan_page.
        destruct (EARLY_EXIT cfg) eqn:Hee;
          [destruct (has_available (get_ticket_classes p)) eqn:Hha|].
        * exists (with_available (merge fresh p) (scan_page (get_ticket_classes p) [])),
            (sent w 1).
          unfold ret. repeat split; auto.
        * rewrite (scan_page_none _ Hha), merge_fresh, merged_state_available.
          unfold ret.
          destruct (finish_run cfg (merged_state (get_ticket_classes p) [p]) (sent w 1))
            as [w' [Hf [Hr _]]].
          rewrite Hf, evaluate_merged, Hha.
          eexists; exists w'. repeat split. congruence.
        * rewrite merge_fresh. unfold ret.
          destruct (finish_run cfg (merged_state (get_ticket_classes p) [p]) (sent w 1))
            as [w' [Hf [Hr _]]].
          rewrite Hf, evaluate_merged.
          eexists; exists w'. repeat split. congruence.
      + rewrite (falsy_no_tickets p Ht). unfold ret.
        destruct (finish_run cfg fresh (sent w 1)) as [w' [Hf [Hr _]]].
        rewrite Hf. change fresh with (merged_state [] []).
        rewrite evaluate_merged.
        eexists; exists w'. repeat split. congruence. }
  destruct Hcore as [st [w' [Hc [Hr Hm]]]].
  exists st, w'. repeat split; auto.
  now apply check_of_cycle with (st := st).
Qed.

(** ** Sequential paging *)

Lemma pages_from_S (s : Z) (n : nat) :
  pages_from s (S n) = s :: pages_from (s + 1) n.
Proof.
  unfold pages_from. simpl. rewrite Z.add_0_r. f_equal.
  rewrite <- seq_shift, map_map. apply map_ext. intros k. lia.
Qed.

Lemma range_pages_from (s : Z) (n : nat) :
  range s (s + Z.of_nat n) = pages_from s n.
Proof.
  unfold range, pages_from. now replace (s + Z.of_nat n - s)%Z with (Z.of_nat n) by lia;
    rewrite Nat2Z.id.
Qed.

Lemma pages_from_app (s : Z) (n m : nat) :
  pages_from s (n + m) = pages_from s n ++ pages_from (s + Z.of_nat n) m.
Proof.
  revert s. induction n as [|n IH]; intros s.
  - simpl. now rewrite Z.add_0_r.
  - cbn [Nat.add]. rewrite !pages_from_S, IH. simpl. do 3 f_equal. lia.
Qed.

Lemma served_from_cons (srv : server) (s : Z) (p : payload) (pages : list payload) :
  served_from srv s (p :: pages) ->
  srv s = Response 200 p /\ served_from srv (s + 1) pages.
Proof.
  intros H. split.
  - specialize (H 0%nat p eq_refl). now rewrite Z.add_0_r in H.
  - intros k q Hk. specialize (H (S k) q Hk).
    now replace (s + 1 + Z.of_nat k)%Z with (s + Z.of_nat (S k))%Z by lia.
Qed.

Lemma merge_all_tickets (pages : list payload) (st : locals) :
  all_ticket_classes (fold_left merge pages st)
  = all_ticket_classes st ++ List.concat (map get_ticket_classes pages).
Proof.
  revert st. induction pages as [|p pages IH]; intros st; simpl.
  - now rewrite app_nil_r.
  - rewrite IH. simpl. now rewrite app_assoc.
Qed.

Lemma merge_all_available (pages : list payload) (st : locals) :
  available_tickets (fold_left merge pages st) = available_tickets st.
Proof.
  revert st. induction pages as [|p pages IH]; intros st; simpl; [reflexivity|].
  now rewrite IH.
Qed.

Section Sequential.

Variable cfg : config.
Variable srv : server.

(** The early-exit check of one page when nothing is available on it. *)
Lemma early_check_none (st : locals) (p : payload) :
  available_tickets st = [] -> none_available p ->
  with_available (merge st p)
    (scan_page (get_ticket_classes p) (available_tickets (merge st p))) = merge st p.
Proof.
  intros Hav Hnone. cbn [available_tickets merge]. rewrite Hav.
  rewrite (scan_page_none _ Hnone). now apply with_available_nil.
Qed.

(** Pages that go on are requested one after the other and merged. *)
Lemma sequential_pages_go_on (pages : list payload) :
  forall (s : Z) (st : locals) (w : world) (fuel : nat),
    served_from srv s pages ->
    Forall goes_on pages ->
    EARLY_EXIT cfg = false
    \/ (available_tickets st = [] /\ Forall none_available pages) ->
    exists w',
      sequential_pages cfg srv (List.length pages + fuel) s st w
      = sequential_pages cfg srv fuel (s + Z.of_nat (List.length pages))
          (fold_left merge pages st) w'
      /\ log w' = log w ++ map Request (pages_from s (List.length pages)).
Proof.
  induction pages as [|p pages IH]; intros s st w fuel Hsrv Hgo Hee.
  - exists w. simpl. rewrite Z.add_0_r, app_nil_r. auto.
  - apply served_from_cons in Hsrv. destruct Hsrv as [Hs Hsrv].
    inversion Hgo as [|? ? [Ht Hm] Hgo']; subst.
    cbn [List.length Nat.add sequential_pages]. unfold bind at 1.
    rewrite (fetch_page_200 cfg srv s p w Hs), Ht, Hm. cbn [negb].
    match goal with
    | |- exists w', ?lhs = _ /\ _ =>
        assert (Hstep : lhs = sequential_pages cfg srv (List.length pages + fuel) (s + 1)
                                (merge st p) (sent w s))
    end.
    { destruct Hee as [Hee|[Hav Hnone]].
      - now rewrite Hee.
      - inversion Hnone as [|? ? Hp Hnone']; subst.
        rewrite (early_check_none st p Hav Hp). cbn [available_tickets merge].
        rewrite Hav. now destruct (EARLY_EXIT cfg). }
    rewrite Hstep.
    destruct (IH (s + 1)%Z (merge st p) (sent w s) fuel Hsrv Hgo') as [w' [Hrun Hlog]].
    { destruct Hee as [Hee|[Hav Hnone]]; [now left|right].
      inversion Hnone; subst. split; [exact Hav | assumption]. }
    exists w'. split.
    + rewrite Hrun. cbn [fold_left].
      now replace (s + 1 + Z.of_nat (List.length pages))%Z
        with (s + Z.of_nat (S (List.length pages)))%Z by lia.
    + rewrite Hlog, pages_from_S. simpl. now rewrite <- app_assoc.
Qed.

(** A page with data that reports no more items ends the loop, or makes the
    function return when early exit finds an AVAILABLE entry on it. *)
Lemma sequential_pages_last (p : payload) (s : Z) (st : locals) (w : world) (fuel : nat) :
  srv s = Response 200 p ->
  truthy (Some p) = true ->
  get_has_more_items (get_pagination p) = false ->
  available_tickets st = [] ->
  exists r : flow,
    sequential_pages cfg srv (S fuel) s st w = (Ok r, sent w s)
    /\ match r with
       | inl (v, st') =>
           v = true /\ EARLY_EXIT cfg = true
           /\ has_available (get_ticket_classes p) = true
           /\ st' = with_available (merge st p) (filter status_is_available (get_ticket_classes p))
       | inr st' =>
           st' = merge st p
           /\ (EARLY_EXIT cfg = true -> has_available (get_ticket_classes p) = false)
       end.
Proof.
  intros Hs Ht Hm Hav.
  cbn [sequential_pages]. unfold bind.
  rewrite (fetch_page_200 cfg srv s p w Hs), Ht, Hm. cbn [negb].
  cbn [available_tickets merge with_available]. rewrite Hav, nonempty_scan_page.
  destruct (EARLY_EXIT cfg) eqn:Hee.
  - destruct (has_available (get_ticket_classes p)) eqn:Hha.
    + eexists (inl (true, _)). split; [reflexivity|].
      rewrite scan_page_fresh. repeat split.
    + exists (inr (merge st p)). split.
      * rewrite (scan_page_none _ Hha). unfold ret. do 3 f_equal.
        destruct st; simpl in *; now subst.
      * split; auto.
  - exists (inr (merge st p)). split; [reflexivity|]. split; [reflexivity|discriminate].
Qed.

(** A request without data ends the loop and merges nothing. *)
Lemma sequential_pages_no_data (s : Z) (st : locals) (w : world) (fuel : nat)
      (status : Z) (body : payload) :
  srv s = Response status body ->
  status <> 429%Z ->
  status <> 200%Z \/ truthy (Some body) = false ->
  sequential_pages cfg srv (S fuel) s st w = (Ok (inr st), sent w s).
Proof.
  intros Hs H429 Hno. cbn [sequential_pages]. unfold bind.
  destruct (Z.eq_dec status 200) as [->|Hne].
  - destruct Hno as [Hno|Hno]; [congruence|].
    now rewrite (fetch_page_200 cfg srv s body w Hs), Hno.
  - now rewrite (fetch_page_other cfg srv s status body w Hs H429 Hne).
Qed.


End Sequential.

Lemma length_concat_sum {A} (ls : list (list A)) :
  List.length (List.concat ls) = list_sum (map (@List.length A) ls).
Proof.
  induction ls as [|l ls IH]; simpl; [reflexivity|].
  now rewrite length_app, IH.
Qed.

Lemma page_tickets_200 (p : payload) : page_tickets (Response 200 p) = get_ticket_classes p.
Proof. reflexivity. Qed.

Lemma page_tickets_no_data (status : Z) (p : payload) :
  status <> 429%Z ->
  status <> 200%Z \/ truthy (Some p) = false ->
  page_tickets (Response status p) = [].
Proof.
  intros H429 Hno. unfold page_tickets, classify.
  apply Z.eqb_neq in H429. rewrite H429.
  destruct (status =? 200)%Z eqn:E; [|reflexivity].
  apply Z.eqb_eq in E. destruct Hno as [Hno|Hno]; [congruence|].
  now apply falsy_no_tickets.
Qed.

(** C4 (amended).  Sequential mode over pages that all answer with data
    and report more items, followed by the request that ends the paging (a
    page with data that reports no more items, or a request without data):
    provided early exit is disabled, or none of the pages before the last
    request holds an AVAILABLE entry, the cycle requests the pages in
    increasing order up to that last request and no further, merges the
    tickets page after page, and the merged list has as many entries as
    the pages have tickets in total. *)
Theorem sequential_cycle_merges_pages_in_order
        (cfg : config) (srv : server) (init : list payload) (last : http_result)
        (fuel : nat) (choices : list nat) (w : world) :
  ENABLE_PARALLEL_FETCH cfg = false ->
  served_from srv 1 init ->
  Forall goes_on init ->
  srv (1 + Z.of_nat (List.length init))%Z = last ->
  ends_paging last ->
  EARLY_EXIT cfg = false \/ Forall none_available init ->
  S (List.length init) <= fuel ->
  exists (v : bool) (st : locals) (w' : world),
    poll_cycle cfg srv fuel choices w = (Ok (v, st), w')
    /\ requests (log w')
       = requests (log w) ++ range 1 (Z.of_nat (S (List.length init)) + 1)
    /\ all_ticket_classes st
       = List.concat (map get_ticket_classes init) ++ page_tickets last
    /\ List.length (all_ticket_classes st)
       = list_sum (map (fun p => List.length (get_ticket_classes p)) init)
         + List.length (page_tickets last)
    /\ v = has_available (all_ticket_classes st).
Proof.
  intros Hseq Hinit Hgo Hlast Hends Hee Hfuel.
  replace fuel with (List.length init + S (fuel - List.length init - 1)) by lia.
  set (f := fuel - List.length init - 1).
  destruct (sequential_pages_go_on cfg srv init 1 fresh w (S f) Hinit Hgo) as [w1 [Hrun Hlog]].
  { destruct Hee; [now left | right; split; auto]. }
  set (k := (1 + Z.of_nat (List.length init))%Z) in *.
  assert (Hreq : requests (log (sent w1 k))
                 = requests (log w) ++ range 1 (Z.of_nat (S (List.length init)) + 1)).
  { unfold sent. cbn [log].
    rewrite requests_app, Hlog, requests_app, requests_map_Request.
    cbn [requests].
    replace (Z.of_nat (S (List.length init)) + 1)%Z
      with (1 + Z.of_nat (List.length init + 1))%Z by lia.
    rewrite range_pages_from, pages_from_app, pages_from_S, <- app_assoc. reflexivity. }
  assert (Hsum : forall l extra,
             l = List.concat (map get_ticket_classes init) ++ extra ->
             List.length l
             = list_sum (map (fun p => List.length (get_ticket_classes p)) init)
               + List.length extra).
  { intros l extra ->. now rewrite length_app, length_concat_sum, map_map. }
  assert (Hav : available_tickets (fold_left merge init fresh) = [])
    by now rewrite merge_all_available.
  assert (Hall : all_ticket_classes (fold_left merge init fresh)
                 = List.concat (map get_ticket_classes init))
    by now rewrite merge_all_tickets.
  rewrite poll_cycle_unfold. unfold bind at 1. rewrite Hseq, Hrun.
  destruct last as [|status p]; [destruct Hends|]. destruct Hends as [H429 Hmore].
  destruct (Z.eq_dec status 200) as [->|H200];
    [destruct (truthy (Some p)) eqn:Ht|].
  - (* a page with data that reports no more items *)
    destruct (sequential_pages_last cfg srv p k (fold_left merge init fresh) w1 f
                Hlast Ht (Hmore eq_refl eq_refl) Hav) as [r [Hrun2 Hr]].
    rewrite Hrun2. rewrite page_tickets_200.
    destruct r as [[v st]|st].
    + destruct Hr as [-> [E [Hha ->]]].
      exists true. eexists. eexists. split; [reflexivity|].
      cbn [all_ticket_classes with_available merge]. rewrite Hall.
      repeat split; auto.
      now rewrite has_available_app, Hha, orb_true_r.
    + destruct Hr as [-> Hr].
      destruct (finish_run cfg (merge (fold_left merge init fresh) p) (sent w1 k))
        as [w2 [Hf [Hrq _]]].
      rewrite Hf.
      exists (fst (evaluate cfg (merge (fold_left merge init fresh) p))),
        (snd (evaluate cfg (merge (fold_left merge init fresh) p))), w2.
      split; [now destruct (evaluate cfg _)|].
      assert (Hst : merge (fold_left merge init fresh) p
                    = merged_state (List.concat (map get_ticket_classes init)
                                    ++ get_ticket_classes p)
                        (all_responses (fold_left merge init fresh) ++ [p])).
      { rewrite <- Hall. clear -Hav.
        destruct (fold_left merge init fresh) as [a r v]. simpl in Hav. now subst v. }
      rewrite Hst, evaluate_merged. cbn [fst snd all_ticket_classes with_available merged_state].
      repeat split; auto. congruence.
  - (* an empty body *)
    rewrite (sequential_pages_no_data cfg srv k (fold_left merge init fresh) w1 f 200 p
               Hlast H429 (or_intror Ht)).
    rewrite (page_tickets_no_data 200 p H429 (or_intror Ht)), app_nil_r.
    destruct (finish_run cfg (fold_left merge init fresh) (sent w1 k)) as [w2 [Hf [Hrq _]]].
    rewrite Hf.
    exists (fst (evaluate cfg (fold_left merge init fresh))),
      (snd (evaluate cfg (fold_left merge init fresh))), w2.
    split; [now destruct (evaluate cfg _)|].
    assert (Hst : fold_left merge init fresh
                  = merged_state (List.concat (map get_ticket_classes init))
                      (all_responses (fold_left merge init fresh))).
    { rewrite <- Hall. clear -Hav.
      destruct (fold_left merge init fresh) as [a r v]. simpl in Hav. now subst v. }
    rewrite Hst, evaluate_merged. cbn [fst snd all_ticket_classes with_available merged_state].
    repeat split; try congruence.
    rewrite length_concat_sum, map_map. simpl. lia.
  - (* a status other than 200 *)
    rewrite (sequential_pages_no_data cfg srv k (fold_left merge init fresh) w1 f status p
               Hlast H429 (or_introl H200)).
    rewrite (page_tickets_no_data status p H429 (or_introl H200)), app_nil_r.
    destruct (finish_run cfg (fold_left merge init fresh) (sent w1 k)) as [w2 [Hf [Hrq _]]].
    rewrite Hf.
    exists (fst (evaluate cfg (fold_left merge init fresh))),
      (snd (evaluate cfg (fold_left merge init fresh))), w2.
    split; [now destruct (evaluate cfg _)|].
    assert (Hst : fold_left merge init fresh
                  = merged_state (List.concat (map get_ticket_classes init))
                      (all_responses (fold_left merge init fresh))).
    { rewrite <- Hall. clear -Hav.
      destruct (fold_left merge init fresh) as [a r v]. simpl in Hav. now subst v. }
    rewrite Hst, evaluate_merged. cbn [fst snd all_ticket_classes with_available merged_state].
    repeat split; try congruence.
    rewrite length_concat_sum, map_map. simpl. lia.
Qed.

(** ** The worker pool *)

Lemma started_app (l1 l2 : list pool_event) : started (l1 ++ l2) = started l1 ++ started l2.
Proof. induction l1 as [|[p|p] l1 IH]; simpl; congruence. Qed.

Lemma completed_app (l1 l2 : list pool_event) :
  completed (l1 ++ l2) = completed l1 ++ completed l2.
Proof. induction l1 as [|[p|p] l1 IH]; simpl; congruence. Qed.

Lemma started_map_Started (l : list Z) : started (map Started l) = l.
Proof. induction l; simpl; congruence. Qed.

Lemma completed_map_Started (l : list Z) : completed (map Started l) = [].
Proof. induction l; simpl; congruence. Qed.

Lemma pick_Some {A} (n : nat) (l : list A) :
  n < List.length l ->
  exists x rest, pick n l = Some (x, rest) /\ Permutation l (x :: rest).
Proof.
  revert n. induction l as [|a l IH]; intros n Hn; simpl in Hn; [lia|].
  destruct n as [|n]; simpl.
  - exists a, l. split; [reflexivity | apply Permutation_refl].
  - destruct (IH n ltac:(lia)) as [x [rest [Hp Hperm]]].
    rewrite Hp. exists x, (a :: rest). split; [reflexivity|].
    rewrite Hperm. apply perm_swap.
Qed.

Lemma pick_mod {A} (c : nat) (l : list A) :
  l <> [] ->
  exists x rest, pick (c mod List.length l) l = Some (x, rest) /\ Permutation l (x :: rest).
Proof.
  intros Hne. apply pick_Some. apply Nat.mod_upper_bound.
  destruct l; simpl; congruence.
Qed.

Section Pool.

Variable workers : nat.
Hypothesis workers_positive : 1 <= workers.

(** With at least one worker and enough rounds, the pool starts the queued
    calls in queue order and completes every call, queued or running. *)
Lemma pool_schedule_runs_all (fuel : nat) :
  forall (choices : list nat) (queue running : list Z),
    List.length queue + List.length running <= fuel ->
    started (pool_schedule fuel workers choices queue running) = queue
    /\ Permutation (completed (pool_schedule fuel workers choices queue running))
         (running ++ queue).
Proof.
  induction fuel as [|fuel IH]; intros choices queue running Hlen.
  - destruct queue, running; simpl in Hlen; try lia. split; [reflexivity | constructor].
  - cbn [pool_schedule].
    set (free := workers - List.length running).
    set (starting := firstn free queue).
    destruct (list_eq_dec Z.eq_dec (running ++ starting) []) as [Hemp|Hne].
    + apply app_eq_nil in Hemp. destruct Hemp as [-> Hst].
      assert (queue = []) as ->.
      { subst starting free. simpl in Hst. destruct queue as [|q queue]; [reflexivity|].
        destruct workers; [lia | discriminate]. }
      subst starting. rewrite firstn_nil. simpl. split; [reflexivity | constructor].
    + destruct (pick_mod (hd 0 choices) (running ++ starting) Hne)
        as [p [rest [Hp Hperm]]].
      rewrite Hp.
      assert (Hq : queue = starting ++ skipn free queue)
        by (subst starting; now rewrite firstn_skipn).
      assert (Hlen' : List.length (skipn free queue) + List.length rest <= fuel).
      { apply Permutation_length in Hperm. rewrite length_app in Hperm. simpl in Hperm.
        rewrite Hq, length_app in Hlen. lia. }
      destruct (IH (tl choices) (skipn free queue) rest Hlen') as [IHs IHc].
      rewrite started_app, completed_app, started_map_Started, completed_map_Started.
      cbn [started completed app]. rewrite IHs. split; [now rewrite <- Hq|].
      rewrite IHc. rewrite Hq at 2. rewrite app_assoc.
      change (p :: rest ++ skipn free queue) with ((p :: rest) ++ skipn free queue).
      apply Permutation_app_tail. now symmetry.
Qed.

End Pool.

Lemma pick_In {A} (x : A) (l : list A) :
  In x l ->
  exists n rest, n < List.length l /\ pick n l = Some (x, rest) /\ Permutation l (x :: rest).
Proof.
  induction l as [|a l IH]; intros Hin; [destruct Hin|].
  destruct Hin as [->|Hin].
  - exists 0, l. simpl. repeat split; [lia | apply Permutation_refl].
  - destruct (IH Hin) as [n [rest [Hn [Hp Hperm]]]].
    exists (S n), (a :: rest). simpl. rewrite Hp. repeat split; [lia|].
    rewrite Hperm. apply perm_swap.
Qed.

(** The scheduler's choices reach every completion order: with a worker
    for each call, any ordering of the calls is the completion order of
    some list of choices. *)
Lemma every_completion_order_is_scheduled (workers : nat) (order : list Z) :
  forall queue running : list Z,
    Permutation (running ++ queue) order ->
    List.length running + List.length queue <= workers ->
    exists choices,
      completed (pool_schedule (List.length order) workers choices queue running) = order.
Proof.
  induction order as [|x order IH]; intros queue running Hperm Hlen.
  - exists []. reflexivity.
  - assert (Hin : In x (running ++ queue)).
    { apply (Permutation_in _ (Permutation_sym Hperm)). now left. }
    destruct (pick_In x (running ++ queue) Hin) as [n [rest [Hn [Hp Hperm']]]].
    assert (Hrest : Permutation (rest ++ []) order).
    { rewrite app_nil_r. apply Permutation_cons_inv with (a := x).
      now rewrite <- Hperm'. }
    assert (Hlen' : List.length rest + List.length (@nil Z) <= workers).
    { apply Permutation_length in Hperm'. rewrite length_app in Hperm'.
      simpl in *. lia. }
    destruct (IH [] rest Hrest Hlen') as [choices Hc].
    exists (n :: choices). cbn [List.length pool_schedule hd tl].
    rewrite firstn_all2, skipn_all2 by lia.
    rewrite Nat.mod_small by exact Hn. rewrite Hp.
    rewrite completed_app, completed_map_Started. cbn [app completed].
    now rewrite Hc.
Qed.

Lemma handle_response_classify (cfg : config) (r : http_result) (w : world) :
  handle_response cfg r w
  = (classify r, if is_rate_limited r then logged w (rate_limit_events cfg) else w).
Proof.
  destruct r as [|status body]; [reflexivity|].
  unfold classify, is_rate_limited.
  destruct (status =? 429)%Z eqn:E.
  - apply Z.eqb_eq in E. subst. apply handle_response_429.
  - unfold handle_response. rewrite E. now destruct (status =? 200)%Z.
Qed.

Section RunPool.

Variable cfg : config.
Variable srv : server.

Lemma run_pool_futures (evs : list pool_event) (w : world) :
  fst (run_pool cfg srv evs w) = map (fun p => (p, classify (srv p))) (completed evs).
Proof.
  revert w. induction evs as [|[p|p] evs IH]; intros w; cbn [run_pool completed map].
  - reflexivity.
  - apply IH.
  - rewrite handle_response_classify.
    specialize (IH (if is_rate_limited (srv p) then logged w (rate_limit_events cfg) else w)).
    destruct (run_pool cfg srv evs _) as [futs w2]. simpl in *. now rewrite IH.
Qed.

Lemma run_pool_requests (evs : list pool_event) (w : world) :
  requests (log (snd (run_pool cfg srv evs w))) = requests (log w) ++ started evs.
Proof.
  revert w. induction evs as [|[p|p] evs IH]; intros w; cbn [run_pool started].
  - now rewrite app_nil_r.
  - rewrite IH, send_request_run. unfold sent. cbn [snd log].
    rewrite requests_app. simpl. now rewrite <- app_assoc.
  - rewrite handle_response_classify.
    specialize (IH (if is_rate_limited (srv p) then logged w (rate_limit_events cfg) else w)).
    destruct (run_pool cfg srv evs _) as [futs w2]. cbn [snd] in *. rewrite IH.
    destruct (is_rate_limited (srv p)); [|reflexivity].
    unfold logged. cbn [log].
    now rewrite requests_app, requests_rate_limit_events, app_nil_r.
Qed.

Lemma run_pool_notifications (evs : list pool_event) (w : world) :
  notifications (log (snd (run_pool cfg srv evs w)))
  = notifications (log w)
    ++ map (fun _ => RateLimitMessage)
         (filter (fun p => is_rate_limited (srv p)) (completed evs)).
Proof.
  revert w. induction evs as [|[p|p] evs IH]; intros w; cbn [run_pool completed].
  - simpl. now rewrite app_nil_r.
  - rewrite IH, send_request_run. unfold sent. cbn [snd log].
    rewrite notifications_app. simpl. now rewrite app_nil_r.
  - rewrite handle_response_classify.
    specialize (IH (if is_rate_limited (srv p) then logged w (rate_limit_events cfg) else w)).
    destruct (run_pool cfg srv evs _) as [futs w2]. cbn [snd] in *. rewrite IH.
    cbn [filter]. destruct (is_rate_limited (srv p)); [|reflexivity].
    unfold logged. cbn [log map].
    rewrite notifications_app, notifications_rate_limit_events, <- app_assoc. reflexivity.
Qed.

End RunPool.

(** ** Ranges *)

Lemma In_range (lo hi x : Z) : In x (range lo hi) <-> (lo <= x < hi)%Z.
Proof.
  unfold range. rewrite in_map_iff. split.
  - intros [k [<- Hk]]. apply in_seq in Hk. lia.
  - intros H. exists (Z.to_nat (x - lo)). split; [lia|]. apply in_seq. lia.
Qed.

Lemma NoDup_range (lo hi : Z) : NoDup (range lo hi).
Proof.
  unfold range. generalize (Z.to_nat (hi - lo)). intros n.
  assert (H : forall s, NoDup (map (fun k => (lo + Z.of_nat k)%Z) (seq s n))).
  { induction n as [|n IH]; intros s; simpl; constructor; [|apply IH].
    rewrite in_map_iff. intros [k [Hk Hin]]. apply in_seq in Hin. lia. }
  apply H.
Qed.

Lemma range_empty (lo hi : Z) : (hi <= lo)%Z -> range lo hi = [].
Proof.
  intros H. unfold range. now replace (Z.to_nat (hi - lo)) with 0%nat by lia.
Qed.

Lemma length_range (lo hi : Z) : List.length (range lo hi) = Z.to_nat (hi - lo).
Proof. unfold range. now rewrite length_map, length_seq. Qed.

(** ** Concurrent paging *)

Lemma after_loops_log (cfg : config) (m : M world flow) (w : world) :
  requests (log (snd (bind m (after_loops cfg) w))) = requests (log (snd (m w)))
  /\ notifications (log (snd (bind m (after_loops cfg) w))) = notifications (log (snd (m w))).
Proof.
  unfold bind. destruct (m w) as [[[v|st]|e|] w1]; cbn [snd after_loops]; auto.
  destruct (finish_run cfg st w1) as [w2 [Hf [Hr Hn]]]. now rewrite Hf.
Qed.

Lemma check_world (cfg : config) (srv : server) (fuel : nat) (choices : list nat) (w : world) :
  snd (check_ticket_availability cfg srv fuel choices w)
  = snd (poll_cycle cfg srv fuel choices w).
Proof.
  unfold check_ticket_availability, try_except, bind.
  destruct (poll_cycle cfg srv fuel choices w) as [[v|e|] w']; try reflexivity.
  now destruct e.
Qed.

Lemma parallel_pages_run (cfg : config) (srv : server) (choices : list nat)
      (n : Z) (st : locals) (w : world) :
  exists (order : list Z) (w' : world),
    Permutation order (range 2 (n + 1))
    /\ parallel_pages cfg srv choices n st w
       = (collect cfg (map (fun p => (p, classify (srv p))) order) st, w')
    /\ requests (log w') = requests (log w) ++ range 2 (n + 1)
    /\ notifications (log w')
       = notifications (log w)
         ++ map (fun _ => RateLimitMessage) (filter (fun p => is_rate_limited (srv p)) order).
Proof.
  unfold parallel_pages.
  set (pages := range 2 (n + 1)).
  set (evs := pool_schedule (List.length pages) (Pos.to_nat (MAX_WORKERS cfg)) choices pages []).
  destruct (pool_schedule_runs_all (Pos.to_nat (MAX_WORKERS cfg)) ltac:(lia)
              (List.length pages) choices pages [] ltac:(simpl; lia)) as [Hs Hc].
  fold evs in Hs, Hc.
  pose proof (run_pool_futures cfg srv evs w) as Hf.
  pose proof (run_pool_requests cfg srv evs w) as Hr.
  pose proof (run_pool_notifications cfg srv evs w) as Hn.
  destruct (run_pool cfg srv evs w) as [futs w']. cbn [fst snd] in *.
  exists (completed evs), w'. subst futs. rewrite Hs in Hr. auto.
Qed.

(** C5.  Concurrent mode with early exit disabled: once page 1 has reported
    [page_count], the requests of the cycle are one for page 1 followed by
    one for each page of [2..page_count]; every page of [1..page_count] is
    requested exactly once and no request is repeated, for every scheduling
    of the pool (the choices of which running call completes next). *)
Theorem parallel_fetches_every_page_once
        (cfg : config) (srv : server) (fuel : nat) (choices : list nat) (w : world)
        (p : payload) (pg : pagination_info) (n : Z) :
  ENABLE_PARALLEL_FETCH cfg = true ->
  EARLY_EXIT cfg = false ->
  srv 1%Z = Response 200 p ->
  pagination p = Some pg ->
  page_count pg = Some n ->
  exists new : list Z,
    requests (log (snd (check_ticket_availability cfg srv fuel choices w)))
    = requests (log w) ++ new
    /\ new = 1%Z :: range 2 (n + 1)
    /\ NoDup new
    /\ (forall page, (1 <= page <= n)%Z -> count_occ Z.eq_dec new page = 1)
    /\ (forall page, In page new -> page = 1%Z \/ (1 <= page <= n)%Z).
Proof.
  intros Hpar Hee Hsrv Hpg Hn.
  exists (1%Z :: range 2 (n + 1)).
  assert (Hnd : NoDup (1%Z :: range 2 (n + 1))).
  { constructor; [|apply NoDup_range]. rewrite In_range. lia. }
  split; [|repeat split; auto].
  - rewrite check_world, poll_cycle_unfold, Hpar.
    change (fun r : flow => match r with inl v => ret v | inr st => finish cfg st end)
      with (after_loops cfg).
    destruct (after_loops_log cfg (parallel_fetch cfg srv choices) w) as [-> _].
    unfold parallel_fetch, bind.
    rewrite (fetch_page_200 cfg srv 1 p w Hsrv), Hee.
    assert (Ht : truthy (Some p) = true).
    { unfold truthy. rewrite Hpg. now destruct (ticket_classes p). }
    rewrite Ht. cbn [negb].
    unfold get_page_count, get_pagination. rewrite Hpg, Hn.
    destruct (n >? 1)%Z eqn:Hgt.
    + destruct (parallel_pages_run cfg srv choices n (merge fresh p) (sent w 1))
        as [order [w' [_ [Hrun [Hr _]]]]].
      rewrite Hrun. cbn [snd]. rewrite Hr. unfold sent. cbn [log].
      rewrite requests_app. simpl. now rewrite <- app_assoc.
    + unfold ret. cbn [snd]. unfold sent. cbn [log].
      rewrite requests_app, range_empty by lia. reflexivity.
  - intros page Hpage. apply NoDup_count_occ'; [exact Hnd|].
    destruct (Z.eq_dec page 1) as [->|Hne]; [now left|right].
    apply In_range. lia.
  - intros page [<-|Hin]; [now left|right]. apply In_range in Hin. lia.
Qed.

(** ** The state in which the evaluation is reached *)

Section Unmatched.

Variable cfg : config.
Variable srv : server.

Lemma sequential_pages_unmatched (fuel : nat) :
  forall (page : Z) (st st' : locals) (w w' : world),
    available_tickets st = [] ->
    sequential_pages cfg srv fuel page st w = (Ok (inr st'), w') ->
    available_tickets st' = [].
Proof.
  induction fuel as [|fuel IH]; intros page st st' w w' Hav Hrun; [discriminate Hrun|].
  cbn [sequential_pages] in Hrun. unfold bind in Hrun.
  destruct (fetch_page cfg srv page w) as [[[p|]|e|] w1]; try discriminate Hrun.
  - destruct (truthy (Some p)); cbn [negb] in Hrun.
    + assert (Hpag : forall st1, available_tickets st1 = [] ->
                 (if negb (get_has_more_items (get_pagination p))
                  then ret (inr st1)
                  else sequential_pages cfg srv fuel (page + 1) st1) w1
                 = (Ok (inr st'), w') ->
                 available_tickets st' = []).
      { intros st1 Hav1 H. destruct (negb (get_has_more_items (get_pagination p))).
        - injection H as <- _. exact Hav1.
        - exact (IH _ _ _ _ _ Hav1 H). }
      destruct (EARLY_EXIT cfg).
      * cbn [available_tickets merge with_available] in Hrun.
        rewrite Hav, nonempty_scan_page in Hrun.
        destruct (has_available (get_ticket_classes p)) eqn:Hha; [discriminate Hrun|].
        rewrite (scan_page_none _ Hha) in Hrun.
        exact (Hpag (with_available (merge st p) []) eq_refl Hrun).
      * exact (Hpag (merge st p) Hav Hrun).
    + injection Hrun as <- _. exact Hav.
  - injection Hrun as <- _. exact Hav.
Qed.

Lemma collect_unmatched (futs : list future) :
  forall st st' : locals,
    available_tickets st = [] ->
    collect cfg futs st = Ok (inr st') ->
    available_tickets st' = [].
Proof.
  induction futs as [|[k r] futs IH]; intros st st' Hav Hrun; cbn [collect] in Hrun.
  - injection Hrun as <-. exact Hav.
  - destruct r as [[p|]|e|]; try discriminate Hrun.
    + destruct (truthy (Some p)); [destruct (EARLY_EXIT cfg)|].
      * cbn [available_tickets merge with_available] in Hrun.
        rewrite Hav, nonempty_scan_page in Hrun.
        destruct (has_available (get_ticket_classes p)) eqn:Hha; [discriminate Hrun|].
        rewrite (scan_page_none _ Hha) in Hrun.
        exact (IH (with_available (merge st p) []) st' eq_refl Hrun).
      * exact (IH (merge st p) st' Hav Hrun).
      * exact (IH st st' Hav Hrun).
    + exact (IH st st' Hav Hrun).
Qed.

(** Whenever a cycle gets to the evaluation of lines 311-329, nothing has
    been matched yet: the early-exit scans either returned or found
    nothing. *)
Lemma evaluation_starts_unmatched (fuel : nat) (choices : list nat)
      (w w' : world) (st : locals) :
  (if ENABLE_PARALLEL_FETCH cfg
   then parallel_fetch cfg srv choices
   else sequential_pages cfg srv fuel 1 fresh) w = (Ok (inr st), w') ->
  st = merged_state (all_ticket_classes st) (all_responses st).
Proof.
  intros Hrun.
  assert (Hav : available_tickets st = []).
  { destruct (ENABLE_PARALLEL_FETCH cfg).
    - unfold parallel_fetch, bind in Hrun.
      destruct (fetch_page cfg srv 1 w) as [[[p|]|e|] w1]; try discriminate Hrun.
      destruct (truthy (Some p)); cbn [negb] in Hrun; [|discriminate Hrun].
      assert (Hrest : forall st1, available_tickets st1 = [] ->
                 (if (get_page_count (get_pagination p) >? 1)%Z
                  then parallel_pages cfg srv choices (get_page_count (get_pagination p)) st1
                  else ret (inr st1)) w1 = (Ok (inr st), w') ->
                 available_tickets st = []).
      { intros st1 Hav1 H. destruct (get_page_count (get_pagination p) >? 1)%Z.
        - unfold parallel_pages in H. destruct (run_pool cfg srv _ w1) as [futs w2].
          injection H as H _. exact (collect_unmatched futs st1 st Hav1 H).
        - injection H as <- _. exact Hav1. }
      destruct (EARLY_EXIT cfg).
      + cbn [available_tickets merge with_available fresh] in Hrun.
        rewrite nonempty_scan_page in Hrun.
        destruct (has_available (get_ticket_classes p)) eqn:Hha; [discriminate Hrun|].
        rewrite (scan_page_none _ Hha) in Hrun.
        exact (Hrest (with_available (merge fresh p) []) eq_refl Hrun).
      + exact (Hrest (merge fresh p) eq_refl Hrun).
    - exact (sequential_pages_unmatched fuel 1 fresh st w w' eq_refl Hrun). }
  destruct st as [a r v]. simpl in Hav. now subst v.
Qed.

End Unmatched.

(** ** Verdict of a cycle with a failing page *)

Lemma evaluate_verdict (cfg : config) (st : locals) :
  available_tickets st = [] ->
  fst (evaluate cfg st) = has_available (all_ticket_classes st).
Proof.
  intros H. destruct st as [all resp av]. simpl in H. subst av.
  change {| all_ticket_classes := all; all_responses := resp; available_tickets := [] |}
    with (merged_state all resp).
  now rewrite evaluate_merged.
Qed.

Lemma existsb_Permutation {A} (f : A -> bool) (l l' : list A) :
  Permutation l l' -> existsb f l = existsb f l'.
Proof.
  induction 1; simpl; try congruence.
  - now rewrite !orb_assoc, (orb_comm (f y)).
Qed.

Section FailingPage.

Variable cfg : config.
Variable srv : server.


(** The main thread's loop over futures none of which raises. *)
Lemma collect_no_raise (futs : list future) :
  forall st : locals,
    Forall (fun f => exists d, snd f = Ok d) futs ->
    available_tickets st = [] ->
    exists r : flow,
      collect cfg futs st = Ok r
      /\ match r with
         | inl (v, _) =>
             v = true /\ existsb (fun f => has_available (future_tickets f)) futs = true
         | inr st' =>
             available_tickets st' = []
             /\ has_available (all_ticket_classes st')
                = has_available (all_ticket_classes st)
                  || existsb (fun f => has_available (future_tickets f)) futs
         end.
Proof.
  induction futs as [|[k r] futs IH]; intros st Hok Hav.
  - exists (inr st). simpl. rewrite orb_false_r. auto.
  - inversion Hok as [|? ? [d Hd] Hok']; subst. simpl in Hd. subst r.
    cbn [collect existsb]. unfold future_tickets at 1 3. cbn [snd].
    destruct d as [p|].
    + assert (Hcont : forall st1, available_tickets st1 = [] ->
                 all_ticket_classes st1 = all_ticket_classes st ++ get_ticket_classes p ->
                 exists r : flow,
                   collect cfg futs st1 = Ok r
                   /\ match r with
                      | inl (v, _) =>
                          v = true
                          /\ has_available (get_ticket_classes p)
                             || existsb (fun f => has_available (future_tickets f)) futs = true
                      | inr st' =>
                          available_tickets st' = []
                          /\ has_available (all_ticket_classes st')
                             = has_available (all_ticket_classes st)
                               || (has_available (get_ticket_classes p)
                                   || existsb (fun f => has_available (future_tickets f)) futs)
                      end).
      { intros st1 Hav1 Hall. destruct (IH st1 Hok' Hav1) as [r [Hr Hspec]].
        exists r. split; [exact Hr|]. destruct r as [[v st']|st'].
        - destruct Hspec as [-> Hsome]. now rewrite Hsome, orb_true_r.
        - destruct Hspec as [Hav' Hhas]. split; [exact Hav'|].
          now rewrite Hhas, Hall, has_available_app, orb_assoc. }
      destruct (truthy (Some p)) eqn:Ht.
      * destruct (EARLY_EXIT cfg) eqn:Hee.
        -- cbn [available_tickets merge with_available]. rewrite Hav, nonempty_scan_page.
           destruct (has_available (get_ticket_classes p)) eqn:Hha.
           ++ eexists (inl (true, _)). split; [reflexivity|]. auto.
           ++ rewrite (scan_page_none _ Hha).
              rewrite (with_available_nil (merge st p)) by exact Hav.
              apply Hcont; [exact Hav | reflexivity].
        -- apply Hcont; [exact Hav | reflexivity].
      * apply Hcont; [exact Hav|]. now rewrite (falsy_no_tickets p Ht), app_nil_r.
    + destruct (IH st Hok' Hav) as [r [Hr Hspec]]. exists r. split; [exact Hr|].
      exact Hspec.
Qed.

(** With early exit disabled, a future holding a transport failure among
    futures that otherwise returned makes the loop raise it. *)
Lemma collect_failed (futs : list future) :
  forall st : locals,
    EARLY_EXIT cfg = false ->
    Forall (fun f => (exists d, snd f = Ok d) \/ snd f = Raise RequestException) futs ->
    Exists (fun f => snd f = Raise RequestException) futs ->
    collect cfg futs st = Raise RequestException.
Proof.
  induction futs as [|[k r] futs IH]; intros st Hee Hall Hex.
  - inversion Hex.
  - inversion Hall as [|? ? Hr Hall']; subst. cbn [collect].
    destruct Hr as [[d Hd]|Hd]; simpl in Hd; subst r; [|reflexivity].
    assert (Hex' : Exists (fun f => snd f = Raise RequestException) futs).
    { inversion Hex as [? ? H|]; subst; [discriminate H | assumption]. }
    destruct d as [p|]; [|now apply IH].
    rewrite Hee. destruct (truthy (Some p)); now apply IH.
Qed.

End FailingPage.

Lemma check_of_flow (cfg : config) (srv : server) (fuel : nat) (choices : list nat)
      (w w1 : world) (r : flow) :
  (if ENABLE_PARALLEL_FETCH cfg
   then parallel_fetch cfg srv choices
   else sequential_pages cfg srv fuel 1 fresh) w = (Ok r, w1) ->
  exists w',
    check_ticket_availability cfg srv fuel choices w
    = (Ok match r with inl (v, _) => v | inr st => fst (evaluate cfg st) end, w').
Proof.
  intros H. unfold check_ticket_availability, try_except. rewrite poll_cycle_unfold.
  unfold bind. rewrite H. destruct r as [[v st]|st].
  - exists w1. reflexivity.
  - destruct (finish_run cfg st w1) as [w2 [Hf _]]. rewrite Hf. exists w2. reflexivity.
Qed.

Lemma check_of_flow_failed (cfg : config) (srv : server) (fuel : nat) (choices : list nat)
      (w w1 : world) :
  (if ENABLE_PARALLEL_FETCH cfg
   then parallel_fetch cfg srv choices
   else sequential_pages cfg srv fuel 1 fresh) w = (Raise RequestException, w1) ->
  check_ticket_availability cfg srv fuel choices w = (Ok false, w1).
Proof.
  intros H. unfold check_ticket_availability, try_except. rewrite poll_cycle_unfold.
  unfold bind. now rewrite H.
Qed.

Lemma check_of_flow_exit (cfg : config) (srv : server) (fuel : nat) (choices : list nat)
      (w w1 : world) (code : Z) :
  (if ENABLE_PARALLEL_FETCH cfg
   then parallel_fetch cfg srv choices
   else sequential_pages cfg srv fuel 1 fresh) w = (Raise (SystemExit code), w1) ->
  check_ticket_availability cfg srv fuel choices w = (Raise (SystemExit code), w1).
Proof.
  intros H. unfold check_ticket_availability, try_except. rewrite poll_cycle_unfold.
  unfold bind. now rewrite H.
Qed.




Lemma range_cons (lo hi : Z) : (lo < hi)%Z -> range lo hi = lo :: range (lo + 1) hi.
Proof.
  intros H. unfold range.
  replace (Z.to_nat (hi - lo)) with (S (Z.to_nat (hi - (lo + 1)))) by lia.
  simpl. rewrite Z.add_0_r. f_equal.
  rewrite <- seq_shift, map_map. apply map_ext. intros k. lia.
Qed.

Lemma parallel_fetch_first_page (cfg : config) (srv : server) (choices : list nat)
      (w : world) (p : payload) :
  srv 1%Z = Response 200 p ->
  truthy (Some p) = true ->
  parallel_fetch cfg srv choices w
  = if EARLY_EXIT cfg && has_available (get_ticket_classes p)
    then (Ok (inl (true, with_available (merge fresh p)
                           (filter status_is_available (get_ticket_classes p)))),
          sent w 1)
    else if (get_page_count (get_pagination p) >? 1)%Z
         then parallel_pages cfg srv choices (get_page_count (get_pagination p))
                (merge fresh p) (sent w 1)
         else (Ok (inr (merge fresh p)), sent w 1).
Proof.
  intros Hs Ht. unfold parallel_fetch, bind.
  rewrite (fetch_page_200 cfg srv 1 p w Hs), Ht. cbn [negb].
  destruct (EARLY_EXIT cfg); cbn [andb];
    [|now destruct (get_page_count (get_pagination p) >? 1)%Z].
  cbn [available_tickets merge with_available fresh]. rewrite nonempty_scan_page.
  destruct (has_available (get_ticket_classes p)) eqn:Hha.
  - now rewrite scan_page_fresh.
  - rewrite (scan_page_none _ Hha).
    now destruct (get_page_count (get_pagination p) >? 1)%Z.
Qed.


Lemma existsb_future_tickets (srv : server) (order : list Z) :
  existsb (fun f => has_available (future_tickets f))
    (map (fun k => (k, classify (srv k))) order)
  = some_page_available srv order.
Proof.
  unfold some_page_available. induction order as [|k order IH]; simpl; [reflexivity|].
  now rewrite IH.
Qed.


(** * Properties of the checkout automation *)

Import Automation.

Lemma screenshots_app (l1 l2 : list event) :
  screenshots (l1 ++ l2) = screenshots l1 ++ screenshots l2.
Proof.
  induction l1 as [|e l1 IH]; simpl; [reflexivity|].
  destruct e as [A c| | |]; try exact IH.
  destruct c; simpl; now rewrite ?IH.
Qed.

Lemma attempts_app (l1 l2 : list event) :
  attempts (l1 ++ l2) = attempts l1 ++ attempts l2.
Proof.
  induction l1 as [|e l1 IH]; simpl; [reflexivity|].
  destruct e as [A c| | |]; try exact IH.
  destruct c; simpl; rewrite ?IH; try reflexivity.
  destruct c; simpl; now rewrite ?IH.
Qed.

Section Resolver.

Variable browser : Type.
Variable driver : forall A : Type, call A -> browser -> (A + webdriver_error) * browser.

Lemma perform_trace {A} (c : call A) (s s' : session browser) (r : result A) :
  perform driver c s = (r, s') ->
  trace s' = trace s ++ [Called c] /\ available_date s' = available_date s.
Proof.
  unfold perform. destruct (driver A c (page s)) as [x b].
  intros H. injection H as _ <-. split; reflexivity.
Qed.

Lemma say_run (line : string) (s : session browser) :
  say line s = (Ok tt, {| page := page s; trace := trace s ++ [Printed line];
                          available_date := available_date s |}).
Proof. reflexivity. Qed.

(** C7.  Selector resolution over an ordered candidate list: when the
    candidates before [winner] all time out and [winner] resolves to [e],
    the resolver returns [e], and the waits it performed are those for the
    earlier candidates and for [winner], in list order: none of the
    candidates after [winner] is attempted. *)
Theorem first_clickable_first_success
        (found : string) (earlier : list string) (winner : string) (later : list string)
        (s s1 s2 : session browser) (e : element) :
  all_time_out browser driver earlier s s1 ->
  wait_clickable driver CSS_SELECTOR winner s1 = (Ok e, s2) ->
  exists s3 : session browser,
    first_clickable driver found (earlier ++ winner :: later) s = (Ok (Some e), s3)
    /\ page s3 = page s2
    /\ attempts (trace s3)
       = attempts (trace s) ++ map (pair CSS_SELECTOR) (earlier ++ [winner]).
Proof.
  intros Hto Hwin. induction Hto as [s|selector rest s sa sb Hwait Hrest IH].
  - cbn [app first_clickable]. unfold try_except, bind. rewrite Hwin, say_run.
    eexists. split; [reflexivity|]. split; [reflexivity|].
    apply perform_trace in Hwin. destruct Hwin as [Ht _].
    cbn [trace map]. rewrite Ht, !attempts_app. simpl. now rewrite app_nil_r.
  - destruct (IH Hwin) as [s3 [Hrun [Hpage Hatt]]].
    exists s3. cbn [app first_clickable]. unfold try_except at 1. unfold bind at 1.
    rewrite Hwait. cbn [is_TimeoutException]. split; [exact Hrun|]. split; [exact Hpage|].
    apply perform_trace in Hwait. destruct Hwait as [Ht _].
    rewrite Hatt, Ht, attempts_app. simpl. now rewrite <- app_assoc.
Qed.

End Resolver.

(** ** Which computations take screenshots *)

Section Screenshots.

Variable browser : Type.
Variable driver : forall A : Type, call A -> browser -> (A + webdriver_error) * browser.

Lemma quiet_ret {A} (a : A) : quiet (browser := browser) (ret a).
Proof. intros s r s' H. now injection H as _ <-. Qed.

Lemma quiet_raise {A} (e : exn) : quiet (@raise (session browser) A e).
Proof. intros s r s' H. now injection H as _ <-. Qed.

Lemma quiet_record (e : event) :
  (forall f, e <> Called (SaveScreenshot f)) -> quiet (record (browser := browser) e).
Proof.
  intros Hne s r s' H. injection H as _ <-. cbn [trace].
  rewrite screenshots_app. destruct e as [A c| | |]; simpl; try now rewrite app_nil_r.
  destruct c; simpl; try now rewrite app_nil_r. now destruct (Hne file).
Qed.

Lemma quiet_say (line : string) : quiet (say (browser := browser) line).
Proof. apply quiet_record. intros f H. discriminate H. Qed.

Lemma quiet_assign (d : option element) : quiet (assign_available_date (browser := browser) d).
Proof. intros s r s' H. now injection H as _ <-. Qed.

Lemma quiet_read : quiet (read_available_date (browser := browser)).
Proof. intros s r s' H. now injection H as _ <-. Qed.

Lemma quiet_perform {A} (c : call A) : is_screenshot c = false -> quiet (perform driver c).
Proof.
  intros Hc s r s' H. apply perform_trace in H. destruct H as [-> _].
  rewrite screenshots_app. destruct c; simpl; try now rewrite app_nil_r. discriminate.
Qed.

Lemma quiet_bind {A B} (m : M (session browser) A) (k : A -> M (session browser) B) :
  quiet m -> (forall a, quiet (k a)) -> quiet (bind m k).
Proof.
  intros Hm Hk s r s' H. unfold bind in H.
  destruct (m s) as [[a|e|] s1] eqn:E.
  - apply Hk in H. apply Hm in E. congruence.
  - injection H as _ <-. now apply Hm in E.
  - injection H as _ <-. now apply Hm in E.
Qed.

Lemma quiet_try_except {A} (m : M (session browser) A) (handles : exn -> bool)
      (h : exn -> M (session browser) A) :
  quiet m -> (forall e, quiet (h e)) -> quiet (try_except m handles h).
Proof.
  intros Hm Hh s r s' H. unfold try_except in H.
  destruct (m s) as [[a|e|] s1] eqn:E.
  - injection H as _ <-. now apply Hm in E.
  - destruct (handles e).
    + apply Hh in H. apply Hm in E. congruence.
    + injection H as _ <-. now apply Hm in E.
  - injection H as _ <-. now apply Hm in E.
Qed.

Lemma quiet_for_each {A} (body : A -> M (session browser) bool) (l : list A) :
  (forall x, quiet (body x)) -> quiet (for_each body l).
Proof.
  intros Hb. induction l as [|x l IH]; cbn [for_each].
  - apply quiet_ret.
  - apply quiet_bind; [apply Hb|]. intros [|]; [apply quiet_ret | exact IH].
Qed.

(** Break a computation down to its calls; what is left are the side
    conditions on the calls. *)
Ltac quiet_step :=
  lazymatch goal with
  | |- quiet (bind _ _) => apply quiet_bind; [|intros ?]
  | |- quiet (try_except _ _ _) => apply quiet_try_except; [|intros ?]
  | |- quiet (or_continue _) => apply quiet_try_except; [|intros ?]
  | |- quiet (ret _) => apply quiet_ret
  | |- quiet (raise _) => apply quiet_raise
  | |- quiet (say _) => apply quiet_say
  | |- quiet (assign_available_date _) => apply quiet_assign
  | |- quiet (@read_available_date _) => apply quiet_read
  | |- quiet (perform _ _) => apply quiet_perform; reflexivity
  | |- quiet (wait_clickable _ _ _) => apply quiet_perform; reflexivity
  | |- quiet (for_each _ _) => apply quiet_for_each; intros ?
  | |- quiet (if ?b then _ else _) => destruct b
  | |- quiet (match ?x with _ => _ end) => destruct x
  end.

Ltac quiet_all := repeat quiet_step.

Lemma quiet_first_clickable (found : string) (selectors : list string) :
  quiet (first_clickable driver found selectors).
Proof.
  induction selectors as [|selector rest IH]; cbn [first_clickable].
  - apply quiet_ret.
  - apply quiet_try_except; [quiet_all | intros _; exact IH].
Qed.

Lemma quiet_click_check_availability : quiet (click_check_availability driver).
Proof.
  unfold click_check_availability.
  apply quiet_bind; [apply quiet_say | intros _].
  apply quiet_bind; [apply quiet_first_clickable | intros found].
  quiet_all.
Qed.

Lemma quiet_enter_iframe : quiet (enter_iframe driver).
Proof. unfold enter_iframe. quiet_all. Qed.


Lemma quiet_search_calendar : quiet (search_calendar driver).
Proof. unfold search_calendar, try_calendar_button. quiet_all. Qed.

Lemma shoots_search_widget : shoots iframe_screenshot (search_widget driver).
Proof.
  intros s r s' H. unfold search_widget in H.
  set (rest := fun _ : unit => _) in H.
  assert (Hrest : quiet (rest tt)).
  { unfold rest, show_button, try_date_element, try_list_item. quiet_all. }
  unfold try_except, bind in H.
  destruct (perform driver (SaveScreenshot iframe_screenshot) s) as [[[]|e|] s1] eqn:E;
    apply perform_trace in E; destruct E as [Et _].
  - assert (Hs1 : screenshots (trace s1) = screenshots (trace s) ++ [iframe_screenshot])
      by (rewrite Et, screenshots_app; reflexivity).
    destruct (rest tt s1) as [[[]|e|] s2] eqn:E2; apply Hrest in E2.
    + injection H as _ <-. congruence.
    + destruct (is_Exception e).
      * apply quiet_say in H. congruence.
      * injection H as _ <-. congruence.
    + injection H as _ <-. congruence.
  - destruct (is_Exception e).
    + apply quiet_say in H. rewrite H, Et, screenshots_app. reflexivity.
    + injection H as _ <-. rewrite Et, screenshots_app. reflexivity.
  - injection H as _ <-. rewrite Et, screenshots_app. reflexivity.
Qed.

Lemma shoots_search_date : shoots iframe_screenshot (search_date driver).
Proof.
  intros s r s' H. unfold search_date in H.
  unfold bind at 1 2 in H. rewrite say_run in H.
  unfold assign_available_date at 1 in H. cbv beta iota in H.
  unfold bind at 1 in H.
  match type of H with
  | context [search_widget driver ?s0] =>
      destruct (search_widget driver s0) as [[[]|e|] s1] eqn:E;
      apply shoots_search_widget in E; cbn [trace] in E;
      rewrite screenshots_app in E; simpl in E; rewrite app_nil_r in E
  end.
  - assert (Hq : quiet (date <- read_available_date (browser := browser) ;;
                        match date with
                        | None => search_calendar driver
                        | Some _ => ret tt
                        end)).
    { apply quiet_bind; [apply quiet_read|]. intros [d|];
        [apply quiet_ret | apply quiet_search_calendar]. }
    apply Hq in H. congruence.
  - injection H as _ <-. exact E.
  - injection H as _ <-. exact E.
Qed.

End Screenshots.

(** ** No exception escapes an attempt *)

Section Boundary.

Variable browser : Type.
Variable driver : forall A : Type, call A -> browser -> (A + webdriver_error) * browser.

Lemma tame_ret {A} (a : A) : tame (browser := browser) (ret a).
Proof. intros s r s' H. now injection H as <- _. Qed.

Lemma tame_raise {A} (e : exn) :
  is_Exception e = true -> tame (@raise (session browser) A e).
Proof. intros He s r s' H. now injection H as <- _. Qed.

Lemma tame_record (e : event) : tame (record (browser := browser) e).
Proof. intros s r s' H. now injection H as <- _. Qed.

Lemma tame_assign (d : option element) : tame (assign_available_date (browser := browser) d).
Proof. intros s r s' H. now injection H as <- _. Qed.

Lemma tame_read : tame (read_available_date (browser := browser)).
Proof. intros s r s' H. now injection H as <- _. Qed.

Lemma tame_perform {A} (c : call A) : tame (perform driver c).
Proof.
  intros s r s' H. unfold perform in H.
  destruct (driver A c (page s)) as [[a|e] b]; injection H as <- _;
    [exact I | now destruct e].
Qed.

Lemma tame_bind {A B} (m : M (session browser) A) (k : A -> M (session browser) B) :
  tame m -> (forall a, tame (k a)) -> tame (bind m k).
Proof.
  intros Hm Hk s r s' H. unfold bind in H.
  destruct (m s) as [[a|e|] s1] eqn:E.
  - exact (Hk a _ _ _ H).
  - injection H as <- _. exact (Hm _ _ _ E).
  - injection H as <- _. exact (Hm _ _ _ E).
Qed.

Lemma tame_try_except {A} (m : M (session browser) A) (handles : exn -> bool)
      (h : exn -> M (session browser) A) :
  tame m -> (forall e, tame (h e)) -> tame (try_except m handles h).
Proof.
  intros Hm Hh s r s' H. unfold try_except in H.
  destruct (m s) as [[a|e|] s1] eqn:E.
  - now injection H as <- _.
  - destruct (handles e).
    + exact (Hh e _ _ _ H).
    + injection H as <- _. exact (Hm _ _ _ E).
  - injection H as <- _. exact (Hm _ _ _ E).
Qed.

Lemma tame_for_each {A} (body : A -> M (session browser) bool) (l : list A) :
  (forall x, tame (body x)) -> tame (for_each body l).
Proof.
  intros Hb. induction l as [|x l IH]; cbn [for_each].
  - apply tame_ret.
  - apply tame_bind; [apply Hb|]. intros [|]; [apply tame_ret | exact IH].
Qed.

Ltac tame_step :=
  lazymatch goal with
  | |- tame (bind _ _) => apply tame_bind; [|intros ?]
  | |- tame (try_except _ _ _) => apply tame_try_except; [|intros ?]
  | |- tame (or_continue _) => apply tame_try_except; [|intros ?]
  | |- tame (ret _) => apply tame_ret
  | |- tame (raise _) => apply tame_raise; reflexivity
  | |- tame (say _) => apply tame_record
  | |- tame (record _) => apply tame_record
  | |- tame (assign_available_date _) => apply tame_assign
  | |- tame (@read_available_date _) => apply tame_read
  | |- tame (perform _ _) => apply tame_perform
  | |- tame (wait_clickable _ _ _) => apply tame_perform
  | |- tame (for_each _ _) => apply tame_for_each; intros ?
  | |- tame (if ?b then _ else _) => destruct b
  | |- tame (match ?x with _ => _ end) => destruct x
  end.

Ltac tame_all := repeat tame_step.

Lemma tame_first_clickable (found : string) (selectors : list string) :
  tame (first_clickable driver found selectors).
Proof.
  induction selectors as [|selector rest IH]; cbn [first_clickable].
  - apply tame_ret.
  - apply tame_try_except; [tame_all | intros _; exact IH].
Qed.



End Boundary.

(** ** The attempt whose date search fails *)

Lemma bind_Ok {W A B} (m : M W A) (k : A -> M W B) (s s' : W) (b : B) :
  bind m k s = (Ok b, s') -> exists a s1, m s = (Ok a, s1) /\ k a s1 = (Ok b, s').
Proof.
  unfold bind. destruct (m s) as [[a|e|] s1]; try discriminate.
  intros H. now exists a, s1.
Qed.

Section Attempt.

Variable browser : Type.
Variable driver : forall A : Type, call A -> browser -> (A + webdriver_error) * browser.

Lemma is_Exception_to_exn (e : webdriver_error) : is_Exception (to_exn e) = true.
Proof. now destruct e. Qed.

Lemma on_timeout_run (s : session browser) :
  if can_report browser driver (page s)
  then exists s', on_timeout driver s = (Ok false, s')
                  /\ screenshots (trace s') = screenshots (trace s) ++ [error_screenshot]
  else exists e s', on_timeout driver s = (Raise e, s')
                    /\ is_Exception e = true
                    /\ screenshots (trace s') = screenshots (trace s).
Proof.
  unfold can_report.
  destruct (driver string CurrentUrl (page s)) as [[url|e] b1] eqn:E1;
    [destruct (driver string Title b1) as [[title|e] b2] eqn:E2;
     [destruct (driver unit (SaveScreenshot error_screenshot) b2) as [[[]|e] b3] eqn:E3|]|].
  all: unfold on_timeout, bind, try_except, say, record, perform, ret;
    cbn [page trace available_date]; rewrite E1; cbn [page trace available_date];
    rewrite ?E2; cbn [page trace available_date]; rewrite ?E3;
    cbn [page trace available_date]; rewrite ?is_Exception_to_exn.
  - eexists. split; [reflexivity|].
    cbn [trace]. rewrite !screenshots_app. simpl. now rewrite !app_nil_r.
  - eexists. split; [reflexivity|].
    cbn [trace]. rewrite !screenshots_app. simpl. now rewrite !app_nil_r.
  - eexists. eexists. split; [reflexivity|]. split; [apply is_Exception_to_exn|].
    cbn [trace]. rewrite !screenshots_app. simpl. now rewrite !app_nil_r.
  - eexists. eexists. split; [reflexivity|]. split; [apply is_Exception_to_exn|].
    cbn [trace]. rewrite !screenshots_app. simpl. now rewrite !app_nil_r.
Qed.



End Attempt.

(** * Concrete runs *)

Import Polling.

(** ** Polling *)

(** The scenario of the specification: one page, one sold-out ticket. *)
Example sold_out_single_page :
  poll_cycle shipped
    (fun _ => Response 200
       {| ticket_classes := Some [{| tc_id := "t1"; tc_name := "GA";
                                     on_sale_status := Some "SOLD_OUT" |}];
          pagination := Some {| has_more_items := Some false; page_count := None |};
          other_keys := false |})
    1 [] initial_world
  = (Ok (false,
         merged_state [{| tc_id := "t1"; tc_name := "GA"; on_sale_status := Some "SOLD_OUT" |}]
           [{| ticket_classes := Some [{| tc_id := "t1"; tc_name := "GA";
                                          on_sale_status := Some "SOLD_OUT" |}];
               pagination := Some {| has_more_items := Some false; page_count := None |};
               other_keys := false |}]),
     {| request_counter := 1; log := [Request 1; SavedJson 1 1] |}).
Proof. reflexivity. Qed.

Lemma parallel_early_exit_on_first_page_witness :
  exists w',
    check_ticket_availability parallel_early_exit two_pages 0 [] initial_world = (Ok true, w')
    /\ log w' = log initial_world ++ [Request 1%Z]
    /\ requests (log w') = requests (log initial_world) ++ [1%Z].
Proof.
  apply (parallel_early_exit_on_first_page parallel_early_exit two_pages 0 []
           initial_world page_a); [reflexivity | reflexivity | reflexivity |].
  exists (ticket "t1" (Some "AVAILABLE")). split; [simpl; now left | reflexivity].
Defined.

Lemma missing_pagination_stops_after_first_page_witness :
  exists (st : locals) (w' : world),
    poll_cycle shipped (fun _ => Response 200 (bare_page [ticket "t1" (Some "AVAILABLE")]))
      0 [] initial_world
    = (Ok (true, st), w')
    /\ check_ticket_availability shipped
         (fun _ => Response 200 (bare_page [ticket "t1" (Some "AVAILABLE")]))
         0 [] initial_world
       = (Ok true, w')
    /\ requests (log w') = [1%Z]
    /\ all_ticket_classes st = [ticket "t1" (Some "AVAILABLE")].
Proof.
  apply (missing_pagination_stops_after_first_page shipped
           (fun _ => Response 200 (bare_page [ticket "t1" (Some "AVAILABLE")]))
           0 [] initial_world (bare_page [ticket "t1" (Some "AVAILABLE")]));
    reflexivity.
Defined.

Lemma parallel_fetches_every_page_once_witness :
  exists new : list Z,
    requests (log (snd (check_ticket_availability shipped second_page_503 0 [2; 0]
                          initial_world)))
    = requests (log initial_world) ++ new
    /\ new = 1%Z :: range 2 (3 + 1)
    /\ NoDup new
    /\ (forall page, (1 <= page <= 3)%Z -> count_occ Z.eq_dec new page = 1)
    /\ (forall page, In page new -> page = 1%Z \/ (1 <= page <= 3)%Z).
Proof.
  apply (parallel_fetches_every_page_once shipped second_page_503 0 [2; 0] initial_world
           (page_of [ticket "t1" (Some "AVAILABLE")] true 3)
           {| has_more_items := Some true; page_count := Some 3%Z |} 3);
    reflexivity.
Defined.

Lemma sequential_cycle_merges_pages_in_order_witness :
  exists (v : bool) (st : locals) (w' : world),
    poll_cycle (sequential false) two_pages 2 [] initial_world = (Ok (v, st), w')
    /\ requests (log w')
       = requests (log initial_world) ++ range 1 (Z.of_nat (S (List.length [page_a])) + 1)
    /\ all_ticket_classes st
       = List.concat (map get_ticket_classes [page_a]) ++ page_tickets (Response 200 page_b)
    /\ List.length (all_ticket_classes st)
       = list_sum (map (fun p => List.length (get_ticket_classes p)) [page_a])
         + List.length (page_tickets (Response 200 page_b))
    /\ v = has_available (all_ticket_classes st).
Proof.
  apply (sequential_cycle_merges_pages_in_order (sequential false) two_pages
           [page_a] (Response 200 page_b) 2 [] initial_world).
  - reflexivity.
  - intros k p Hk. destruct k as [|k]; simpl in Hk.
    + now injection Hk as <-.
    + now destruct k.
  - repeat constructor.
  - reflexivity.
  - split; [discriminate | reflexivity].
  - now left.
  - simpl. lia.
Defined.

(** C4, as stated, fails when early exit is enabled: every request
    succeeds and page 1 reports more items, yet the loop stops after page 1
    and the merged list holds one entry where the two pages hold two. *)
Lemma sequential_early_exit_skips_pages :
  served_from two_pages 1 [page_a; page_b]
  /\ truthy (Some page_a) = true
  /\ get_has_more_items (get_pagination page_a) = true
  /\ exists (st : locals) (w' : world),
       poll_cycle (sequential true) two_pages 2 [] initial_world = (Ok (true, st), w')
       /\ requests (log w') = [1%Z]
       /\ List.length (all_ticket_classes st) = 1
       /\ list_sum (map (fun p => List.length (get_ticket_classes p)) [page_a; page_b]) = 2.
Proof.
  split; [|split; [reflexivity|split; [reflexivity|]]].
  - intros k p Hk. destruct k as [|[|k]]; simpl in Hk.
    + now injection Hk as <-.
    + now injection Hk as <-.
    + now destruct k.
  - eexists. eexists. split; [reflexivity|]. repeat split.
Qed.



(** ** A rate limit met inside the worker pool *)

Section PoolLog.

Variable cfg : config.
Variable srv : server.

Lemma run_pool_app (evs1 evs2 : list pool_event) (w : world) :
  run_pool cfg srv (evs1 ++ evs2) w
  = (fst (run_pool cfg srv evs1 w) ++ fst (run_pool cfg srv evs2 (snd (run_pool cfg srv evs1 w))),
     snd (run_pool cfg srv evs2 (snd (run_pool cfg srv evs1 w)))).
Proof.
  revert w. induction evs1 as [|[p|p] evs1 IH]; intros w; cbn [app run_pool].
  - cbn [fst snd app]. now destruct (run_pool cfg srv evs2 w).
  - apply IH.
  - destruct (handle_response cfg (srv p) w) as [r w1]. rewrite IH.
    destruct (run_pool cfg srv evs1 w1) as [f1 w2]. reflexivity.
Qed.

Lemma run_pool_started (pages : list Z) (w : world) :
  fst (run_pool cfg srv (map Started pages) w) = []
  /\ log (snd (run_pool cfg srv (map Started pages) w)) = log w ++ map Request pages.
Proof.
  revert w. induction pages as [|p pages IH]; intros w; cbn [map run_pool].
  - split; [reflexivity | simpl; now rewrite app_nil_r].
  - destruct (IH (snd (send_request p w))) as [Hf Hl]. split; [exact Hf|].
    rewrite Hl. simpl. now rewrite <- app_assoc.
Qed.

Lemma run_pool_log_extends (evs : list pool_event) (w : world) :
  exists tail, log (snd (run_pool cfg srv evs w)) = log w ++ tail.
Proof.
  revert w. induction evs as [|[p|p] evs IH]; intros w; cbn [run_pool].
  - exists []. now rewrite app_nil_r.
  - destruct (IH (snd (send_request p w))) as [tail Ht]. rewrite Ht. simpl.
    eexists. now rewrite <- app_assoc.
  - rewrite handle_response_classify.
    destruct (IH (if is_rate_limited (srv p) then logged w (rate_limit_events cfg) else w))
      as [tail Ht].
    destruct (run_pool cfg srv evs _) as [futs w2]. cbn [snd] in *. rewrite Ht.
    destruct (is_rate_limited (srv p)); [|now exists tail].
    unfold logged. cbn [log]. eexists. now rewrite <- app_assoc.
Qed.

End PoolLog.

(** With more calls queued than workers, the first call to complete frees
    the worker that starts the next queued call. *)
Lemma pool_first_round (workers fuel : nat) (choices : list nat) (queue : list Z) (x : Z) :
  1 <= workers ->
  nth_error queue workers = Some x ->
  exists p evs,
    pool_schedule (S (S fuel)) workers choices queue []
    = map Started (firstn workers queue) ++ Completed p :: Started x :: evs
    /\ In p (firstn workers queue).
Proof.
  intros Hw Hx.
  assert (Hlen : workers < List.length queue) by (apply nth_error_Some; congruence).
  cbn [pool_schedule List.length app]. rewrite Nat.sub_0_r.
  assert (Hne : firstn workers queue <> []).
  { intros E. apply (f_equal (@List.length Z)) in E. rewrite length_firstn in E.
    simpl in E. lia. }
  destruct (pick_mod (hd 0 choices) (firstn workers queue) Hne) as [p [rest [Hp Hperm]]].
  rewrite Hp.
  assert (Hrest : List.length rest = workers - 1).
  { apply Permutation_length in Hperm. rewrite length_firstn in Hperm. simpl in Hperm. lia. }
  rewrite Hrest. replace (workers - (workers - 1)) with 1 by lia.
  assert (Hskip : firstn 1 (skipn workers queue) = [x]).
  { rewrite <- (firstn_skipn workers queue) in Hx.
    rewrite nth_error_app2 in Hx by (rewrite length_firstn; lia).
    rewrite length_firstn in Hx. replace (workers - Nat.min workers (List.length queue))
      with 0 in Hx by lia.
    destruct (skipn workers queue) as [|y l]; [discriminate|].
    simpl in Hx. now injection Hx as ->. }
  rewrite Hskip. cbn [map app].
  eexists. eexists. split; [reflexivity|].
  apply (Permutation_in _ (Permutation_sym Hperm)). now left.
Qed.

(** C2 at a failing input.  With the constants of the source, with or
    without a webhook, and an API that rate-limits every request after the
    first of twelve pages, the cycle does end in [SystemExit(1)], but only
    after the pool has run all eleven calls: whatever the scheduling, the
    request for page 12 is sent after the first 429 has been handled, and
    eleven notification attempts are made. *)
Theorem rate_limit_in_worker_pool (webhook : option string) (fuel : nat) (choices : list nat) :
  exists (w' : world) (tail : list event),
    check_ticket_availability (source_constants webhook) rate_limited_api fuel choices
      initial_world
    = (Raise (SystemExit 1), w')
    /\ log w'
       = map Request (range 1 12) ++ rate_limit_events (source_constants webhook)
         ++ Request 12 :: tail
    /\ notifications (log w') = repeat RateLimitMessage 11
    /\ requests (log w') = range 1 13.
Proof.
  set (cfg := source_constants webhook).
  set (p1 := page_of [ticket "t1" (Some "SOLD_OUT")] true 12).
  pose proof (parallel_fetch_first_page cfg rate_limited_api choices initial_world p1
                eq_refl eq_refl) as Hpf.
  cbn [cfg source_constants EARLY_EXIT andb] in Hpf.
  change (get_page_count (get_pagination p1)) with 12%Z in Hpf.
  change (12 >? 1)%Z with true in Hpf. cbv iota in Hpf. fold cfg in Hpf.
  assert (Hall : forall k, In k (range 2 (12 + 1)) ->
                   classify (rate_limited_api k) = Raise (SystemExit 1)
                   /\ is_rate_limited (rate_limited_api k) = true).
  { intros k Hk. apply In_range in Hk. unfold rate_limited_api.
    now replace (k =? 1)%Z with false by (symmetry; lia). }
  destruct (parallel_pages_run cfg rate_limited_api choices 12 (merge fresh p1)
              (sent initial_world 1)) as [order [w' [Hperm [Hrun [Hreq Hnot]]]]].
  (* the shape of the log *)
  assert (Hlog : exists tail,
             log w' = map Request (range 1 12) ++ rate_limit_events cfg
                      ++ Request 12 :: tail).
  { clear Hreq Hnot. unfold parallel_pages in Hrun.
    change (range 2 (12 + 1)) with [2; 3; 4; 5; 6; 7; 8; 9; 10; 11; 12]%Z in Hrun.
    change (Pos.to_nat (MAX_WORKERS cfg)) with 10 in Hrun.
    cbn [List.length] in Hrun.
    destruct (pool_first_round 10 9 choices [2; 3; 4; 5; 6; 7; 8; 9; 10; 11; 12]%Z 12
                ltac:(lia) eq_refl) as [p [evs [Hev Hp]]].
    rewrite Hev in Hrun. cbn [firstn] in Hrun, Hp.
    rewrite run_pool_app in Hrun.
    destruct (run_pool_started cfg rate_limited_api [2; 3; 4; 5; 6; 7; 8; 9; 10; 11]%Z
                (sent initial_world 1)) as [_ Hl1].
    set (wa := snd (run_pool cfg rate_limited_api _ (sent initial_world 1))) in *.
    injection Hrun as _ Hw'.
    cbn [run_pool] in Hw'. rewrite handle_response_classify in Hw'.
    assert (Hrl : is_rate_limited (rate_limited_api p) = true).
    { apply Hall. apply In_range. simpl in Hp. lia. }
    rewrite Hrl in Hw'.
    destruct (run_pool_log_extends cfg rate_limited_api evs
                (snd (send_request 12 (logged wa (rate_limit_events cfg)))))
      as [tail Htail].
    destruct (run_pool cfg rate_limited_api evs _) as [futs wz] eqn:Ez.
    cbn [snd] in Hw', Htail. subst w'. rewrite Htail.
    exists tail. rewrite send_request_run. unfold sent at 1, logged. cbn [snd log].
    rewrite Hl1. change (range 1 12) with [1; 2; 3; 4; 5; 6; 7; 8; 9; 10; 11]%Z.
    cbn [sent initial_world log map app]. now rewrite <- !app_assoc. }
  destruct Hlog as [tail Hlog].
  exists w', tail. split; [|split; [exact Hlog|split]].
  - apply check_of_flow_exit. cbn [cfg source_constants ENABLE_PARALLEL_FETCH].
    fold cfg. rewrite Hpf, Hrun. f_equal.
    destruct order as [|k order].
    + apply Permutation_length in Hperm. discriminate Hperm.
    + cbn [map collect].
      destruct (Hall k (Permutation_in _ Hperm (or_introl eq_refl))) as [-> _].
      reflexivity.
  - rewrite Hnot. cbn [sent initial_world log notifications app].
    rewrite forallb_filter_id.
    + apply Permutation_length in Hperm. rewrite length_range in Hperm.
      clear -Hperm. change (Z.to_nat (12 + 1 - 2)) with 11 in Hperm.
      revert Hperm. generalize 11. induction order as [|k order IH]; intros n Hn;
        destruct n; try discriminate Hn; [reflexivity|].
      simpl. f_equal. apply IH. now injection Hn.
    + apply forallb_forall. intros k Hk. apply Hall. exact (Permutation_in _ Hperm Hk).
  - rewrite Hreq. reflexivity.
Qed.

(** In the main thread the rate limit does end the process at once: a 429
    on page 1, which both modes request themselves, leaves one notification
    attempt, no further request, and exit status 1. *)
Lemma rate_limit_on_first_page
      (cfg : config) (env : nat -> cycle_env) (page_fuel fuel attempts : nat)
      (w : world) (body : payload) :
  fst (env (S attempts)) 1%Z = Response 429 body ->
  page_fuel <> 0 ->
  monitor cfg env page_fuel (S fuel) attempts w
  = (Raise (SystemExit 1), logged (sent w 1) (rate_limit_events cfg))
  /\ exit_status (fst (monitor cfg env page_fuel (S fuel) attempts w)) = Some 1%Z.
Proof.
  intros H429 Hfuel.
  assert (Hrun : monitor cfg env page_fuel (S fuel) attempts w
                 = (Raise (SystemExit 1), logged (sent w 1) (rate_limit_events cfg))).
  { cbn [monitor]. destruct (env (S attempts)) as [srv choices]. cbn [fst] in H429.
    unfold bind at 1.
    rewrite (check_of_flow_exit cfg srv page_fuel choices w
               (logged (sent w 1) (rate_limit_events cfg)) 1); [reflexivity|].
    destruct (ENABLE_PARALLEL_FETCH cfg).
    - unfold parallel_fetch, bind. now rewrite (fetch_page_429 cfg srv 1 body w H429).
    - destruct page_fuel as [|pf]; [congruence|]. cbn [sequential_pages]. unfold bind.
      now rewrite (fetch_page_429 cfg srv 1 body w H429). }
  split; [exact Hrun | now rewrite Hrun].
Qed.

(** Inside the pool it can even go unnoticed: when the call for page 2
    fails at transport level and completes before the rate-limited call for
    page 3, the main thread re-raises the transport failure, the cycle
    reports "not available", and the monitoring loop sleeps and polls
    again. *)
Example rate_limit_swallowed :
  check_ticket_availability shipped unreachable_then_rate_limited 0 [] initial_world
  = (Ok false,
     {| request_counter := 3;
        log := [Request 1; Request 2; Request 3; Notification RateLimitMessage] |})
  /\ log (snd (monitor shipped (fun _ => (unreachable_then_rate_limited, [])) 0 2 0
                 initial_world))
     = [Request 1; Request 2; Request 3; Notification RateLimitMessage; Sleep;
        Request 1; Request 2; Request 3; Notification RateLimitMessage; Sleep].
Proof. split; reflexivity. Qed.

(** ** Automation *)

Import Automation.

Lemma first_clickable_first_success_witness :
  exists s3 : session unit,
    first_clickable empty_widget "Found button with selector"
      (["button[id*='check-availability']"]
       ++ "button.check-availability-btnbutton"
       :: ["button:contains('Check availability')"]) start
    = (Ok (Some 7), s3)
    /\ page s3 = page after_second_wait
    /\ attempts (trace s3)
       = attempts (trace start)
         ++ map (pair CSS_SELECTOR)
              (["button[id*='check-availability']"] ++ ["button.check-availability-btnbutton"]).
Proof.
  apply (first_clickable_first_success unit empty_widget "Found button with selector"
           ["button[id*='check-availability']"] "button.check-availability-btnbutton"
           ["button:contains('Check availability')"] start after_first_wait
           after_second_wait 7).
  - apply (timed_out unit empty_widget "button[id*='check-availability']" [] start
             after_first_wait after_first_wait).
    + vm_compute. reflexivity.
    + apply none_left.
  - vm_compute. reflexivity.
Defined.



(** * Further properties of the polling engine *)

Import Polling.

Lemma made_of_app (B : list event -> Prop) (l1 l2 : list event) :
  made_of B l1 -> made_of B l2 -> made_of B (l1 ++ l2).
Proof.
  induction 1 as [|b l Hb Hl IH]; intros H2; [exact H2|].
  rewrite <- app_assoc. apply made_app; auto.
Qed.

Lemma made_of_block (B : list event -> Prop) (b : list event) : B b -> made_of B b.
Proof. intros H. rewrite <- (app_nil_r b). apply made_app; [exact H | apply made_nil]. Qed.

Lemma made_of_impl (B B' : list event -> Prop) (l : list event) :
  (forall b, B b -> B' b) -> made_of B l -> made_of B' l.
Proof. intros H. induction 1; [apply made_nil | apply made_app; auto]. Qed.

Section Grows.

Variable B : list event -> Prop.

Lemma grows_ret {A} (a : A) : grows B (ret a).
Proof.
  intros w r w' H. injection H as _ <-. exists []. rewrite app_nil_r. split; [reflexivity | apply made_nil].
Qed.

Lemma grows_raise {A} (e : exn) : grows B (@raise world A e).
Proof.
  intros w r w' H. injection H as _ <-. exists []. rewrite app_nil_r. split; [reflexivity | apply made_nil].
Qed.

Lemma grows_out_of_fuel {A} : grows B (fun w : world => (@OutOfFuel A, w)).
Proof.
  intros w r w' H. injection H as _ <-. exists []. rewrite app_nil_r. split; [reflexivity | apply made_nil].
Qed.

Lemma grows_bind {A C} (m : M world A) (k : A -> M world C) :
  grows B m -> (forall a, grows B (k a)) -> grows B (bind m k).
Proof.
  intros Hm Hk w r w' H. unfold bind in H.
  destruct (m w) as [[a|e|] w1] eqn:Em.
  - destruct (Hm _ _ _ Em) as [n1 [E1 M1]]. destruct (Hk a _ _ _ H) as [n2 [E2 M2]].
    exists (n1 ++ n2). rewrite E2, E1, app_assoc. split; [reflexivity | now apply made_of_app].
  - injection H as _ <-. exact (Hm _ _ _ Em).
  - injection H as _ <-. exact (Hm _ _ _ Em).
Qed.

Lemma grows_try_except {A} (m : M world A) (handles : exn -> bool) (h : exn -> M world A) :
  grows B m -> (forall e, grows B (h e)) -> grows B (try_except m handles h).
Proof.
  intros Hm Hh w r w' H. unfold try_except in H.
  destruct (m w) as [[a|e|] w1] eqn:Em.
  - injection H as _ <-. exact (Hm _ _ _ Em).
  - destruct (handles e).
    + destruct (Hm _ _ _ Em) as [n1 [E1 M1]]. destruct (Hh e _ _ _ H) as [n2 [E2 M2]].
      exists (n1 ++ n2). rewrite E2, E1, app_assoc. split; [reflexivity | now apply made_of_app].
    + injection H as _ <-. exact (Hm _ _ _ Em).
  - injection H as _ <-. exact (Hm _ _ _ Em).
Qed.

Lemma grows_emit (e : event) : B [e] -> grows B (emit e).
Proof.
  intros He w r w' H. injection H as _ <-. exists [e]. split; [reflexivity | now apply made_of_block].
Qed.

Lemma grows_count_request : grows B count_request.
Proof.
  intros w r w' H. injection H as _ <-. exists []. simpl. rewrite app_nil_r.
  split; [reflexivity | apply made_nil].
Qed.

End Grows.

Lemma grows_impl {A} (B B' : list event -> Prop) (m : M world A) :
  (forall b, B b -> B' b) -> grows B m -> grows B' m.
Proof.
  intros H Hm w r w' E. destruct (Hm _ _ _ E) as [new [El Hn]].
  exists new. split; [exact El | exact (made_of_impl _ _ _ H Hn)].
Qed.

Section Footprint.

Variable cfg : config.
Variable srv : server.

Lemma grows_fetch_page (page : Z) : grows (fetch_block cfg) (fetch_page cfg srv page).
Proof.
  intros w r w' H. rewrite fetch_page_run, handle_response_classify in H.
  injection H as _ <-. destruct (is_rate_limited (srv page)).
  - exists (Request page :: rate_limit_events cfg). unfold logged, sent. cbn [log].
    rewrite <- app_assoc. split; [reflexivity|].
    apply (made_app _ [Request page]); [constructor|]. apply made_of_block. constructor.
  - exists [Request page]. split; [reflexivity|]. apply made_of_block. constructor.
Qed.

Lemma grows_sequential_pages (fuel : nat) :
  forall (page : Z) (st : locals), grows (fetch_block cfg) (sequential_pages cfg srv fuel page st).
Proof.
  induction fuel as [|fuel IH]; intros page st; cbn [sequential_pages].
  - apply grows_out_of_fuel.
  - apply grows_bind; [apply grows_fetch_page|]. intros [p|]; [|apply grows_ret].
    destruct (negb (truthy (Some p))); [apply grows_ret|].
    cbv zeta.
    destruct (EARLY_EXIT cfg);
      repeat match goal with
             | |- grows _ (if ?c then _ else _) => destruct c
             | |- grows _ (ret _) => apply grows_ret
             | |- grows _ (sequential_pages _ _ _ _ _) => apply IH
             end.
Qed.

Lemma run_pool_grows (evs : list pool_event) :
  forall w, exists new,
    log (snd (run_pool cfg srv evs w)) = log w ++ new /\ made_of (fetch_block cfg) new.
Proof.
  induction evs as [|[p|p] evs IH]; intros w; cbn [run_pool].
  - exists []. rewrite app_nil_r. split; [reflexivity | apply made_nil].
  - destruct (IH (snd (send_request p w))) as [new [E Hn]].
    exists (Request p :: new). rewrite E, send_request_run. unfold sent. cbn [snd log].
    rewrite <- app_assoc. split; [reflexivity|].
    apply (made_app _ [Request p]); [constructor | exact Hn].
  - rewrite handle_response_classify.
    destruct (IH (if is_rate_limited (srv p) then logged w (rate_limit_events cfg) else w))
      as [new [E Hn]].
    destruct (run_pool cfg srv evs _) as [futs w2]. cbn [snd] in *.
    destruct (is_rate_limited (srv p)).
    + exists (rate_limit_events cfg ++ new). rewrite E. unfold logged. cbn [log].
      rewrite <- app_assoc. split; [reflexivity|]. apply made_app; [constructor | exact Hn].
    + exists new. split; assumption.
Qed.

Lemma grows_parallel_pages (choices : list nat) (n : Z) (st : locals) :
  grows (fetch_block cfg) (parallel_pages cfg srv choices n st).
Proof.
  intros w r w' H. unfold parallel_pages in H.
  match type of H with context [run_pool cfg srv ?evs w] =>
    destruct (run_pool_grows evs w) as [new [E Hn]];
    destruct (run_pool cfg srv evs w) as [futs w2] end.
  injection H as _ <-. exists new. split; assumption.
Qed.

Lemma grows_parallel_fetch (choices : list nat) :
  grows (fetch_block cfg) (parallel_fetch cfg srv choices).
Proof.
  unfold parallel_fetch. apply grows_bind; [apply grows_fetch_page|].
  intros [p|]; [|apply grows_ret].
  destruct (negb (truthy (Some p))); [apply grows_ret|]. cbv zeta.
  destruct (EARLY_EXIT cfg);
    repeat match goal with
           | |- grows _ (if ?c then _ else _) => destruct c
           | |- grows _ (ret _) => apply grows_ret
           | |- grows _ (parallel_pages _ _ _ _ _) => apply grows_parallel_pages
           end.
Qed.

End Footprint.

Lemma filter_none_available (tickets : list ticket_class) :
  has_available tickets = false -> filter status_is_available tickets = [].
Proof.
  intros H. rewrite <- scan_page_fresh. now apply scan_page_none.
Qed.

Lemma none_available_concat (responses : list payload) :
  has_available (List.concat (map get_ticket_classes responses)) = false ->
  Forall none_available responses.
Proof.
  induction responses as [|p l IH]; intros H; [constructor|].
  cbn [map List.concat] in H. rewrite has_available_app in H.
  apply orb_false_elim in H. destruct H as [H1 H2]. constructor; [exact H1 | now apply IH].
Qed.

Lemma scanned_fresh (cfg : config) : scanned cfg fresh.
Proof. repeat split. Qed.

Lemma well_merged_merge (st : locals) (p : payload) :
  well_merged st -> well_merged (merge st p).
Proof.
  unfold well_merged. intros H. cbn [merge all_ticket_classes all_responses].
  rewrite map_app, concat_app, H. simpl. now rewrite app_nil_r.
Qed.

(** One page merged, with the early-exit scan when enabled. *)
Lemma scan_step (cfg : config) (st : locals) (p : payload) :
  scanned cfg st ->
  if EARLY_EXIT cfg then
    let st2 := with_available (merge st p)
                 (scan_page (get_ticket_classes p) (available_tickets (merge st p))) in
    if nonempty (available_tickets st2)
    then sound_flow cfg (inl (true, st2))
    else scanned cfg st2
  else scanned cfg (merge st p).
Proof.
  intros [Hwm [Hav Hnone]]. destruct (EARLY_EXIT cfg) eqn:Hee.
  - specialize (Hnone eq_refl). cbv zeta.
    cbn [available_tickets merge with_available]. rewrite Hav, nonempty_scan_page, scan_page_fresh.
    destruct (has_available (get_ticket_classes p)) eqn:Hha.
    + cbn [sound_flow]. split; [|split; [exact Hee|]].
      * split; [exact (well_merged_merge st p Hwm)|].
        cbn [all_ticket_classes available_tickets with_available merge].
        rewrite has_available_app, Hnone, Hha, filter_app, (filter_none_available _ Hnone).
        split; reflexivity.
      * exists (all_responses st), p. split; [reflexivity|]. split; [|exact Hha].
        apply none_available_concat. now rewrite <- Hwm.
    + rewrite (filter_none_available _ Hha).
      split; [exact (well_merged_merge st p Hwm)|]. split; [reflexivity|].
      intros _. cbn [all_ticket_classes with_available merge]. now rewrite has_available_app, Hnone, Hha.
  - split; [exact (well_merged_merge st p Hwm)|]. split; [exact Hav|].
    intros H. rewrite Hee in H. discriminate H.
Qed.

Section Flows.

Variable cfg : config.
Variable srv : server.

Lemma sequential_pages_sound (fuel : nat) :
  forall (page : Z) (st : locals) (w w' : world) (r : flow),
    scanned cfg st ->
    sequential_pages cfg srv fuel page st w = (Ok r, w') ->
    sound_flow cfg r.
Proof.
  induction fuel as [|fuel IH]; intros page st w w' r Hst Hrun; [discriminate Hrun|].
  cbn [sequential_pages] in Hrun. unfold bind in Hrun.
  destruct (fetch_page cfg srv page w) as [[[p|]|e|] w1]; try discriminate Hrun.
  - destruct (truthy (Some p)); cbn [negb] in Hrun.
    + pose proof (scan_step cfg st p Hst) as Hstep. cbv zeta in Hstep, Hrun.
      assert (Hpag : forall st1, scanned cfg st1 ->
                 (if negb (get_has_more_items (get_pagination p))
                  then ret (inr st1)
                  else sequential_pages cfg srv fuel (page + 1) st1) w1 = (Ok r, w') ->
                 sound_flow cfg r).
      { intros st1 H1 H. destruct (negb (get_has_more_items (get_pagination p))).
        - injection H as <- _. exact H1.
        - exact (IH _ _ _ _ _ H1 H). }
      destruct (EARLY_EXIT cfg).
      * destruct (nonempty _).
        -- injection Hrun as <- _. exact Hstep.
        -- exact (Hpag _ Hstep Hrun).
      * exact (Hpag _ Hstep Hrun).
    + injection Hrun as <- _. exact Hst.
  - injection Hrun as <- _. exact Hst.
Qed.

Lemma collect_sound (futs : list future) :
  forall (st : locals) (r : flow),
    scanned cfg st ->
    collect cfg futs st = Ok r ->
    sound_flow cfg r.
Proof.
  induction futs as [|[k res] futs IH]; intros st r Hst Hrun; cbn [collect] in Hrun.
  - injection Hrun as <-. exact Hst.
  - destruct res as [[p|]|e|]; try discriminate Hrun.
    + destruct (truthy (Some p)).
      * pose proof (scan_step cfg st p Hst) as Hstep. cbv zeta in Hstep, Hrun.
        destruct (EARLY_EXIT cfg).
        -- destruct (nonempty _).
           ++ injection Hrun as <-. exact Hstep.
           ++ exact (IH _ _ Hstep Hrun).
        -- exact (IH _ _ Hstep Hrun).
      * exact (IH _ _ Hst Hrun).
    + exact (IH _ _ Hst Hrun).
Qed.

Lemma collect_responses (futs : list future) :
  forall st st' : locals,
    collect cfg futs st = Ok (inr st') ->
    exists more, all_responses st' = all_responses st ++ more.
Proof.
  induction futs as [|[k res] futs IH]; intros st st' Hrun; cbn [collect] in Hrun.
  - injection Hrun as <-. exists []. now rewrite app_nil_r.
  - destruct res as [[p|]|e|]; try discriminate Hrun; [|exact (IH _ _ Hrun)].
    destruct (truthy (Some p)); [|exact (IH _ _ Hrun)].
    assert (Hgo : forall st1, all_responses st1 = all_responses st ++ [p] ->
               collect cfg futs st1 = Ok (inr st') ->
               exists more, all_responses st' = all_responses st ++ more).
    { intros st1 H1 H. destruct (IH _ _ H) as [more Hm]. exists (p :: more).
      rewrite Hm, H1, <- app_assoc. reflexivity. }
    destruct (EARLY_EXIT cfg).
    + destruct (nonempty _); [discriminate Hrun|]. refine (Hgo _ _ Hrun). reflexivity.
    + refine (Hgo _ _ Hrun). reflexivity.
Qed.

Lemma sound_return_fresh : sound_return false fresh.
Proof. repeat split. Qed.

Lemma parallel_fetch_sound (choices : list nat) (w w' : world) (r : flow) :
  ENABLE_PARALLEL_FETCH cfg = true ->
  parallel_fetch cfg srv choices w = (Ok r, w') ->
  sound_flow cfg r /\ match r with inr st => all_responses st <> [] | inl _ => True end.
Proof.
  intros Hpar Hrun. unfold parallel_fetch, bind in Hrun.
  destruct (fetch_page cfg srv 1 w) as [[[p|]|e|] w1]; try discriminate Hrun.
  - destruct (truthy (Some p)); cbn [negb] in Hrun.
    + pose proof (scan_step cfg fresh p (scanned_fresh cfg)) as Hstep. cbv zeta in Hstep, Hrun.
      assert (Hrest : forall st1, scanned cfg st1 -> all_responses st1 = [p] ->
                 (if (get_page_count (get_pagination p) >? 1)%Z
                  then parallel_pages cfg srv choices (get_page_count (get_pagination p)) st1
                  else ret (inr st1)) w1 = (Ok r, w') ->
                 sound_flow cfg r
                 /\ match r with inr st => all_responses st <> [] | inl _ => True end).
      { intros st1 H1 Hresp H. destruct (get_page_count (get_pagination p) >? 1)%Z.
        - unfold parallel_pages in H. destruct (run_pool cfg srv _ w1) as [futs w2].
          injection H as H _. split; [exact (collect_sound futs st1 r H1 H)|].
          destruct r as [|st']; [exact I|].
          destruct (collect_responses futs st1 st' H) as [more Hm].
          rewrite Hm, Hresp. discriminate.
        - injection H as <- _. split; [exact H1|]. rewrite Hresp. discriminate. }
      destruct (EARLY_EXIT cfg).
      * destruct (nonempty _).
        -- injection Hrun as <- _. split; [exact Hstep | exact I].
        -- refine (Hrest _ Hstep _ Hrun). reflexivity.
      * refine (Hrest _ Hstep _ Hrun). reflexivity.
    + injection Hrun as <- _. cbn [sound_flow]. auto using sound_return_fresh.
  - injection Hrun as <- _. cbn [sound_flow]. auto using sound_return_fresh.
Qed.

End Flows.

Lemma saved_app (l1 l2 : list event) : saved (l1 ++ l2) = saved l1 ++ saved l2.
Proof.
  induction l1 as [|e l1 IH]; [reflexivity|]. destruct e; simpl; rewrite ?IH; reflexivity.
Qed.

Lemma saved_rate_limit_events (cfg : config) : saved (rate_limit_events cfg) = [].
Proof. unfold rate_limit_events. now destruct (DISCORD_WEBHOOK_URL cfg). Qed.

Lemma saved_fetch_blocks (cfg : config) (l : list event) :
  made_of (fetch_block cfg) l -> saved l = [].
Proof.
  induction 1 as [|b l Hb Hl IH]; [reflexivity|]. rewrite saved_app, IH, app_nil_r.
  destruct Hb; [reflexivity | apply saved_rate_limit_events].
Qed.

(** The page loops of either mode. *)
Lemma loops_sound (cfg : config) (srv : server) (fuel : nat) (choices : list nat)
      (w w1 : world) (r : flow) :
  (if ENABLE_PARALLEL_FETCH cfg
   then parallel_fetch cfg srv choices
   else sequential_pages cfg srv fuel 1 fresh) w = (Ok r, w1) ->
  sound_flow cfg r
  /\ match r with
     | inl (v, _) => v = false -> ENABLE_PARALLEL_FETCH cfg = true
     | inr st => ENABLE_PARALLEL_FETCH cfg = true -> all_responses st <> []
     end.
Proof.
  intros H. destruct (ENABLE_PARALLEL_FETCH cfg) eqn:Hpar.
  - destruct (parallel_fetch_sound cfg srv choices w w1 r Hpar H) as [Hs Hr].
    split; [exact Hs|]. destruct r as [[v st]|st]; auto.
  - pose proof (sequential_pages_sound cfg srv fuel 1 fresh w w1 r (scanned_fresh cfg) H) as Hs.
    split; [exact Hs|]. destruct r as [[v st]|st]; [|discriminate].
    destruct Hs as [_ Hs]. destruct v; [discriminate|]. destruct Hs as [Hs _].
    intros _. now rewrite <- Hs, Hpar.
Qed.

Lemma loops_grow (cfg : config) (srv : server) (fuel : nat) (choices : list nat) :
  grows (fetch_block cfg)
        (if ENABLE_PARALLEL_FETCH cfg
         then parallel_fetch cfg srv choices
         else sequential_pages cfg srv fuel 1 fresh).
Proof.
  destruct (ENABLE_PARALLEL_FETCH cfg);
    [apply grows_parallel_fetch | apply grows_sequential_pages].
Qed.

Lemma loops_saved (cfg : config) (srv : server) (fuel : nat) (choices : list nat)
      (w w1 : world) (r : result flow) :
  (if ENABLE_PARALLEL_FETCH cfg
   then parallel_fetch cfg srv choices
   else sequential_pages cfg srv fuel 1 fresh) w = (r, w1) ->
  saved (log w1) = saved (log w).
Proof.
  intros H. destruct (loops_grow cfg srv fuel choices w r w1 H) as [new [El Hn]].
  rewrite El, saved_app, (saved_fetch_blocks cfg new Hn). apply app_nil_r.
Qed.

Lemma evaluate_scanned (cfg : config) (st : locals) :
  scanned cfg st ->
  evaluate cfg st
  = (has_available (all_ticket_classes st),
     with_available st (filter status_is_available (all_ticket_classes st))).
Proof.
  intros [_ [Hav _]]. destruct st as [all resp av]. simpl in Hav. subst av.
  change {| all_ticket_classes := all; all_responses := resp; available_tickets := [] |}
    with (merged_state all resp).
  apply evaluate_merged.
Qed.

(** X1.  Whichever [return] ends a poll cycle (the first-page failure of
    concurrent mode, an early exit, or the final evaluation), the value
    returned and the locals agree: the verdict is [True] exactly when the
    merged list holds an entry whose [on_sale_status] is ['AVAILABLE'],
    [available_tickets] lists exactly these entries, in order, and the
    merged list is the concatenation of the ticket lists of the stored
    responses. *)
Theorem cycle_result_consistent
        (cfg : config) (srv : server) (fuel : nat) (choices : list nat)
        (w w' : world) (v : bool) (st : locals) :
  poll_cycle cfg srv fuel choices w = (Ok (v, st), w') ->
  (v = true <-> exists tc, In tc (all_ticket_classes st) /\ on_sale_status tc = Some "AVAILABLE")
  /\ v = nonempty (available_tickets st)
  /\ available_tickets st = filter status_is_available (all_ticket_classes st)
  /\ all_ticket_classes st = List.concat (map get_ticket_classes (all_responses st)).
Proof.
  intros Hrun.
  assert (Hret : sound_return v st).
  { rewrite poll_cycle_unfold in Hrun. unfold bind in Hrun.
    match type of Hrun with context [match ?m w with _ => _ end] =>
      destruct (m w) as [[r|e|] w1] eqn:Eloops end; try discriminate Hrun.
    destruct (loops_sound cfg srv fuel choices w w1 r Eloops) as [Hs _].
    destruct r as [[v0 st0]|st0].
    - injection Hrun as <- <- _. exact (proj1 Hs).
    - destruct (finish_run cfg st0 w1) as [w2 [Hf _]]. rewrite Hf in Hrun.
      rewrite (evaluate_scanned cfg st0 Hs) in Hrun. injection Hrun as <- <- _.
      destruct Hs as [Hwm _]. repeat split; exact Hwm. }
  destruct Hret as [Hwm [Hv Hav]].
  split; [rewrite Hv; apply has_available_spec|].
  split; [|split; [exact Hav | exact Hwm]].
  rewrite Hav, nonempty_existsb. exact Hv.
Qed.

Lemma cycle_result_consistent_witness :
  (true = true <-> exists tc, In tc (all_ticket_classes two_pages_locals)
                              /\ on_sale_status tc = Some "AVAILABLE")
  /\ true = nonempty (available_tickets two_pages_locals)
  /\ available_tickets two_pages_locals
     = filter status_is_available (all_ticket_classes two_pages_locals)
  /\ all_ticket_classes two_pages_locals
     = List.concat (map get_ticket_classes (all_responses two_pages_locals)).
Proof.
  apply (cycle_result_consistent shipped two_pages 0 [] initial_world two_pages_world).
  vm_compute. reflexivity.
Defined.

(** X2.  The JSON snapshot of lines 300-309 is written at most once per
    cycle, and exactly when the page loops fall through to line 300 with
    [SAVE_JSON_RESPONSE] set: not when the cycle raises, not on an
    early-exit return, not when the first page of concurrent mode gave no
    data (in sequential mode that case does write one, with counts 0 and
    0).  The counts it records are the lengths of the merged list and of
    the stored responses. *)
Theorem snapshot_written_on_fall_through
        (cfg : config) (srv : server) (fuel : nat) (choices : list nat) (w : world) :
  saved (log (snd (poll_cycle cfg srv fuel choices w)))
  = saved (log w)
    ++ match fst (poll_cycle cfg srv fuel choices w) with
       | Ok (v, st) =>
           if SAVE_JSON_RESPONSE cfg
              && negb (EARLY_EXIT cfg && v)
              && (negb (ENABLE_PARALLEL_FETCH cfg) || nonempty (all_responses st))
           then [(List.length (all_ticket_classes st), List.length (all_responses st))]
           else []
       | _ => []
       end.
Proof.
  rewrite poll_cycle_unfold. unfold bind.
  match goal with |- context [match ?m w with _ => _ end] =>
    destruct (m w) as [[r|e|] w1] eqn:Eloops end;
    pose proof (loops_saved cfg srv fuel choices w w1 _ Eloops) as Hs1.
  - destruct (loops_sound cfg srv fuel choices w w1 r Eloops) as [Hs Hr].
    destruct r as [[v st]|st]; cbn [ret fst snd].
    + rewrite Hs1. destruct Hs as [_ Hs]. destruct v.
      * destruct Hs as [-> _]. cbn [andb negb]. rewrite andb_false_r. cbn [andb].
        now rewrite app_nil_r.
      * destruct Hs as [-> ->]. cbn [fresh all_responses nonempty negb orb].
        rewrite andb_false_r. now rewrite app_nil_r.
    + unfold finish, bind. rewrite (evaluate_scanned cfg st Hs).
      destruct Hs as [_ [_ Hnone]].
      assert (Hc : negb (EARLY_EXIT cfg && has_available (all_ticket_classes st))
                   && (negb (ENABLE_PARALLEL_FETCH cfg) || nonempty (all_responses st)) = true).
      { apply andb_true_intro. split.
        - destruct (EARLY_EXIT cfg); [now rewrite Hnone|reflexivity].
        - destruct (ENABLE_PARALLEL_FETCH cfg); [|reflexivity].
          specialize (Hr eq_refl). now destruct (all_responses st). }
      destruct (SAVE_JSON_RESPONSE cfg); cbn [emit ret fst snd log with_available
                                               all_ticket_classes all_responses].
      * rewrite saved_app, Hs1. cbn [andb]. rewrite Hc. reflexivity.
      * rewrite Hs1. cbn [andb]. now rewrite app_nil_r.
  - cbn [fst snd]. now rewrite Hs1, app_nil_r.
  - cbn [fst snd]. now rewrite Hs1, app_nil_r.
Qed.

(** X3.  With early exit enabled, a cycle that reports availability returns
    from the scan of the page merged last: the pages merged before it hold
    nothing available, [available_tickets] holds the AVAILABLE entries of
    that page (and there is one), and no snapshot is written. *)
Theorem early_exit_reports_last_page
        (cfg : config) (srv : server) (fuel : nat) (choices : list nat)
        (w w' : world) (st : locals) :
  EARLY_EXIT cfg = true ->
  poll_cycle cfg srv fuel choices w = (Ok (true, st), w') ->
  exists (earlier : list payload) (p : payload),
    all_responses st = earlier ++ [p]
    /\ Forall none_available earlier
    /\ available_tickets st = filter status_is_available (get_ticket_classes p)
    /\ available_tickets st <> []
    /\ saved (log w') = saved (log w).
Proof.
  intros Hee Hrun.
  rewrite poll_cycle_unfold in Hrun. unfold bind in Hrun.
  match type of Hrun with context [match ?m w with _ => _ end] =>
    destruct (m w) as [[r|e|] w1] eqn:Eloops end; try discriminate Hrun.
  pose proof (loops_saved cfg srv fuel choices w w1 _ Eloops) as Hsaved.
  destruct (loops_sound cfg srv fuel choices w w1 r Eloops) as [Hs _].
  destruct r as [[v0 st0]|st0].
  - injection Hrun as -> -> <-. destruct Hs as [[Hwm [_ Hav]] [_ [earlier [p [Hresp [Hnone Hha]]]]]].
    exists earlier, p. split; [exact Hresp|]. split; [exact Hnone|].
    assert (Hfilter : available_tickets st = filter status_is_available (get_ticket_classes p)).
    { rewrite Hav, Hwm, Hresp, map_app, concat_app, filter_app. cbn [map List.concat].
      rewrite app_nil_r.
      replace (filter status_is_available (List.concat (map get_ticket_classes earlier)))
        with (@nil ticket_class); [reflexivity|].
      clear -Hnone. induction Hnone as [|q l Hq Hl IH]; [reflexivity|].
      cbn [map List.concat]. rewrite filter_app, <- IH, app_nil_r.
      symmetry. now apply filter_none_available. }
    split; [exact Hfilter|]. split; [|exact Hsaved].
    rewrite Hfilter. intros E. apply (f_equal nonempty) in E.
    rewrite nonempty_existsb in E. fold (has_available (get_ticket_classes p)) in E.
    rewrite Hha in E. discriminate E.
  - destruct (finish_run cfg st0 w1) as [w2 [Hf _]]. rewrite Hf in Hrun.
    rewrite (evaluate_scanned cfg st0 Hs) in Hrun. injection Hrun as Hv _ _.
    destruct Hs as [_ [_ Hnone]]. rewrite (Hnone Hee) in Hv. discriminate Hv.
Qed.

Lemma early_exit_reports_last_page_witness :
  exists (earlier : list payload) (p : payload),
    all_responses first_page_locals = earlier ++ [p]
    /\ Forall none_available earlier
    /\ available_tickets first_page_locals = filter status_is_available (get_ticket_classes p)
    /\ available_tickets first_page_locals <> []
    /\ saved (log first_page_world) = saved (log initial_world).
Proof.
  apply (early_exit_reports_last_page (sequential true) two_pages 2 [] initial_world).
  - reflexivity.
  - vm_compute. reflexivity.
Defined.


Section Outcome.

Variable cfg : config.
Variable srv : server.

Lemma fetch_page_result (page : Z) (w : world) :
  fst (fetch_page cfg srv page w) = classify (srv page).
Proof. now rewrite fetch_page_run, handle_response_classify. Qed.





End Outcome.


Lemma sequential_pages_requests (cfg : config) (srv : server) (fuel : nat) :
  forall (page : Z) (st : locals) (w : world),
    exists k, k <= fuel
      /\ (fuel <> 0 -> 1 <= k)
      /\ requests (log (snd (sequential_pages cfg srv fuel page st w)))
         = requests (log w) ++ pages_from page k.
Proof.
  induction fuel as [|fuel IH]; intros page st w.
  - exists 0. split; [lia|]. split; [congruence|]. simpl. now rewrite app_nil_r.
  - cbn [sequential_pages]. unfold bind. rewrite fetch_page_run, handle_response_classify.
    set (w1 := if is_rate_limited (srv page)
               then logged (sent w page) (rate_limit_events cfg) else sent w page).
    assert (Hw1 : requests (log w1) = requests (log w) ++ [page]).
    { unfold w1. destruct (is_rate_limited (srv page)); unfold logged, sent; cbn [log];
        rewrite ?requests_app, ?requests_rate_limit_events, ?app_nil_r; reflexivity. }
    assert (Hone : exists k, k <= S fuel
                    /\ (S fuel <> 0 -> 1 <= k)
                    /\ requests (log w1) = requests (log w) ++ pages_from page k).
    { exists 1. split; [lia|]. split; [lia|]. rewrite Hw1. unfold pages_from. simpl.
      now rewrite Z.add_0_r. }
    destruct (classify (srv page)) as [[p|]|e|]; cbn [snd]; try exact Hone.
    destruct (negb (truthy (Some p))); [exact Hone|]. cbv zeta.
    assert (Hgo : forall st1, exists k, k <= S fuel
                    /\ (S fuel <> 0 -> 1 <= k)
                    /\ requests (log (snd (sequential_pages cfg srv fuel (page + 1) st1 w1)))
                       = requests (log w) ++ pages_from page k).
    { intros st1. destruct (IH (page + 1)%Z st1 w1) as [k [Hk [_ Hr]]].
      exists (S k). split; [lia|]. split; [lia|].
      rewrite Hr, Hw1, pages_from_S, <- app_assoc. reflexivity. }
    destruct (EARLY_EXIT cfg);
      repeat match goal with
             | |- context [if ?c then _ else _] => destruct c
             end; cbn [ret snd]; auto.
Qed.

Lemma range_from_one (k : nat) : range 1 (1 + Z.of_nat k) = pages_from 1 k.
Proof. apply range_pages_from. Qed.

Lemma parallel_fetch_requests (cfg : config) (srv : server) (choices : list nat) (w : world) :
  exists k, 1 <= k
    /\ requests (log (snd (parallel_fetch cfg srv choices w)))
       = requests (log w) ++ pages_from 1 k.
Proof.
  unfold parallel_fetch, bind. rewrite fetch_page_run, handle_response_classify.
  set (w1 := if is_rate_limited (srv 1%Z)
             then logged (sent w 1) (rate_limit_events cfg) else sent w 1).
  assert (Hw1 : requests (log w1) = requests (log w) ++ [1%Z]).
  { unfold w1. destruct (is_rate_limited (srv 1%Z)); unfold logged, sent; cbn [log];
      rewrite ?requests_app, ?requests_rate_limit_events, ?app_nil_r; reflexivity. }
  assert (Hone : exists k, 1 <= k
                  /\ requests (log w1) = requests (log w) ++ pages_from 1 k).
  { exists 1. split; [lia|]. rewrite Hw1. reflexivity. }
  destruct (classify (srv 1%Z)) as [[p|]|e|]; cbn [snd]; try exact Hone.
  destruct (negb (truthy (Some p))); [exact Hone|]. cbv zeta.
  assert (Hrest : forall st1, exists k, 1 <= k
             /\ requests (log (snd ((if (get_page_count (get_pagination p) >? 1)%Z
                                     then parallel_pages cfg srv choices
                                            (get_page_count (get_pagination p)) st1
                                     else ret (inr st1)) w1)))
                = requests (log w) ++ pages_from 1 k).
  { intros st1. destruct (get_page_count (get_pagination p) >? 1)%Z eqn:Hn; [|exact Hone].
    apply Z.gtb_lt in Hn.
    destruct (parallel_pages_run cfg srv choices (get_page_count (get_pagination p)) st1 w1)
      as [order [w2 [_ [Hrun [Hreq _]]]]].
    rewrite Hrun. cbn [snd]. rewrite Hreq, Hw1, <- app_assoc.
    exists (Z.to_nat (get_page_count (get_pagination p))). split; [lia|].
    f_equal. rewrite <- range_pages_from.
    replace (1 + Z.of_nat (Z.to_nat (get_page_count (get_pagination p))))%Z
      with (get_page_count (get_pagination p) + 1)%Z by lia.
    cbn [app]. symmetry. apply range_cons. lia. }
  destruct (EARLY_EXIT cfg); [|apply Hrest].
  destruct (nonempty _); [exact Hone | apply Hrest].
Qed.

(** X5.  Every poll cycle, however it ends, requests an initial segment
    1, 2, ..., k of the page numbers, page 1 first and no page twice.  In
    concurrent mode page 1 is always requested; in sequential mode [k] is
    at most the number of loop iterations. *)
Theorem cycle_requests_initial_segment
        (cfg : config) (srv : server) (fuel : nat) (choices : list nat) (w : world) :
  exists k : nat,
    requests (log (snd (check_ticket_availability cfg srv fuel choices w)))
    = requests (log w) ++ range 1 (1 + Z.of_nat k)
    /\ NoDup (range 1 (1 + Z.of_nat k))
    /\ (if ENABLE_PARALLEL_FETCH cfg then 1 <= k else k <= fuel).
Proof.
  rewrite check_world, poll_cycle_unfold.
  destruct (after_loops_log cfg
              (if ENABLE_PARALLEL_FETCH cfg
               then parallel_fetch cfg srv choices
               else sequential_pages cfg srv fuel 1 fresh) w) as [Hreq _].
  unfold after_loops in Hreq. rewrite Hreq.
  destruct (ENABLE_PARALLEL_FETCH cfg).
  - destruct (parallel_fetch_requests cfg srv choices w) as [k [Hk Hr]].
    exists k. rewrite range_from_one. split; [exact Hr|]. split; [|exact Hk].
    rewrite <- range_from_one. apply NoDup_range.
  - destruct (sequential_pages_requests cfg srv fuel 1 fresh w) as [k [Hk [_ Hr]]].
    exists k. rewrite range_from_one. split; [exact Hr|]. split; [|exact Hk].
    rewrite <- range_from_one. apply NoDup_range.
Qed.

Lemma served_from_intro (srv : server) (s : Z) (p : payload) (pages : list payload) :
  srv s = Response 200 p -> served_from srv (s + 1) pages -> served_from srv s (p :: pages).
Proof.
  intros H0 H k q Hk. destruct k as [|k]; simpl in Hk.
  - injection Hk as <-. now rewrite Z.add_0_r.
  - replace (s + Z.of_nat (S k))%Z with (s + 1 + Z.of_nat k)%Z by lia. now apply H.
Qed.

Lemma pages_that_keep_paging (cfg : config) (srv : server) (n : nat) :
  forall s : Z,
    (forall page, (s <= page < s + Z.of_nat n)%Z -> keeps_paging cfg (srv page)) ->
    exists pages,
      List.length pages = n
      /\ served_from srv s pages
      /\ Forall goes_on pages
      /\ (EARLY_EXIT cfg = true -> Forall none_available pages).
Proof.
  induction n as [|n IH]; intros s H.
  - exists []. repeat split; try constructor. intros k p Hk. destruct k; discriminate Hk.
  - destruct (H s ltac:(lia)) as [p [Hs [Hg Hn]]].
    destruct (IH (s + 1)%Z) as [pages [Hl [Hsv [Hgo Hnone]]]].
    { intros page Hp. apply H. lia. }
    exists (p :: pages). split; [simpl; now rewrite Hl|].
    split; [now apply served_from_intro|]. split; [now constructor|].
    intros Hee. constructor; auto.
Qed.

(** Sequential mode through [n] pages that keep the loop going. *)
Lemma sequential_pages_keep_going (cfg : config) (srv : server) (n fuel : nat) (w : world) :
  (forall page, (1 <= page < 1 + Z.of_nat n)%Z -> keeps_paging cfg (srv page)) ->
  exists st w',
    sequential_pages cfg srv (n + fuel) 1 fresh w
    = sequential_pages cfg srv fuel (1 + Z.of_nat n) st w'
    /\ log w' = log w ++ map Request (range 1 (1 + Z.of_nat n)).
Proof.
  intros H. destruct (pages_that_keep_paging cfg srv n 1 H) as [pages [Hl [Hsv [Hgo Hnone]]]].
  destruct (sequential_pages_go_on cfg srv pages 1 fresh w fuel Hsv Hgo) as [w' [Hrun Hlog]].
  { destruct (EARLY_EXIT cfg); [right; split; [reflexivity | now apply Hnone] | now left]. }
  rewrite Hl in Hrun, Hlog. exists (fold_left merge pages fresh), w'.
  split; [exact Hrun|]. now rewrite range_pages_from.
Qed.

Lemma check_of_flow_out_of_fuel (cfg : config) (srv : server) (fuel : nat)
      (choices : list nat) (w w1 : world) :
  (if ENABLE_PARALLEL_FETCH cfg
   then parallel_fetch cfg srv choices
   else sequential_pages cfg srv fuel 1 fresh) w = (OutOfFuel, w1) ->
  check_ticket_availability cfg srv fuel choices w = (OutOfFuel, w1).
Proof.
  intros H. unfold check_ticket_availability, try_except. rewrite poll_cycle_unfold.
  unfold bind. now rewrite H.
Qed.

(** X6.  Sequential mode has no bound of its own on the number of pages:
    against an API whose every page has data and reports
    [has_more_items] (and, under early exit, holds nothing available) the
    loop is still running after any number [fuel] of iterations, having
    requested exactly the pages 1..[fuel]. *)
Theorem sequential_mode_has_no_page_limit
        (cfg : config) (srv : server) (choices : list nat) (w : world) :
  ENABLE_PARALLEL_FETCH cfg = false ->
  (forall page, (1 <= page)%Z -> keeps_paging cfg (srv page)) ->
  forall fuel : nat,
  exists w',
    check_ticket_availability cfg srv fuel choices w = (OutOfFuel, w')
    /\ log w' = log w ++ map Request (range 1 (1 + Z.of_nat fuel)).
Proof.
  intros Hseq Hsrv fuel.
  destruct (sequential_pages_keep_going cfg srv fuel 0 w) as [st [w' [Hrun Hlog]]].
  { intros page Hp. apply Hsrv. lia. }
  exists w'. split; [|exact Hlog].
  apply check_of_flow_out_of_fuel. rewrite Hseq.
  rewrite Nat.add_0_r in Hrun. rewrite Hrun. reflexivity.
Qed.

Lemma sequential_mode_has_no_page_limit_witness :
  exists w',
    check_ticket_availability (sequential true) endless 5 [] initial_world = (OutOfFuel, w')
    /\ log w' = log initial_world ++ map Request (range 1 (1 + Z.of_nat 5)).
Proof.
  apply (sequential_mode_has_no_page_limit (sequential true) endless [] initial_world).
  - reflexivity.
  - intros page _. eexists. split; [reflexivity|]. split; [split; reflexivity|].
    intros _. reflexivity.
Defined.

(** X7.  Sequential mode, a 429 on page [n+1] after [n] pages that keep
    the loop going: the cycle ends in [SystemExit(1)], and the log gains
    the requests for pages 1..[n+1] followed by the one notification
    attempt (with its webhook post, if configured) and nothing else: no
    request after the 429, no snapshot. *)
Theorem sequential_rate_limit_ends_cycle
        (cfg : config) (srv : server) (n fuel : nat) (choices : list nat) (w : world) :
  ENABLE_PARALLEL_FETCH cfg = false ->
  (forall page, (1 <= page < 1 + Z.of_nat n)%Z -> keeps_paging cfg (srv page)) ->
  is_rate_limited (srv (1 + Z.of_nat n)%Z) = true ->
  n < fuel ->
  exists w',
    check_ticket_availability cfg srv fuel choices w = (Raise (SystemExit 1), w')
    /\ log w' = log w ++ map Request (range 1 (2 + Z.of_nat n)) ++ rate_limit_events cfg.
Proof.
  intros Hseq Hsrv H429 Hfuel.
  destruct (sequential_pages_keep_going cfg srv n (S (fuel - S n)) w Hsrv)
    as [st [w1 [Hrun Hlog]]].
  replace (n + S (fuel - S n)) with fuel in Hrun by lia.
  destruct (srv (1 + Z.of_nat n)%Z) as [|status body] eqn:Es; [discriminate H429|].
  cbn [is_rate_limited] in H429. apply Z.eqb_eq in H429. subst status.
  exists (logged (sent w1 (1 + Z.of_nat n)) (rate_limit_events cfg)). split.
  - apply check_of_flow_exit. rewrite Hseq, Hrun. cbn [sequential_pages]. unfold bind.
    now rewrite (fetch_page_429 cfg srv _ body w1 Es).
  - unfold logged, sent. cbn [log]. rewrite Hlog, <- !app_assoc. f_equal.
    rewrite app_assoc. f_equal.
    replace (2 + Z.of_nat n)%Z with (1 + Z.of_nat (S n))%Z by lia.
    rewrite !range_pages_from. replace (S n) with (n + 1) by lia.
    rewrite pages_from_app, map_app. unfold pages_from at 2. simpl.
    now rewrite Z.add_0_r.
Qed.

Lemma sequential_rate_limit_ends_cycle_witness :
  exists w',
    check_ticket_availability (sequential false) rate_limited_api 2 [] initial_world
    = (Raise (SystemExit 1), w')
    /\ log w' = log initial_world ++ map Request (range 1 (2 + Z.of_nat 1))
                ++ rate_limit_events (sequential false).
Proof.
  apply (sequential_rate_limit_ends_cycle (sequential false) rate_limited_api 1 2 []
           initial_world).
  - reflexivity.
  - intros page Hp. assert (page = 1%Z) as -> by lia.
    eexists. split; [reflexivity|]. split; [split; reflexivity|]. discriminate.
  - reflexivity.
  - lia.
Defined.

Lemma forallb_Permutation {A} (f : A -> bool) (l l' : list A) :
  Permutation l l' -> forallb f l = forallb f l'.
Proof.
  induction 1; simpl; try congruence.
  now rewrite !andb_assoc, (andb_comm (f y)).
Qed.

Lemma classify_cases (r : http_result) :
  is_rate_limited r = false ->
  if is_failed r then classify r = Raise RequestException else exists d, classify r = Ok d.
Proof.
  destruct r as [|status body]; cbn [is_rate_limited is_failed classify]; [reflexivity|].
  intros ->. destruct (status =? 200)%Z; eexists; reflexivity.
Qed.

(** X8.  Concurrent mode, page 1 with data, none of the requests for pages
    2..[n] rate-limited: the verdict does not depend on the order in which
    the worker calls complete.  With early exit disabled it is [True]
    exactly when no request failed at transport level and some page holds
    an AVAILABLE entry; with early exit enabled the same holds when no
    request fails. *)
Theorem concurrent_verdict_independent_of_schedule
        (cfg : config) (srv : server) (fuel : nat) (choices : list nat) (w : world)
        (p : payload) (n : Z) :
  ENABLE_PARALLEL_FETCH cfg = true ->
  srv 1%Z = Response 200 p ->
  truthy (Some p) = true ->
  get_page_count (get_pagination p) = n ->
  (forall k, (2 <= k <= n)%Z -> is_rate_limited (srv k) = false) ->
  EARLY_EXIT cfg = false \/ (forall k, (2 <= k <= n)%Z -> is_failed (srv k) = false) ->
  fst (check_ticket_availability cfg srv fuel choices w)
  = Ok (forallb (fun k : Z => negb (is_failed (srv k))) (range 2 (n + 1))
        && some_page_available srv (1%Z :: range 2 (n + 1))).
Proof.
  intros Hpar H1 Ht Hn Hrate Hmode.
  assert (Hp1 : has_available (page_tickets (srv 1%Z)) = has_available (get_ticket_classes p))
    by now rewrite H1.
  unfold some_page_available. cbn [existsb]. rewrite Hp1.
  fold (some_page_available srv (range 2 (n + 1))).
  pose proof (parallel_fetch_first_page cfg srv choices w p H1 Ht) as Hpf. rewrite Hn in Hpf.
  assert (Hflow : forall r w1,
             parallel_fetch cfg srv choices w = (Ok r, w1) ->
             fst (check_ticket_availability cfg srv fuel choices w)
             = Ok match r with inl (v, _) => v | inr st => fst (evaluate cfg st) end).
  { intros r w1 H. destruct (check_of_flow cfg srv fuel choices w w1 r) as [w' Hc].
    - now rewrite Hpar.
    - now rewrite Hc. }
  assert (Hnofail_all : (forall k, (2 <= k <= n)%Z -> is_failed (srv k) = false) ->
             forallb (fun k : Z => negb (is_failed (srv k))) (range 2 (n + 1)) = true).
  { intros H. apply forallb_forall. intros k Hk. apply In_range in Hk.
    rewrite H by lia. reflexivity. }
  destruct (EARLY_EXIT cfg && has_available (get_ticket_classes p)) eqn:Hearly.
  { (* early exit on page 1 *)
    apply andb_prop in Hearly. destruct Hearly as [Hee Hha].
    destruct Hmode as [Hmode|Hmode]; [congruence|].
    rewrite (Hflow _ _ Hpf), Hha, (Hnofail_all Hmode). reflexivity. }
  destruct (n >? 1)%Z eqn:Hmany.
  2:{ (* a single page *)
    rewrite Z.gtb_ltb in Hmany. apply Z.ltb_ge in Hmany.
    rewrite (Hflow _ _ Hpf). rewrite (range_empty 2 (n + 1)) by lia.
    unfold some_page_available. cbn [forallb existsb andb]. rewrite orb_false_r.
    rewrite evaluate_verdict by reflexivity. reflexivity. }
  destruct (parallel_pages_run cfg srv choices n (merge fresh p) (sent w 1))
    as [order [w2 [Hperm [Hrun _]]]].
  rewrite Hrun in Hpf.
  rewrite <- (forallb_Permutation _ _ _ Hperm).
  unfold some_page_available at 1. rewrite <- (existsb_Permutation _ _ _ Hperm).
  fold (some_page_available srv order). rewrite <- existsb_future_tickets.
  assert (Hin : forall k, In k order -> (2 <= k <= n)%Z).
  { intros k Hk. apply (Permutation_in _ Hperm) in Hk. apply In_range in Hk. lia. }
  set (futs := map (fun k => (k, classify (srv k))) order) in *.
  destruct (forallb (fun k : Z => negb (is_failed (srv k))) order) eqn:Hfail.
  - (* no request failed: every future returned *)
    assert (Hok : Forall (fun f : future => exists d, snd f = Ok d) futs).
    { apply Forall_forall. intros f Hf. apply in_map_iff in Hf.
      destruct Hf as [k [<- Hk]]. cbn [snd].
      pose proof (classify_cases (srv k) (Hrate k (Hin k Hk))) as Hc.
      rewrite forallb_forall in Hfail. specialize (Hfail k Hk).
      apply negb_true_iff in Hfail. now rewrite Hfail in Hc. }
    destruct (collect_no_raise cfg futs (merge fresh p) Hok eq_refl) as [r [Hr Hspec]].
    rewrite Hr in Hpf. rewrite (Hflow _ _ Hpf). cbn [andb]. f_equal.
    destruct r as [[v st]|st].
    + destruct Hspec as [-> Hsome]. now rewrite Hsome, orb_true_r.
    + destruct Hspec as [Hav Hhas]. rewrite (evaluate_verdict cfg st Hav), Hhas.
      cbn [merge fresh all_ticket_classes app]. reflexivity.
  - (* some request failed at transport level *)
    destruct Hmode as [Hee|Hnofail].
    2:{ exfalso. assert (Hall : forallb (fun k : Z => negb (is_failed (srv k))) order = true).
        { apply forallb_forall. intros k Hk. rewrite (Hnofail k (Hin k Hk)). reflexivity. }
        congruence. }
    assert (Hmixed : Forall (fun f : future =>
                               (exists d, snd f = Ok d) \/ snd f = Raise RequestException) futs).
    { apply Forall_forall. intros f Hf. apply in_map_iff in Hf.
      destruct Hf as [k [<- Hk]]. cbn [snd].
      pose proof (classify_cases (srv k) (Hrate k (Hin k Hk))) as Hc.
      destruct (is_failed (srv k)); [now right | now left]. }
    assert (Hex : Exists (fun f : future => snd f = Raise RequestException) futs).
    { apply Exists_exists.
      assert (Hk : exists k, In k order /\ is_failed (srv k) = true).
      { clear -Hfail. induction order as [|k order IH]; [discriminate Hfail|].
        cbn [forallb] in Hfail. destruct (is_failed (srv k)) eqn:E.
        - exists k. split; [now left | exact E].
        - cbn [negb andb] in Hfail. destruct (IH Hfail) as [k' [Hk' E']].
          exists k'. split; [now right | exact E']. }
      destruct Hk as [k [Hk E]]. exists (k, classify (srv k)). split.
      - apply in_map_iff. now exists k.
      - cbn [snd]. pose proof (classify_cases (srv k) (Hrate k (Hin k Hk))) as Hc.
        now rewrite E in Hc. }
    rewrite (collect_failed cfg futs (merge fresh p) Hee Hmixed Hex) in Hpf.
    rewrite (check_of_flow_failed cfg srv fuel choices w w2); [reflexivity|].
    now rewrite Hpar.
Qed.

Lemma concurrent_verdict_independent_of_schedule_witness :
  fst (check_ticket_availability shipped second_page_unreachable 0 [3; 1] initial_world)
  = Ok (forallb (fun k : Z => negb (is_failed (second_page_unreachable k))) (range 2 (2 + 1))
        && some_page_available second_page_unreachable (1%Z :: range 2 (2 + 1))).
Proof.
  apply (concurrent_verdict_independent_of_schedule shipped second_page_unreachable 0 [3; 1]
           initial_world page_a 2).
  - reflexivity.
  - reflexivity.
  - reflexivity.
  - reflexivity.
  - intros k Hk. assert (k = 2%Z) as -> by lia. reflexivity.
  - left. reflexivity.
Defined.

Lemma rate_limit_events_notification (cfg : config) :
  rate_limit_events cfg = notification_events cfg RateLimitMessage.
Proof. reflexivity. Qed.

Lemma grows_send_discord_notification (B : list event -> Prop) (cfg : config) (m : message) :
  B (notification_events cfg m) -> grows B (send_discord_notification cfg m).
Proof.
  intros HB w r w' H. unfold send_discord_notification, bind, emit, notification_events in *.
  cbn in H. exists (notification_events cfg m). split; [|now apply made_of_block].
  unfold notification_events.
  destruct (DISCORD_WEBHOOK_URL cfg); cbn in H; injection H as _ <-; cbn [log];
    rewrite <- ?app_assoc; reflexivity.
Qed.

Lemma grows_check (cfg : config) (srv : server) (fuel : nat) (choices : list nat) :
  grows (cycle_block cfg) (check_ticket_availability cfg srv fuel choices).
Proof.
  unfold check_ticket_availability. apply grows_try_except; [|intros e; apply grows_ret].
  apply grows_bind; [|intros v; apply grows_ret].
  rewrite poll_cycle_unfold. apply grows_bind.
  - apply (grows_impl (fetch_block cfg)); [intros b; apply fetch_events|].
    apply loops_grow.
  - intros [v|st]; [apply grows_ret|]. unfold finish.
    apply grows_bind; [|intros; apply grows_ret].
    destruct (SAVE_JSON_RESPONSE cfg); [|apply grows_ret].
    apply grows_emit. apply snapshot_block.
Qed.

Lemma grows_monitor (cfg : config) (env : nat -> cycle_env) (page_fuel fuel : nat) :
  forall attempts, grows (monitor_block cfg) (monitor cfg env page_fuel fuel attempts).
Proof.
  induction fuel as [|fuel IH]; intros attempts; cbn [monitor].
  - apply grows_out_of_fuel.
  - destruct (env (S attempts)) as [srv choices]. apply grows_bind.
    + apply (grows_impl (cycle_block cfg)); [intros b; apply cycle_events|]. apply grows_check.
    + intros [|].
      * apply grows_bind.
        -- apply grows_send_discord_notification. apply availability_block.
        -- intros _. apply grows_emit. apply purchase_block.
      * apply grows_bind; [apply grows_emit; apply sleep_block|]. intros _. apply IH.
Qed.

Lemma posts_app (l1 l2 : list event) : posts (l1 ++ l2) = posts l1 ++ posts l2.
Proof.
  induction l1 as [|e l1 IH]; [reflexivity|]. destruct e; simpl; rewrite ?IH; reflexivity.
Qed.

Lemma sleeps_app (l1 l2 : list event) : sleeps (l1 ++ l2) = sleeps l1 + sleeps l2.
Proof.
  induction l1 as [|e l1 IH]; [reflexivity|]. destruct e; simpl; rewrite ?IH; reflexivity.
Qed.

Lemma purchases_app (l1 l2 : list event) : purchases (l1 ++ l2) = purchases l1 + purchases l2.
Proof.
  induction l1 as [|e l1 IH]; [reflexivity|]. destruct e; simpl; rewrite ?IH; reflexivity.
Qed.

Lemma cycles_app (l1 l2 : list event) : cycles (l1 ++ l2) = cycles l1 + cycles l2.
Proof. unfold cycles. now rewrite requests_app, count_occ_app. Qed.

(** X9.  In every run of the monitoring loop, with a webhook configured
    each notification attempt is one POST to that webhook with the same
    message, in the same order; without one nothing is ever posted. *)
Theorem webhook_posts_match_notifications
        (cfg : config) (env : nat -> cycle_env) (page_fuel fuel attempts : nat) (w : world) :
  exists new : list event,
    log (snd (monitor cfg env page_fuel fuel attempts w)) = log w ++ new
    /\ posts new = match DISCORD_WEBHOOK_URL cfg with
                   | None => []
                   | Some hook => map (pair hook) (notifications new)
                   end.
Proof.
  destruct (monitor cfg env page_fuel fuel attempts w) as [r w'] eqn:E.
  destruct (grows_monitor cfg env page_fuel fuel attempts w r w' E) as [new [Hl Hn]].
  exists new. split; [exact Hl|]. clear -Hn.
  induction Hn as [|b l Hb Hl IH].
  - now destruct (DISCORD_WEBHOOK_URL cfg).
  - rewrite posts_app, notifications_app, IH.
    assert (Hblock : posts b = match DISCORD_WEBHOOK_URL cfg with
                               | None => []
                               | Some hook => map (pair hook) (notifications b)
                               end).
    { assert (Hnote : forall m, posts (notification_events cfg m)
                                = match DISCORD_WEBHOOK_URL cfg with
                                  | None => []
                                  | Some hook => map (pair hook)
                                                   (notifications (notification_events cfg m))
                                  end).
      { intros m. unfold notification_events. now destruct (DISCORD_WEBHOOK_URL cfg). }
      destruct Hb as [b1 [b2 [page|]|total pages]| |k|]; try apply Hnote;
        now destruct (DISCORD_WEBHOOK_URL cfg). }
    rewrite Hblock. destruct (DISCORD_WEBHOOK_URL cfg); [now rewrite map_app | reflexivity].
Qed.

Section Oblivious.

Lemma oblivious_ret {A} (a : A) : oblivious (@ret world A a).
Proof. intros w w0. reflexivity. Qed.

Lemma oblivious_bind {A C} (m : M world A) (k : A -> M world C) :
  oblivious m -> (forall a, oblivious (k a)) -> oblivious (bind m k).
Proof.
  intros Hm Hk w w0. unfold bind. specialize (Hm w w0).
  destruct (m w) as [[a|e|] w1], (m w0) as [[a0|e0|] w2]; cbn [fst] in Hm;
    try discriminate Hm; try (injection Hm as <-); try reflexivity.
  apply Hk.
Qed.

Lemma oblivious_try_except {A} (m : M world A) (handles : exn -> bool) (h : exn -> M world A) :
  oblivious m -> (forall e, oblivious (h e)) -> oblivious (try_except m handles h).
Proof.
  intros Hm Hh w w0. unfold try_except. specialize (Hm w w0).
  destruct (m w) as [[a|e|] w1], (m w0) as [[a0|e0|] w2]; cbn [fst] in Hm;
    try discriminate Hm; try (injection Hm as <-); try reflexivity.
  destruct (handles e); [apply Hh | reflexivity].
Qed.

Variable cfg : config.
Variable srv : server.

Lemma oblivious_fetch_page (page : Z) : oblivious (fetch_page cfg srv page).
Proof. intros w w0. now rewrite !fetch_page_result. Qed.

Lemma oblivious_sequential_pages (fuel : nat) :
  forall (page : Z) (st : locals), oblivious (sequential_pages cfg srv fuel page st).
Proof.
  induction fuel as [|fuel IH]; intros page st; cbn [sequential_pages].
  - intros w w0. reflexivity.
  - apply oblivious_bind; [apply oblivious_fetch_page|]. intros [p|]; [|apply oblivious_ret].
    destruct (negb (truthy (Some p))); [apply oblivious_ret|]. cbv zeta.
    destruct (EARLY_EXIT cfg);
      repeat match goal with
             | |- oblivious (if ?c then _ else _) => destruct c
             | |- oblivious (ret _) => apply oblivious_ret
             | |- oblivious (sequential_pages _ _ _ _ _) => apply IH
             end.
Qed.

Lemma oblivious_parallel_pages (choices : list nat) (n : Z) (st : locals) :
  oblivious (parallel_pages cfg srv choices n st).
Proof.
  intros w w0. unfold parallel_pages.
  match goal with |- context [run_pool cfg srv ?evs w] =>
    pose proof (run_pool_futures cfg srv evs w) as H1;
    pose proof (run_pool_futures cfg srv evs w0) as H2;
    destruct (run_pool cfg srv evs w) as [f1 w1], (run_pool cfg srv evs w0) as [f2 w2] end.
  cbn [fst] in *. now rewrite H1, H2.
Qed.

Lemma oblivious_parallel_fetch (choices : list nat) :
  oblivious (parallel_fetch cfg srv choices).
Proof.
  unfold parallel_fetch. apply oblivious_bind; [apply oblivious_fetch_page|].
  intros [p|]; [|apply oblivious_ret].
  destruct (negb (truthy (Some p))); [apply oblivious_ret|]. cbv zeta.
  destruct (EARLY_EXIT cfg);
    repeat match goal with
           | |- oblivious (if ?c then _ else _) => destruct c
           | |- oblivious (ret _) => apply oblivious_ret
           | |- oblivious (parallel_pages _ _ _ _ _) => apply oblivious_parallel_pages
           end.
Qed.

Lemma oblivious_check (fuel : nat) (choices : list nat) :
  oblivious (check_ticket_availability cfg srv fuel choices).
Proof.
  unfold check_ticket_availability.
  apply oblivious_try_except; [|intros e; apply oblivious_ret].
  apply oblivious_bind; [|intros v; apply oblivious_ret].
  rewrite poll_cycle_unfold. apply oblivious_bind.
  - destruct (ENABLE_PARALLEL_FETCH cfg);
      [apply oblivious_parallel_fetch | apply oblivious_sequential_pages].
  - intros [v|st]; [apply oblivious_ret|]. unfold finish.
    apply oblivious_bind; [|intros; apply oblivious_ret].
    destruct (SAVE_JSON_RESPONSE cfg); [|apply oblivious_ret]. intros w w0. reflexivity.
Qed.

End Oblivious.

Lemma check_outcome (cfg : config) (env : nat -> cycle_env) (page_fuel j : nat) (w : world) :
  fst (check_ticket_availability cfg (fst (env j)) page_fuel (snd (env j)) w)
  = outcome cfg (env j) page_fuel.
Proof. apply oblivious_check. Qed.

Lemma monitor_unroll (cfg : config) (env : nat -> cycle_env) (page_fuel fuel attempts : nat)
      (w : world) :
  monitor cfg env page_fuel (S fuel) attempts w
  = match check_ticket_availability cfg (fst (env (S attempts))) page_fuel
            (snd (env (S attempts))) w with
    | (Ok true, w1) =>
        (Ok tt, logged w1 (notification_events cfg (AvailabilityMessage (S attempts))
                           ++ [PurchaseAttempt]))
    | (Ok false, w1) => monitor cfg env page_fuel fuel (S attempts) (logged w1 [Sleep])
    | (Raise e, w1) => (Raise e, w1)
    | (OutOfFuel, w1) => (OutOfFuel, w1)
    end.
Proof.
  cbn [monitor]. destruct (env (S attempts)) as [srv choices]. cbn [fst snd]. unfold bind at 1.
  destruct (check_ticket_availability cfg srv page_fuel choices w) as [[[|]|e|] w1];
    try reflexivity.
  unfold send_discord_notification, notification_events, bind, emit, ret, logged.
  destruct (DISCORD_WEBHOOK_URL cfg); cbn [log request_counter app];
    rewrite <- ?app_assoc; reflexivity.
Qed.

Lemma cycle_blocks_quiet (cfg : config) (c : list event) :
  made_of (cycle_block cfg) c ->
  sleeps c = 0 /\ purchases c = 0 /\ Forall (eq RateLimitMessage) (notifications c).
Proof.
  induction 1 as [|b l Hb Hl [IHs [IHp IHn]]]; [repeat split; constructor|].
  rewrite sleeps_app, purchases_app, notifications_app, IHs, IHp.
  assert (Hblock : sleeps b = 0 /\ purchases b = 0 /\ Forall (eq RateLimitMessage) (notifications b)).
  { destruct Hb as [b [page|]|total pages]; try (repeat split; constructor).
    unfold rate_limit_events. destruct (DISCORD_WEBHOOK_URL cfg);
      repeat split; repeat constructor. }
  destruct Hblock as [-> [-> Hn]]. repeat split. apply Forall_app. now split.
Qed.

Lemma count_occ_range_one (k : nat) :
  count_occ Z.eq_dec (range 1 (1 + Z.of_nat k)) 1%Z = match k with O => 0 | S _ => 1 end.
Proof.
  destruct k as [|k]; [reflexivity|].
  rewrite range_cons by lia. cbn [count_occ]. destruct (Z.eq_dec 1 1) as [_|N]; [|congruence].
  f_equal. apply count_occ_not_In. rewrite In_range. lia.
Qed.

Lemma cycle_footprint (cfg : config) (srv : server) (fuel : nat) (choices : list nat)
      (w : world) :
  exists c : list event,
    log (snd (check_ticket_availability cfg srv fuel choices w)) = log w ++ c
    /\ made_of (cycle_block cfg) c
    /\ cycles c <= 1
    /\ (fst (check_ticket_availability cfg srv fuel choices w) <> OutOfFuel -> cycles c = 1).
Proof.
  destruct (check_ticket_availability cfg srv fuel choices w) as [r w'] eqn:E.
  destruct (grows_check cfg srv fuel choices w r w' E) as [c [Hl Hc]].
  exists c. cbn [fst snd]. split; [exact Hl|]. split; [exact Hc|].
  assert (Hreq : exists k, requests c = range 1 (1 + Z.of_nat k) /\ (r <> OutOfFuel -> 1 <= k)).
  { assert (Hw : w' = snd (check_ticket_availability cfg srv fuel choices w)) by now rewrite E.
    rewrite Hw, check_world, poll_cycle_unfold in Hl.
    destruct (after_loops_log cfg
                (if ENABLE_PARALLEL_FETCH cfg
                 then parallel_fetch cfg srv choices
                 else sequential_pages cfg srv fuel 1 fresh) w) as [Hreq _].
    unfold after_loops in Hreq.
    apply (f_equal requests) in Hl. rewrite Hreq, requests_app in Hl.
    destruct (ENABLE_PARALLEL_FETCH cfg) eqn:Hpar.
    - destruct (parallel_fetch_requests cfg srv choices w) as [k [Hk Hr]].
      rewrite Hr in Hl. apply app_inv_head in Hl. exists k.
      split; [now rewrite range_from_one | intros _; exact Hk].
    - destruct (sequential_pages_requests cfg srv fuel 1 fresh w) as [k [Hk [Hk1 Hr]]].
      rewrite Hr in Hl. apply app_inv_head in Hl. exists k.
      split; [now rewrite range_from_one|]. intros Hr'. apply Hk1. intros ->.
      apply Hr'. unfold check_ticket_availability, try_except in E.
      rewrite poll_cycle_unfold, Hpar in E. cbn in E. now injection E as <- _. }
  destruct Hreq as [k [Hreq Hk]]. unfold cycles. rewrite Hreq, count_occ_range_one.
  split; [destruct k; lia|]. intros Hr. specialize (Hk Hr). destruct k; [lia | reflexivity].
Qed.

Lemma notification_events_quiet (cfg : config) (m : message) :
  sleeps (notification_events cfg m) = 0
  /\ purchases (notification_events cfg m) = 0
  /\ cycles (notification_events cfg m) = 0
  /\ notifications (notification_events cfg m) = [m].
Proof. unfold notification_events. destruct (DISCORD_WEBHOOK_URL cfg); repeat split. Qed.

(** The loop, cycle by cycle. *)
Lemma monitor_cycle (cfg : config) (env : nat -> cycle_env) (page_fuel fuel attempts : nat)
      (w : world) :
  exists (c : list event) (w1 : world),
    log w1 = log w ++ c
    /\ made_of (cycle_block cfg) c /\ cycles c <= 1
    /\ (outcome cfg (env (S attempts)) page_fuel <> OutOfFuel -> cycles c = 1)
    /\ monitor cfg env page_fuel (S fuel) attempts w
       = match outcome cfg (env (S attempts)) page_fuel with
         | Ok true =>
             (Ok tt, logged w1 (notification_events cfg (AvailabilityMessage (S attempts))
                                ++ [PurchaseAttempt]))
         | Ok false => monitor cfg env page_fuel fuel (S attempts) (logged w1 [Sleep])
         | Raise e => (Raise e, w1)
         | OutOfFuel => (OutOfFuel, w1)
         end.
Proof.
  destruct (cycle_footprint cfg (fst (env (S attempts))) page_fuel (snd (env (S attempts))) w)
    as [c [Hl [Hc [Hle Hone]]]].
  rewrite check_outcome in Hone.
  exists c, (snd (check_ticket_availability cfg (fst (env (S attempts))) page_fuel
                    (snd (env (S attempts))) w)).
  split; [exact Hl|]. split; [exact Hc|]. split; [exact Hle|]. split; [exact Hone|].
  rewrite monitor_unroll. rewrite <- (check_outcome cfg env page_fuel (S attempts) w).
  destruct (check_ticket_availability cfg _ page_fuel _ w) as [[[|]|e|] w1]; reflexivity.
Qed.

Lemma unpaced_app_no_sleep (c t : list event) :
  forall seen : bool,
    sleeps c = 0 ->
    unpaced seen (c ++ t) = unpaced seen c || unpaced (seen || (0 <? cycles c)%nat) t.
Proof.
  induction c as [|e c IH]; intros seen Hs.
  - cbn [app unpaced cycles requests count_occ]. now rewrite orb_false_r.
  - destruct e as [page|m|hook m|total pages| |]; cbn [sleeps] in Hs; try discriminate Hs;
      cbn [app unpaced]; try (rewrite (IH _ Hs); reflexivity).
    unfold cycles. cbn [requests count_occ].
    destruct (Z.eq_dec page 1) as [->|Hne].
    + cbn [Z.eqb Pos.eqb]. rewrite (IH _ Hs). cbn [orb]. rewrite orb_true_r, orb_assoc.
      reflexivity.
    + replace (page =? 1)%Z with false by (symmetry; now apply Z.eqb_neq).
      rewrite (IH _ Hs). reflexivity.
Qed.

Lemma unpaced_no_sleep (c : list event) :
  forall seen : bool,
    sleeps c = 0 -> unpaced seen c = true -> (if seen then 1 else 2) <= cycles c.
Proof.
  induction c as [|e c IH]; intros seen Hs Hu; [discriminate Hu|].
  destruct e as [page|m|hook m|total pages| |]; cbn [sleeps] in Hs; try discriminate Hs;
    cbn [unpaced] in Hu; try exact (IH _ Hs Hu).
  unfold cycles in *. cbn [requests count_occ].
  destruct (Z.eq_dec page 1) as [->|Hne].
  - cbn [Z.eqb Pos.eqb] in Hu. destruct seen; [lia|]. cbn [orb] in Hu.
    specialize (IH true Hs Hu). cbn iota in IH. lia.
  - replace (page =? 1)%Z with false in Hu by (symmetry; now apply Z.eqb_neq).
    exact (IH _ Hs Hu).
Qed.

Lemma unpaced_cycle (c : list event) :
  sleeps c = 0 -> cycles c <= 1 -> unpaced false c = false.
Proof.
  intros Hs Hc. destruct (unpaced false c) eqn:E; [|reflexivity].
  pose proof (unpaced_no_sleep c false Hs E). cbn iota in *. lia.
Qed.

(** Two requests for page 1 with no sleep in between are what [unpaced]
    detects. *)
Lemma unpaced_split (before between after : list event) :
  forall seen : bool,
    unpaced seen (before ++ Request 1 :: between ++ Request 1 :: after) = false ->
    In Sleep between.
Proof.
  assert (Hbetween : forall l, unpaced true (l ++ Request 1 :: after) = false -> In Sleep l).
  { induction l as [|e l IH]; intros H.
    - cbn in H. discriminate H.
    - destruct e as [page|m|hook m|total pages| |]; cbn [app unpaced] in H;
        try (right; exact (IH H)); [|now left].
      destruct (page =? 1)%Z; [discriminate H | right; exact (IH H)]. }
  induction before as [|e before IH]; intros seen H.
  - cbn [app unpaced Z.eqb Pos.eqb] in H. apply orb_false_elim in H. apply Hbetween, H.
  - destruct e as [page|m|hook m|total pages| |]; cbn [app unpaced] in H;
      try exact (IH _ H).
    destruct (page =? 1)%Z; [|exact (IH _ H)].
    apply orb_false_elim in H. exact (IH _ (proj2 H)).
Qed.

(** The log of a run of the loop, whatever its end. *)
Lemma monitor_log (cfg : config) (env : nat -> cycle_env) (page_fuel fuel : nat) :
  forall (attempts : nat) (w : world),
  exists new : list event,
    log (snd (monitor cfg env page_fuel fuel attempts w)) = log w ++ new
    /\ unpaced false new = false
    /\ match fst (monitor cfg env page_fuel fuel attempts w) with
       | Ok _ =>
           exists before,
             new = before
                   ++ notification_events cfg (AvailabilityMessage (attempts + cycles new))
                   ++ [PurchaseAttempt]
             /\ purchases before = 0
             /\ Forall (eq RateLimitMessage) (notifications before)
             /\ sleeps new + 1 = cycles new
       | _ =>
           purchases new = 0 /\ Forall (eq RateLimitMessage) (notifications new)
       end.
Proof.
  induction fuel as [|fuel IH]; intros attempts w.
  - exists []. cbn [monitor fst snd]. rewrite app_nil_r. repeat split. constructor.
  - destruct (monitor_cycle cfg env page_fuel fuel attempts w)
      as [c [w1 [Hl [Hc [Hle [Hone Hm]]]]]].
    destruct (cycle_blocks_quiet cfg c Hc) as [Hcs [Hcp Hcn]].
    pose proof (unpaced_cycle c Hcs Hle) as Hcu.
    rewrite Hm. destruct (outcome cfg (env (S attempts)) page_fuel) as [[|]|e|] eqn:Eo.
    + (* available: notify and attempt the purchase *)
      specialize (Hone ltac:(discriminate)).
      destruct (notification_events_quiet cfg (AvailabilityMessage (S attempts)))
        as [Hns [Hnp [Hnc Hnn]]].
      exists (c ++ notification_events cfg (AvailabilityMessage (S attempts))
                ++ [PurchaseAttempt]).
      cbn [fst snd logged log]. rewrite Hl, <- app_assoc. split; [reflexivity|].
      assert (Hcy : cycles (c ++ notification_events cfg (AvailabilityMessage (S attempts))
                              ++ [PurchaseAttempt]) = 1).
      { rewrite !cycles_app, Hone, Hnc. reflexivity. }
      split.
      * rewrite (unpaced_app_no_sleep c _ false Hcs), Hcu. cbn [orb].
        unfold notification_events. now destruct (DISCORD_WEBHOOK_URL cfg).
      * exists c. rewrite Hcy. replace (attempts + 1) with (S attempts) by lia.
        split; [reflexivity|]. split; [exact Hcp|]. split; [exact Hcn|].
        rewrite !sleeps_app, Hcs, Hns. reflexivity.
    + (* not available: sleep and poll again *)
      specialize (Hone ltac:(discriminate)).
      destruct (IH (S attempts) (logged w1 [Sleep])) as [new' [Hl' [Hu' Hend]]].
      exists (c ++ Sleep :: new'). rewrite Hl'. cbn [logged log].
      rewrite Hl, <- !app_assoc. split; [reflexivity|]. split.
      * rewrite (unpaced_app_no_sleep c _ false Hcs), Hcu. cbn [orb unpaced]. exact Hu'.
      * assert (Hcy : cycles (c ++ Sleep :: new') = S (cycles new')).
        { rewrite cycles_app, Hone. reflexivity. }
        destruct (fst (monitor cfg env page_fuel fuel (S attempts) (logged w1 [Sleep])))
          as [[]|e|].
        -- destruct Hend as [before [Hnew [Hp [Hn Hsl]]]].
           exists (c ++ Sleep :: before). rewrite Hcy.
           replace (attempts + S (cycles new')) with (S attempts + cycles new') by lia.
           split; [rewrite Hnew at 1; now rewrite <- app_assoc|].
           split; [rewrite purchases_app, Hcp; exact Hp|].
           split; [rewrite notifications_app; apply Forall_app; now split|].
           change (Sleep :: new') with ([Sleep] ++ new').
           rewrite !sleeps_app, Hcs. cbn [sleeps]. lia.
        -- destruct Hend as [Hp Hn].
           split; [rewrite purchases_app, Hcp; exact Hp|].
           rewrite notifications_app; apply Forall_app; now split.
        -- destruct Hend as [Hp Hn].
           split; [rewrite purchases_app, Hcp; exact Hp|].
           rewrite notifications_app; apply Forall_app; now split.
    + exists c. cbn [fst snd]. auto.
    + exists c. cbn [fst snd]. auto.
Qed.


(** X11.  In every run of the monitoring loop two requests for page 1, the
    page each poll cycle starts with, are separated by a sleep of
    [POLL_INTERVAL]. *)
Theorem page_one_requests_are_paced
        (cfg : config) (env : nat -> cycle_env) (page_fuel fuel attempts : nat) (w : world)
        (before between after : list event) :
  log (snd (monitor cfg env page_fuel fuel attempts w))
  = log w ++ before ++ Request 1 :: between ++ Request 1 :: after ->
  In Sleep between.
Proof.
  intros Hlog. destruct (monitor_log cfg env page_fuel fuel attempts w) as [new [Hl [Hu _]]].
  rewrite Hl in Hlog. apply app_inv_head in Hlog. subst new.
  exact (unpaced_split before between after false Hu).
Qed.

Lemma page_one_requests_are_paced_witness :
  In Sleep [SavedJson 1 1; Sleep].
Proof.
  apply (page_one_requests_are_paced shipped (fun _ => (sold_out, [])) 0 2 0 initial_world
           [] [SavedJson 1 1; Sleep] [SavedJson 1 1; Sleep]).
  vm_compute. reflexivity.
Defined.




(** * Further properties of the checkout automation *)

Import Automation.

Lemma clicks_app (l1 l2 : list event) : clicks (l1 ++ l2) = clicks l1 ++ clicks l2.
Proof.
  induction l1 as [|e l1 IH]; simpl; [reflexivity|].
  destruct e as [A c| | |]; try exact IH.
  destruct c; simpl; now rewrite ?IH.
Qed.


Section Silent.

Variable browser : Type.
Variable driver : forall A : Type, call A -> browser -> (A + webdriver_error) * browser.
Variable X : Type.
Variable proj : list event -> list X.
Hypothesis proj_app : forall l1 l2, proj (l1 ++ l2) = proj l1 ++ proj l2.

Lemma silent_ret {A} (a : A) : silent (browser := browser) proj (ret a).
Proof. intros s r s' H. now injection H as _ <-. Qed.

Lemma silent_raise {A} (e : exn) : silent proj (@raise (session browser) A e).
Proof. intros s r s' H. now injection H as _ <-. Qed.

Lemma silent_record (e : event) : proj [e] = [] -> silent proj (record (browser := browser) e).
Proof.
  intros He s r s' H. injection H as _ <-. cbn [trace]. now rewrite proj_app, He, app_nil_r.
Qed.

Lemma silent_assign (d : option element) :
  silent proj (assign_available_date (browser := browser) d).
Proof. intros s r s' H. now injection H as _ <-. Qed.

Lemma silent_read : silent proj (read_available_date (browser := browser)).
Proof. intros s r s' H. now injection H as _ <-. Qed.

Lemma silent_perform {A} (c : call A) : proj [Called c] = [] -> silent proj (perform driver c).
Proof.
  intros Hc s r s' H. apply (perform_trace browser driver) in H. destruct H as [-> _].
  now rewrite proj_app, Hc, app_nil_r.
Qed.

Lemma silent_bind {A B} (m : M (session browser) A) (k : A -> M (session browser) B) :
  silent proj m -> (forall a, silent proj (k a)) -> silent proj (bind m k).
Proof.
  intros Hm Hk s r s' H. unfold bind in H.
  destruct (m s) as [[a|e|] s1] eqn:E.
  - apply Hk in H. apply Hm in E. congruence.
  - injection H as _ <-. now apply Hm in E.
  - injection H as _ <-. now apply Hm in E.
Qed.

Lemma silent_try_except {A} (m : M (session browser) A) (handles : exn -> bool)
      (h : exn -> M (session browser) A) :
  silent proj m -> (forall e, silent proj (h e)) -> silent proj (try_except m handles h).
Proof.
  intros Hm Hh s r s' H. unfold try_except in H.
  destruct (m s) as [[a|e|] s1] eqn:E.
  - injection H as _ <-. now apply Hm in E.
  - destruct (handles e).
    + apply Hh in H. apply Hm in E. congruence.
    + injection H as _ <-. now apply Hm in E.
  - injection H as _ <-. now apply Hm in E.
Qed.

Lemma silent_for_each {A} (body : A -> M (session browser) bool) (l : list A) :
  (forall x, silent proj (body x)) -> silent proj (for_each body l).
Proof.
  intros Hb. induction l as [|x l IH]; cbn [for_each].
  - apply silent_ret.
  - apply silent_bind; [apply Hb|]. intros [|]; [apply silent_ret | exact IH].
Qed.

End Silent.

Section SilentSteps.

Variable browser : Type.
Variable driver : forall A : Type, call A -> browser -> (A + webdriver_error) * browser.
Variable X : Type.
Variable proj : list event -> list X.
Hypothesis proj_app : forall l1 l2, proj (l1 ++ l2) = proj l1 ++ proj l2.
Hypothesis proj_printed : forall line, proj [Printed line] = [].
Hypothesis proj_wait : forall c by_ selector, proj [Called (WaitUntil c by_ selector)] = [].

Lemma silent_say (line : string) : silent proj (say (browser := browser) line).
Proof. apply silent_record; [exact proj_app | apply proj_printed]. Qed.

Lemma silent_first_clickable (found : string) (selectors : list string) :
  silent proj (first_clickable driver found selectors).
Proof.
  induction selectors as [|selector rest IH]; cbn [first_clickable].
  - apply silent_ret.
  - apply silent_try_except; [|intros _; exact IH].
    apply silent_bind; [apply silent_perform; [exact proj_app | apply proj_wait]|].
    intros e. apply silent_bind; [apply silent_say | intros _; apply silent_ret].
Qed.

End SilentSteps.

Ltac silent_step Happ :=
  lazymatch goal with
  | |- silent _ (bind _ _) => apply silent_bind; [|intros ?]
  | |- silent _ (try_except _ _ _) => apply silent_try_except; [|intros ?]
  | |- silent _ (or_continue _) => apply silent_try_except; [|intros ?]
  | |- silent _ (ret _) => apply silent_ret
  | |- silent _ (raise _) => apply silent_raise
  | |- silent _ (say _) => apply (silent_record _ _ _ Happ); reflexivity
  | |- silent _ (record _) => apply (silent_record _ _ _ Happ); reflexivity
  | |- silent _ (assign_available_date _) => apply silent_assign
  | |- silent _ (@read_available_date _) => apply silent_read
  | |- silent _ (perform _ _) => apply (silent_perform _ _ _ _ Happ); reflexivity
  | |- silent _ (wait_clickable _ _ _) => apply (silent_perform _ _ _ _ Happ); reflexivity
  | |- silent _ (first_clickable _ _ _) =>
      apply silent_first_clickable; [exact Happ | intros; reflexivity | intros; reflexivity]
  | |- silent _ (for_each _ _) => apply silent_for_each; intros ?
  | |- silent _ (if ?b then _ else _) => destruct b
  | |- silent _ (match ?x with _ => _ end) => destruct x
  end.

Ltac silent_all Happ := repeat silent_step Happ.

Section Steps.

Variable browser : Type.
Variable driver : forall A : Type, call A -> browser -> (A + webdriver_error) * browser.

(** ** The resolver when no candidate resolves *)

(** X13.  When every candidate of the list times out, selector resolution
    yields no element ([None]): each candidate has been waited for once,
    in list order, and nothing has been clicked. *)
Theorem first_clickable_exhausted
        (found : string) (selectors : list string) (s s' : session browser) :
  all_time_out browser driver selectors s s' ->
  first_clickable driver found selectors s = (Ok None, s')
  /\ attempts (trace s') = attempts (trace s) ++ map (pair CSS_SELECTOR) selectors
  /\ clicks (trace s') = clicks (trace s).
Proof.
  induction 1 as [s|selector rest s s1 s2 Hwait Hrest [IHrun [IHatt IHcl]]].
  - cbn [first_clickable map]. rewrite app_nil_r. repeat split.
  - cbn [first_clickable]. unfold try_except at 1. unfold bind at 1. rewrite Hwait.
    cbn [is_TimeoutException]. split; [exact IHrun|].
    apply (perform_trace browser driver) in Hwait. destruct Hwait as [Ht _].
    rewrite IHatt, IHcl, Ht, attempts_app, clicks_app. cbn [map].
    simpl. rewrite <- app_assoc, app_nil_r. split; reflexivity.
Qed.

(** X14.  A candidate whose wait fails with an error other than a timeout
    (an invalid selector, a lost session) ends the resolution with that
    error: the candidates after it are not attempted. *)
Theorem first_clickable_error_aborts
        (found : string) (earlier : list string) (culprit : string) (later : list string)
        (s s1 s2 : session browser) (e : exn) :
  all_time_out browser driver earlier s s1 ->
  wait_clickable driver CSS_SELECTOR culprit s1 = (Raise e, s2) ->
  e <> TimeoutException ->
  first_clickable driver found (earlier ++ culprit :: later) s = (Raise e, s2)
  /\ attempts (trace s2)
     = attempts (trace s) ++ map (pair CSS_SELECTOR) (earlier ++ [culprit]).
Proof.
  intros Hto Hwait He. induction Hto as [s|selector rest s sa sb Hw Hrest IH].
  - cbn [app first_clickable]. unfold try_except, bind. rewrite Hwait.
    replace (is_TimeoutException e) with false by (destruct e; try reflexivity; congruence).
    split; [reflexivity|].
    apply (perform_trace browser driver) in Hwait. destruct Hwait as [Ht _].
    rewrite Ht, attempts_app. reflexivity.
  - destruct (IH Hwait) as [Hrun Hatt].
    cbn [app first_clickable]. unfold try_except at 1. unfold bind at 1.
    rewrite Hw. cbn [is_TimeoutException]. split; [exact Hrun|].
    apply (perform_trace browser driver) in Hw. destruct Hw as [Ht _].
    rewrite Hatt, Ht, attempts_app. simpl. now rewrite <- app_assoc.
Qed.

End Steps.

Section Search.

Variable browser : Type.
Variable driver : forall A : Type, call A -> browser -> (A + webdriver_error) * browser.

(** A [try] whose handler takes every [Exception] returns when its body
    raises nothing else and the handler returns. *)
Lemma returns_try_except {A} (m : M (session browser) A) (h : exn -> M (session browser) A) :
  tame m -> (forall e, returns (h e)) -> returns (try_except m is_Exception h).
Proof.
  intros Hm Hh s. unfold try_except. destruct (m s) as [[a|e|] s1] eqn:E.
  - now exists a, s1.
  - rewrite (Hm _ _ _ E). apply Hh.
  - destruct (Hm _ _ _ E).
Qed.

Lemma returns_say (line : string) : returns (say (browser := browser) line).
Proof. intros s. eexists. eexists. reflexivity. Qed.

Lemma tame_search_widget_body_and_calendar :
  returns (search_widget driver) /\ returns (search_calendar driver).
Proof.
  split.
  - unfold search_widget. apply returns_try_except; [|intros e; apply returns_say].
    unfold show_button, try_date_element, try_list_item.
    repeat match goal with
           | |- tame (bind _ _) => apply tame_bind; [|intros ?]
           | |- tame (try_except _ _ _) => apply tame_try_except; [|intros ?]
           | |- tame (or_continue _) => apply tame_try_except; [|intros ?]
           | |- tame (ret _) => apply tame_ret
           | |- tame (raise _) => apply tame_raise; reflexivity
           | |- tame (say _) => apply tame_record
           | |- tame (record _) => apply tame_record
           | |- tame (assign_available_date _) => apply tame_assign
           | |- tame (@read_available_date _) => apply tame_read
           | |- tame (perform _ _) => apply tame_perform
           | |- tame (for_each _ _) => apply tame_for_each; intros ?
           | |- tame (if ?b then _ else _) => destruct b
           | |- tame (match ?x with _ => _ end) => destruct x
           end.
  - unfold search_calendar. intros s. unfold bind at 1. rewrite say_run.
    apply returns_try_except; [|intros e; apply returns_say].
    unfold try_calendar_button.
    repeat match goal with
           | |- tame (bind _ _) => apply tame_bind; [|intros ?]
           | |- tame (try_except _ _ _) => apply tame_try_except; [|intros ?]
           | |- tame (or_continue _) => apply tame_try_except; [|intros ?]
           | |- tame (ret _) => apply tame_ret
           | |- tame (assign_available_date _) => apply tame_assign
           | |- tame (perform _ _) => apply tame_perform
           | |- tame (for_each _ _) => apply tame_for_each; intros ?
           | |- tame (if ?b then _ else _) => destruct b
           | |- tame (match ?x with _ => _ end) => destruct x
           end.
Qed.

Lemma search_date_returns (s : session browser) :
  exists s', search_date driver s = (Ok tt, s').
Proof.
  destruct tame_search_widget_body_and_calendar as [Hw Hc].
  unfold search_date. unfold bind at 1 2. rewrite say_run.
  unfold assign_available_date at 1. cbv beta iota. unfold bind at 1.
  match goal with |- context [search_widget driver ?s0] =>
    destruct (Hw s0) as [[] [s1 E1]]; rewrite E1 end.
  unfold bind, read_available_date. destruct (available_date s1) as [d|].
  - now exists s1.
  - destruct (Hc s1) as [[] [s2 E2]]. now exists s2.
Qed.

Lemma clickless_search_date : silent clicks (search_date driver).
Proof.
  unfold search_date, search_widget, search_calendar, show_button, try_date_element,
    try_list_item, try_calendar_button.
  silent_all clicks_app.
Qed.

(** X15.  The date search of step 2 (lines 423-538) never raises, whatever
    the browser does, and clicks nothing.  A search that found no date
    shows as the [TimeoutException] raised at line 541; a date found is
    clicked right after the search. *)
Theorem date_search_failure_is_a_timeout (s : session browser) :
  exists s2 : session browser,
    search_date driver s = (Ok tt, s2)
    /\ select_date driver s
       = match available_date s2 with
         | None => (Raise TimeoutException, s2)
         | Some d => (perform driver (Click d) ;; say "Selected available date") s2
         end
    /\ clicks (trace s2) = clicks (trace s).
Proof.
  destruct (search_date_returns s) as [s2 Hrun]. exists s2. split; [exact Hrun|]. split.
  - unfold select_date. unfold bind at 1. rewrite Hrun. unfold bind at 1, read_available_date.
    destruct (available_date s2); reflexivity.
  - exact (clickless_search_date _ _ _ Hrun).
Qed.

End Search.

Section Success.

Variable browser : Type.
Variable driver : forall A : Type, call A -> browser -> (A + webdriver_error) * browser.

Lemma clickless_first_clickable (found : string) (selectors : list string) :
  silent clicks (first_clickable driver found selectors).
Proof.
  apply silent_first_clickable; [exact clicks_app | reflexivity | reflexivity].
Qed.

Lemma click_then_say (e : element) (line : string) (s s' : session browser) :
  (perform driver (Click e) ;; say line) s = (Ok tt, s') ->
  clicks (trace s') = clicks (trace s) ++ [e]
  /\ screenshots (trace s') = screenshots (trace s).
Proof.
  intros H. apply bind_Ok in H. destruct H as [[] [s1 [Hc Hs]]].
  apply (perform_trace browser driver) in Hc. destruct Hc as [Ht _].
  rewrite say_run in Hs. injection Hs as <-. cbn [trace].
  rewrite Ht, !clicks_app, !screenshots_app. simpl. now rewrite !app_nil_r.
Qed.

(** A step that resolves a button, by CSS or by the XPath fallback, and
    clicks it. *)
Lemma resolve_and_click (intro found xpath done : string) (selectors : list string)
      (s s' : session browser) :
  (say intro ;;
   found <- first_clickable driver found selectors ;;
   btn <- match found with
          | Some btn => ret btn
          | None => say "Trying XPath method..." ;; wait_clickable driver XPATH xpath
          end ;;
   perform driver (Click btn) ;;
   say done) s = (Ok tt, s') ->
  exists btn, clicks (trace s') = clicks (trace s) ++ [btn]
              /\ screenshots (trace s') = screenshots (trace s).
Proof.
  intros H.
  apply bind_Ok in H. destruct H as [[] [s1 [H1 H]]].
  apply bind_Ok in H. destruct H as [fd [s2 [H2 H]]].
  apply bind_Ok in H. destruct H as [btn [s3 [H3 H]]].
  apply click_then_say in H. destruct H as [Hc Hs]. exists btn.
  assert (Hq : clicks (trace s3) = clicks (trace s)
               /\ screenshots (trace s3) = screenshots (trace s)).
  { pose proof (clickless_first_clickable _ _ _ _ _ H2) as C2.
    pose proof (quiet_first_clickable browser driver _ _ _ _ _ H2) as Q2.
    rewrite say_run in H1. injection H1 as <-. cbn [trace] in C2, Q2.
    rewrite clicks_app, screenshots_app in *. simpl in C2, Q2. rewrite app_nil_r in *.
    destruct fd as [b|].
    - injection H3 as _ <-. now split.
    - apply bind_Ok in H3. destruct H3 as [[] [s2' [Hs2 Hw]]].
      rewrite say_run in Hs2. injection Hs2 as <-.
      apply (perform_trace browser driver) in Hw. destruct Hw as [Ht _].
      rewrite Ht. cbn [trace]. rewrite !clicks_app, !screenshots_app. simpl.
      rewrite !app_nil_r. now split. }
  destruct Hq as [Hq1 Hq2]. rewrite Hc, Hs, Hq1, Hq2. now split.
Qed.

Lemma enter_iframe_silent (s s' : session browser) (r : result unit) :
  enter_iframe driver s = (r, s') ->
  clicks (trace s') = clicks (trace s) /\ screenshots (trace s') = screenshots (trace s).
Proof.
  intros H. split.
  - revert H. generalize s, r, s'. change (silent clicks (enter_iframe driver)).
    unfold enter_iframe. silent_all clicks_app.
  - exact (quiet_enter_iframe browser driver _ _ _ H).
Qed.

Lemma select_time_slot_clicks (s s' : session browser) :
  select_time_slot driver s = (Ok tt, s') ->
  exists slot, clicks (trace s') = clicks (trace s) ++ [slot]
               /\ screenshots (trace s') = screenshots (trace s).
Proof.
  intros H. unfold select_time_slot in H.
  apply bind_Ok in H. destruct H as [[] [s1 [H1 H]]].
  apply bind_Ok in H. destruct H as [fd [s2 [H2 H]]].
  destruct fd as [slot|]; [|discriminate H].
  apply click_then_say in H. destruct H as [Hc Hs]. exists slot.
  pose proof (clickless_first_clickable _ _ _ _ _ H2) as C2.
  pose proof (quiet_first_clickable browser driver _ _ _ _ _ H2) as Q2.
  rewrite say_run in H1. injection H1 as <-. cbn [trace] in C2, Q2.
  rewrite clicks_app, screenshots_app in *. simpl in C2, Q2. rewrite app_nil_r in *.
  rewrite Hc, Hs, C2, Q2. now split.
Qed.

Lemma select_date_clicks (s s' : session browser) :
  select_date driver s = (Ok tt, s') ->
  exists date, clicks (trace s') = clicks (trace s) ++ [date]
               /\ screenshots (trace s') = screenshots (trace s) ++ [iframe_screenshot].
Proof.
  intros H. unfold select_date in H.
  apply bind_Ok in H. destruct H as [[] [s1 [H1 H]]].
  apply bind_Ok in H. destruct H as [d [s2 [H2 H]]].
  unfold read_available_date in H2. injection H2 as <- <-.
  destruct (available_date s1) as [date|]; [|discriminate H].
  apply click_then_say in H. destruct H as [Hc Hs]. exists date.
  rewrite Hc, Hs, (clickless_search_date browser driver _ _ _ H1),
    (shoots_search_date browser driver _ _ _ H1). now split.
Qed.

(** X16.  [automate_registration] returns [True] only after exactly four
    clicks: the check-availability button, the date, the time slot and
    the register button, in this order.  Such a run takes the debug
    screenshot and no error screenshot, and its last line of output is
    the success message. *)
Theorem success_means_four_clicks (s s' : session browser) :
  automate_registration driver s = (Ok true, s') ->
  exists button date slot register : element,
    clicks (trace s') = clicks (trace s) ++ [button; date; slot; register]
    /\ screenshots (trace s') = screenshots (trace s) ++ [iframe_screenshot]
    /\ exists shown,
         trace s' = shown ++ [Printed "Registration automation completed successfully!"].
Proof.
  intros H. unfold automate_registration, try_except in H.
  match type of H with context [match ?body s with _ => _ end] =>
    destruct (body s) as [[v|e|] s0] eqn:Hbody end.
  2:{ exfalso. destruct (is_Exception e); [|discriminate H].
      destruct e; try (unfold bind in H; rewrite say_run in H; discriminate H).
      pose proof (on_timeout_run browser driver s0) as Hto.
      destruct (can_report browser driver (page s0)).
      - destruct Hto as [sx [Hx _]]. rewrite Hx in H. discriminate H.
      - destruct Hto as [ex [sx [Hx _]]]. rewrite Hx in H. discriminate H. }
  2:{ discriminate H. }
  injection H as -> ->.
  apply bind_Ok in Hbody. destruct Hbody as [[] [s1 [H1 H]]].
  apply bind_Ok in H. destruct H as [[] [s2 [H2 H]]].
  apply bind_Ok in H. destruct H as [[] [s3 [H3 H]]].
  apply bind_Ok in H. destruct H as [[] [s4 [H4 H]]].
  apply bind_Ok in H. destruct H as [[] [s5 [H5 H]]].
  apply bind_Ok in H. destruct H as [[] [s6 [H6 H]]].
  apply bind_Ok in H. destruct H as [[] [s7 [H7 H]]].
  injection H as <-.
  apply resolve_and_click in H1. destruct H1 as [button [C1 Q1]].
  apply enter_iframe_silent in H2. destruct H2 as [C2 Q2].
  apply select_date_clicks in H3. destruct H3 as [date [C3 Q3]].
  apply select_time_slot_clicks in H4. destruct H4 as [slot [C4 Q4]].
  rewrite say_run in H5. injection H5 as <-.
  apply resolve_and_click in H6. destruct H6 as [register [C6 Q6]].
  rewrite say_run in H7. injection H7 as <-.
  cbn [trace] in *. exists button, date, slot, register.
  split; [|split].
  - rewrite clicks_app, C6, clicks_app, C4, C3, C2, C1. simpl.
    rewrite !app_nil_r, <- !app_assoc. reflexivity.
  - rewrite screenshots_app, Q6, screenshots_app, Q4, Q3, Q2, Q1. simpl.
    now rewrite !app_nil_r.
  - eexists. reflexivity.
Qed.

(** ** Screenshots of an attempt, whatever its end *)

Lemma quiet_rest_of_select_date :
  silent screenshots
        (date <- read_available_date (browser := browser) ;;
         match date with
         | None => raise TimeoutException
         | Some d => perform driver (Click d) ;; say "Selected available date"
         end).
Proof. silent_all screenshots_app. Qed.

Lemma shoots_select_date : shoots iframe_screenshot (select_date driver).
Proof.
  intros s r s' H. unfold select_date in H. unfold bind at 1 in H.
  destruct (search_date driver s) as [[[]|e|] s1] eqn:E;
    apply (shoots_search_date browser driver) in E.
  - apply quiet_rest_of_select_date in H. congruence.
  - injection H as _ <-. exact E.
  - injection H as _ <-. exact E.
Qed.

Lemma quiet_after_select_date :
  silent screenshots
        (select_time_slot driver ;;
         say "Step 4: Ticket quantity already set to 1, skipping..." ;;
         click_register driver ;;
         say "Registration automation completed successfully!" ;;
         ret true).
Proof.
  unfold select_time_slot, click_register. silent_all screenshots_app.
Qed.

End Success.

Ltac tame_steps :=
  repeat lazymatch goal with
         | |- tame (bind _ _) => apply tame_bind; [|intros ?]
         | |- tame (try_except _ _ _) => apply tame_try_except; [|intros ?]
         | |- tame (or_continue _) => apply tame_try_except; [|intros ?]
         | |- tame (ret _) => apply tame_ret
         | |- tame (raise _) => apply tame_raise; reflexivity
         | |- tame (say _) => apply tame_record
         | |- tame (record _) => apply tame_record
         | |- tame (assign_available_date _) => apply tame_assign
         | |- tame (@read_available_date _) => apply tame_read
         | |- tame (perform _ _) => apply tame_perform
         | |- tame (wait_clickable _ _ _) => apply tame_perform
         | |- tame (first_clickable _ _ _) => apply tame_first_clickable
         | |- tame (for_each _ _) => apply tame_for_each; intros ?
         | |- tame (if ?b then _ else _) => destruct b
         | |- tame (match ?x with _ => _ end) => destruct x
         end.

Section Attempts.

Variable browser : Type.
Variable driver : forall A : Type, call A -> browser -> (A + webdriver_error) * browser.

(** The [try] body of [automate_registration]. *)
Lemma automate_registration_unfold :
  automate_registration driver
  = try_except
      (click_check_availability driver ;;
       enter_iframe driver ;;
       select_date driver ;;
       select_time_slot driver ;;
       say "Step 4: Ticket quantity already set to 1, skipping..." ;;
       click_register driver ;;
       say "Registration automation completed successfully!" ;;
       ret true)
      is_Exception
      (fun e =>
         match e with
         | TimeoutException => on_timeout driver
         | NoSuchElementException => say "Element not found" ;; ret false
         | _ => say "Unexpected error during automation" ;; ret false
         end).
Proof. reflexivity. Qed.

Lemma tame_steps_of_registration :
  tame (click_check_availability driver ;;
        enter_iframe driver ;;
        select_date driver ;;
        select_time_slot driver ;;
        say "Step 4: Ticket quantity already set to 1, skipping..." ;;
        click_register driver ;;
        say "Registration automation completed successfully!" ;;
        ret true).
Proof.
  unfold click_check_availability, enter_iframe, select_date, search_date, search_widget,
    search_calendar, show_button, try_date_element, try_list_item, try_calendar_button,
    select_time_slot, click_register.
  tame_steps.
Qed.

(** What the steps leave in the list of screenshots. *)
Lemma steps_screenshots (s s0 : session browser) (r : result bool) :
  (click_check_availability driver ;;
   enter_iframe driver ;;
   select_date driver ;;
   select_time_slot driver ;;
   say "Step 4: Ticket quantity already set to 1, skipping..." ;;
   click_register driver ;;
   say "Registration automation completed successfully!" ;;
   ret true) s = (r, s0) ->
  (screenshots (trace s0) = screenshots (trace s) /\ (forall v, r <> Ok v))
  \/ screenshots (trace s0) = screenshots (trace s) ++ [iframe_screenshot].
Proof.
  intros H. unfold bind at 1 in H.
  destruct (click_check_availability driver s) as [[[]|e|] s1] eqn:E1;
    apply (quiet_click_check_availability browser driver) in E1.
  2,3: injection H as <- <-; left; split; [exact E1 | discriminate].
  unfold bind at 1 in H.
  destruct (enter_iframe driver s1) as [[[]|e|] s2] eqn:E2;
    apply (quiet_enter_iframe browser driver) in E2.
  2,3: injection H as <- <-; left; split; [congruence | discriminate].
  right. unfold bind at 1 in H.
  destruct (select_date driver s2) as [[[]|e|] s3] eqn:E3;
    apply (shoots_select_date browser driver) in E3.
  2,3: injection H as _ <-; congruence.
  apply (quiet_after_select_date browser driver) in H. congruence.
Qed.

(** X17.  Whatever the browser does, one run of [automate_registration]
    calls [save_screenshot] at most twice: at most once for the debug
    capture and at most once for the error capture, in this order.  A
    successful run takes the debug capture only; the error capture is
    attempted only in runs that return [False]. *)
Theorem at_most_two_screenshots (s s' : session browser) (r : result bool) :
  automate_registration driver s = (r, s') ->
  exists taken : list screenshot,
    screenshots (trace s') = screenshots (trace s) ++ taken
    /\ (taken = [] \/ taken = [iframe_screenshot] \/ taken = [error_screenshot]
        \/ taken = [iframe_screenshot; error_screenshot])
    /\ (r = Ok true -> taken = [iframe_screenshot])
    /\ (In error_screenshot taken -> r = Ok false).
Proof.
  intros H. rewrite automate_registration_unfold in H. unfold try_except in H.
  match type of H with context [match ?body s with _ => _ end] =>
    destruct (body s) as [r0 s0] eqn:Hbody end.
  pose proof (tame_steps_of_registration _ _ _ Hbody) as Htame.
  pose proof (steps_screenshots _ _ _ Hbody) as Hshots.
  assert (Hbase : exists l0, screenshots (trace s0) = screenshots (trace s) ++ l0
                             /\ (l0 = [] \/ l0 = [iframe_screenshot])
                             /\ (forall v, r0 = Ok v -> l0 = [iframe_screenshot])).
  { destruct Hshots as [[Hq Hno]|Hsh].
    - exists []. rewrite app_nil_r. split; [exact Hq|]. split; [now left|].
      intros v Hv. destruct (Hno v Hv).
    - exists [iframe_screenshot]. split; [exact Hsh|]. split; [now right | reflexivity]. }
  destruct Hbase as [l0 [Hl0 [Hcases Hok]]].
  destruct r0 as [v|e|]; [| |destruct Htame].
  - injection H as <- <-. exists l0. split; [exact Hl0|]. rewrite (Hok v eq_refl).
    split; [now right; left|]. split; [reflexivity|].
    intros [Hin|[]]. discriminate Hin.
  - rewrite Htame in H.
    assert (Hquiet : forall line : string,
               (say line ;; ret false) s0 = (r, s') ->
               exists taken : list screenshot,
                 screenshots (trace s') = screenshots (trace s) ++ taken
                 /\ (taken = [] \/ taken = [iframe_screenshot] \/ taken = [error_screenshot]
                     \/ taken = [iframe_screenshot; error_screenshot])
                 /\ (r = Ok true -> taken = [iframe_screenshot])
                 /\ (In error_screenshot taken -> r = Ok false)).
    { intros line Hh. unfold bind in Hh. rewrite say_run in Hh. injection Hh as <- <-.
      exists l0. cbn [trace]. rewrite screenshots_app. simpl. rewrite app_nil_r.
      split; [exact Hl0|]. split; [destruct Hcases as [->| ->]; auto|].
      split; [discriminate|]. intros _. reflexivity. }
    destruct e; try exact (Hquiet _ H).
    pose proof (on_timeout_run browser driver s0) as Hto.
    destruct (can_report browser driver (page s0)).
    + destruct Hto as [sx [Hx Hsx]]. rewrite Hx in H. injection H as <- <-.
      exists (l0 ++ [error_screenshot]). rewrite Hsx, Hl0, <- app_assoc.
      split; [reflexivity|]. split; [destruct Hcases as [->| ->]; auto|].
      split; [discriminate | reflexivity].
    + destruct Hto as [ex [sx [Hx [_ Hsx]]]]. rewrite Hx in H. injection H as <- <-.
      exists l0. rewrite Hsx. split; [exact Hl0|].
      split; [destruct Hcases as [->| ->]; auto|]. split; [discriminate|].
      intros Hin. destruct Hcases as [->| ->]; [destruct Hin|].
      destruct Hin as [Hin|[]]. discriminate Hin.
Qed.

(** X18.  As long as the URL and the title of the page can be read (they
    are read, unguarded, by the timeout handler), [automate_registration]
    never raises: every failure of a step ends as the value [False]. *)
Theorem automation_reports_outcome (s : session browser) :
  (forall b, can_report browser driver b = true) ->
  exists (v : bool) (s' : session browser), automate_registration driver s = (Ok v, s').
Proof.
  intros Hread. rewrite automate_registration_unfold.
  apply returns_try_except; [apply tame_steps_of_registration|].
  intros e s0. destruct e; try (unfold bind; rewrite say_run; eexists; eexists; reflexivity).
  pose proof (on_timeout_run browser driver s0) as Hto. rewrite Hread in Hto.
  destruct Hto as [sx [Hx _]]. now exists false, sx.
Qed.

(** ** [purchase_attempt] *)





End Attempts.

Section DateChoice.

Variable answer : forall A : Type, call A -> A + webdriver_error.

Lemma perform_still {A} (c : call A) (s : session unit) :
  perform (still answer) c s
  = (match answer A c with inl a => Ok a | inr e => Raise (to_exn e) end,
     {| page := page s; trace := trace s ++ [Called c]; available_date := available_date s |}).
Proof. reflexivity. Qed.

(** X20.  The second strategy of the date search (lines 471-499), on a page
    that does not change while it is read: an element is selected only if
    it is displayed and its stripped text is a number of at most 31.  A
    [p] element whose class list contains [dateText] is never selected
    itself: its enclosing [li] is, and only if the class list of that
    [li] contains neither [unavailable] nor [disabled], whatever the
    case. *)
Theorem selected_date_is_admissible (elem : element) (s s' : session unit) :
  try_date_element (still answer) elem s = (Ok true, s') ->
  exists (raw tag : string) (chosen : element),
    available_date s' = Some chosen
    /\ answer _ (IsDisplayed elem) = inl true
    /\ answer _ (Text elem) = inl raw
    /\ isdigit (strip raw) = true
    /\ (int (strip raw) <= 31)%Z
    /\ answer _ (TagName elem) = inl tag
    /\ ((chosen = elem
         /\ (tag = "p" ->
             exists cl, answer _ (GetAttribute elem "class") = inl (Some cl)
                        /\ contains "dateText" cl = false))
        \/ (tag = "p"
            /\ answer _ (FindElement elem XPATH "./ancestor::li[1]") = inl chosen
            /\ exists pc, answer _ (GetAttribute chosen "class") = inl (Some pc)
                          /\ contains "unavailable" (lower pc) = false
                          /\ contains "disabled" (lower pc) = false)).
Proof.
  intros H. unfold try_date_element, or_continue, try_except in H.
  unfold bind at 1 in H. rewrite perform_still in H.
  destruct (answer bool (IsDisplayed elem)) as [[|]|e] eqn:Edisp;
    [| discriminate H | rewrite is_Exception_to_exn in H; discriminate H].
  unfold bind at 1 in H. rewrite perform_still in H.
  destruct (answer string (Text elem)) as [raw|e] eqn:Etext;
    [| rewrite is_Exception_to_exn in H; discriminate H].
  unfold bind at 1 in H. rewrite perform_still in H.
  destruct (answer string (TagName elem)) as [tag|e] eqn:Etag;
    [| rewrite is_Exception_to_exn in H; discriminate H].
  unfold bind at 1 in H. rewrite perform_still in H.
  destruct (answer (option string) (GetAttribute elem "class")) as [classes|e] eqn:Ecls;
    [| rewrite is_Exception_to_exn in H; discriminate H].
  destruct (isdigit (strip raw) && (int (strip raw) <=? 31)%Z) eqn:Enum; [|discriminate H].
  apply andb_prop in Enum. destruct Enum as [Hdigit Hle]. apply Z.leb_le in Hle.
  exists raw, tag.
  assert (Hdirect : forall sx,
             (assign_available_date (Some elem) ;; ret true) sx = (Ok true, s') ->
             available_date s' = Some elem).
  { intros sx Hx. unfold bind, assign_available_date, ret in Hx. now injection Hx as <-. }
  unfold bind at 1 in H.
  destruct (tag =? "p") eqn:Ep.
  - apply String.eqb_eq in Ep. subst tag.
    destruct classes as [cl|]; [|discriminate H]. cbn [ret] in H.
    destruct (contains "dateText" cl) eqn:Edt.
    + unfold bind at 1 in H. rewrite perform_still in H.
      destruct (answer element (FindElement elem XPATH "./ancestor::li[1]")) as [parent|e]
        eqn:Epar; [| rewrite is_Exception_to_exn in H; discriminate H].
      unfold bind at 1 in H. rewrite perform_still in H.
      destruct (answer (option string) (GetAttribute parent "class")) as [[pc|]|e] eqn:Epc;
        [| discriminate H | rewrite is_Exception_to_exn in H; discriminate H].
      destruct (negb (contains "unavailable" (lower pc)) && negb (contains "disabled" (lower pc)))
        eqn:Eok; [|discriminate H].
      apply andb_prop in Eok. destruct Eok as [Eu Ed].
      apply negb_true_iff in Eu. apply negb_true_iff in Ed.
      exists parent. unfold bind, assign_available_date, ret in H. injection H as <-.
      cbn [available_date]. repeat split; try assumption; try reflexivity.
      right. repeat split; try assumption. exists pc. auto.
    + exists elem. split; [exact (Hdirect _ H)|]. repeat split; try assumption.
      left. split; [reflexivity|]. intros _. exists cl. auto.
  - exists elem. cbn [ret] in H. split; [exact (Hdirect _ H)|]. repeat split; try assumption.
    left. split; [reflexivity|]. intros ->. discriminate Ep.
Qed.

End DateChoice.

Lemma first_clickable_exhausted_witness :
  first_clickable empty_widget "Found time slot with selector" time_slot_selectors start
  = (Ok None, no_slot)
  /\ attempts (trace no_slot)
     = attempts (trace start) ++ map (pair CSS_SELECTOR) time_slot_selectors
  /\ clicks (trace no_slot) = clicks (trace start).
Proof.
  apply (first_clickable_exhausted unit empty_widget).
  eapply timed_out; [vm_compute; reflexivity|].
  eapply timed_out; [vm_compute; reflexivity|].
  eapply timed_out; [vm_compute; reflexivity|].
  vm_compute. apply none_left.
Defined.

Lemma first_clickable_error_aborts_witness :
  first_clickable strict_widget "Found button with selector"
    (["button[id*='check-availability']"; "button.check-availability-btnbutton"]
     ++ "button:contains('Check availability')" :: []) start
  = (Raise OtherException, rejected)
  /\ attempts (trace rejected)
     = attempts (trace start)
       ++ map (pair CSS_SELECTOR)
            (["button[id*='check-availability']"; "button.check-availability-btnbutton"]
             ++ ["button:contains('Check availability')"]).
Proof.
  eapply (first_clickable_error_aborts unit strict_widget).
  - eapply timed_out; [vm_compute; reflexivity|].
    eapply timed_out; [vm_compute; reflexivity|].
    apply none_left.
  - vm_compute. reflexivity.
  - discriminate.
Defined.

Lemma success_means_four_clicks_witness :
  exists button date slot register : element,
    clicks (trace registered) = clicks (trace start) ++ [button; date; slot; register]
    /\ screenshots (trace registered) = screenshots (trace start) ++ [iframe_screenshot]
    /\ exists shown,
         trace registered
         = shown ++ [Printed "Registration automation completed successfully!"].
Proof.
  apply (success_means_four_clicks unit ready_widget start registered).
  vm_compute. reflexivity.
Defined.

Lemma at_most_two_screenshots_witness :
  exists taken : list screenshot,
    screenshots (trace (snd (automate_registration empty_widget start)))
    = screenshots (trace start) ++ taken
    /\ (taken = [] \/ taken = [iframe_screenshot] \/ taken = [error_screenshot]
        \/ taken = [iframe_screenshot; error_screenshot])
    /\ (Ok false = Ok true -> taken = [iframe_screenshot])
    /\ (In error_screenshot taken -> Ok false = @Ok bool false).
Proof.
  apply (at_most_two_screenshots unit empty_widget start).
  vm_compute. reflexivity.
Defined.

Lemma automation_reports_outcome_witness :
  exists (v : bool) (s' : session unit), automate_registration empty_widget start = (Ok v, s').
Proof.
  apply (automation_reports_outcome unit empty_widget start).
  intros []. reflexivity.
Defined.

Lemma selected_date_is_admissible_witness :
  exists (raw tag : string) (chosen : element),
    available_date picked = Some chosen
    /\ calendar_day _ (IsDisplayed 4) = inl true
    /\ calendar_day _ (Text 4) = inl raw
    /\ isdigit (strip raw) = true
    /\ (int (strip raw) <= 31)%Z
    /\ calendar_day _ (TagName 4) = inl tag
    /\ ((chosen = 4
         /\ (tag = "p" ->
             exists cl, calendar_day _ (GetAttribute 4 "class") = inl (Some cl)
                        /\ contains "dateText" cl = false))
        \/ (tag = "p"
            /\ calendar_day _ (FindElement 4 XPATH "./ancestor::li[1]") = inl chosen
            /\ exists pc, calendar_day _ (GetAttribute chosen "class") = inl (Some pc)
                          /\ contains "unavailable" (lower pc) = false
                          /\ contains "disabled" (lower pc) = false)).
Proof.
  apply (selected_date_is_admissible calendar_day 4 start picked).
  vm_compute. reflexivity.
Defined.

(** * The program as a whole *)

Import Polling.
Import Main.

Lemma quits_app (h1 h2 : list step) : quits (h1 ++ h2) = quits h1 + quits h2.
Proof.
  induction h1 as [|e h1 IH]; [reflexivity|]. destruct e; simpl; rewrite ?IH; reflexivity.
Qed.

Lemma polled_app (h1 h2 : list step) : polled (h1 ++ h2) = polled h1 ++ polled h2.
Proof.
  induction h1 as [|e h1 IH]; [reflexivity|]. destruct e; simpl; rewrite ?IH; reflexivity.
Qed.

Lemma quits_Polled (l : list Polling.event) : quits (map Polled l) = 0.
Proof. induction l; [reflexivity | exact IHl]. Qed.

Lemma quits_Drove (l : list Automation.event) : quits (map Drove l) = 0.
Proof. induction l; [reflexivity | exact IHl]. Qed.

Section Program.

Variable cfg : config.
Variable browser : Type.
Variable driver : forall A : Type, Automation.call A -> browser
                                   -> (A + Automation.webdriver_error) * browser.
Variable Chrome : browser + Automation.webdriver_error.
Variable maximize_window : browser -> (unit + Automation.webdriver_error) * browser.
Variable driver_quit : browser -> unit + Automation.webdriver_error.
Variable env : nat -> cycle_env.

Lemma keeps_open_polling {A} (m : M world A) : keeps_open (polling (browser := browser) m).
Proof.
  intros p r p' H. unfold polling in H.
  destruct (m {| request_counter := counter p; log := [] |}) as [r0 w].
  injection H as _ <-. cbn [history]. eexists. split; [reflexivity | apply quits_Polled].
Qed.

Lemma keeps_open_driving {A} (m : M (Automation.session browser) A) :
  keeps_open (driving m).
Proof.
  intros p r p' H. unfold driving in H.
  destruct (m _) as [r0 s]. injection H as _ <-. cbn [history].
  eexists. split; [reflexivity | apply quits_Drove].
Qed.

Lemma keeps_open_bind {A B} (m : M (process browser) A) (k : A -> M (process browser) B) :
  keeps_open m -> (forall a, keeps_open (k a)) -> keeps_open (bind m k).
Proof.
  intros Hm Hk p r p' H. unfold bind in H.
  destruct (m p) as [[a|e|] p1] eqn:Em.
  - destruct (Hm _ _ _ Em) as [n1 [E1 Q1]]. destruct (Hk a _ _ _ H) as [n2 [E2 Q2]].
    exists (n1 ++ n2). rewrite E2, E1, app_assoc, quits_app, Q1, Q2. split; reflexivity.
  - injection H as _ <-. exact (Hm _ _ _ Em).
  - injection H as _ <-. exact (Hm _ _ _ Em).
Qed.

Lemma keeps_open_watch (page_fuel fuel : nat) :
  forall attempts, keeps_open (watch cfg driver env page_fuel fuel attempts).
Proof.
  induction fuel as [|fuel IH]; intros attempts; cbn [watch].
  - intros p r p' H. injection H as _ <-. exists []. now rewrite app_nil_r.
  - destruct (env (S attempts)) as [srv choices].
    apply keeps_open_bind; [apply keeps_open_polling|]. intros [|].
    + apply keeps_open_bind; [apply keeps_open_polling|]. intros _. apply keeps_open_driving.
    + apply keeps_open_bind; [apply keeps_open_polling|]. intros _. apply IH.
Qed.

(** X21.  Once the login step has succeeded, every end of [main] goes
    through [driver.quit()]: whether the loop returns after a purchase
    attempt or ends in [SystemExit(1)] on a rate limit, the browser is quit
    exactly once, as the last action of the program. *)
Theorem browser_quit_on_every_exit
        (page_fuel fuel : nat) (h h1 h' : list step) (b : browser) (r : result unit) :
  open_browser_and_login driver Chrome maximize_window h = (Ok b, h1) ->
  main cfg driver Chrome maximize_window driver_quit env page_fuel fuel h = (r, h') ->
  r <> OutOfFuel ->
  exists middle : list step,
    h' = h1 ++ middle ++ [Closed]
    /\ quits middle = 0
    /\ quits h' = S (quits h).
Proof.
  intros Hlogin Hmain Hr. unfold main in Hmain. rewrite Hlogin in Hmain.
  destruct (watch cfg driver env page_fuel fuel 0 _) as [r0 p] eqn:Ew.
  destruct (keeps_open_watch page_fuel fuel 0 _ _ _ Ew) as [middle [Eh Hq]].
  cbn [history] in Eh.
  assert (Hh1 : quits h1 = quits h).
  { unfold open_browser_and_login in Hlogin. destruct Chrome as [b0|]; [|discriminate Hlogin].
    destruct (maximize_window b0) as [[[]|] b1]; [|discriminate Hlogin].
    destruct (driver unit _ b1) as [[[]|] b2]; [|discriminate Hlogin].
    injection Hlogin as _ <-. rewrite quits_app. simpl. lia. }
  exists middle. unfold close in Hmain.
  destruct r0 as [[]|e|].
  - destruct (driver_quit (window p)); injection Hmain as <- <-;
      rewrite Eh, <- app_assoc, !quits_app, Hq, Hh1; cbn [quits]; repeat split; lia.
  - destruct (driver_quit (window p)); injection Hmain as <- <-;
      rewrite Eh, <- app_assoc, !quits_app, Hq, Hh1; cbn [quits]; repeat split; lia.
  - injection Hmain as <- _. congruence.
Qed.

(** X22.  When the browser cannot be started, maximized or sent to the
    Eventbrite page, the program ends with [exit(1)] before any poll: no
    request is sent to the API, and [driver.quit()] is not called. *)
Theorem failed_login_exits_before_polling (page_fuel fuel : nat) (h : list step) :
  (forall b, fst (open_browser_and_login driver Chrome maximize_window h) <> Ok b) ->
  exists h' : list step,
    main cfg driver Chrome maximize_window driver_quit env page_fuel fuel h
    = (Raise (SystemExit 1), h')
    /\ polled h' = polled h
    /\ quits h' = quits h.
Proof.
  intros Hfail. unfold main.
  assert (Hcases : exists h', open_browser_and_login driver Chrome maximize_window h
                              = (Raise (SystemExit 1), h')
                              /\ polled h' = polled h /\ quits h' = quits h).
  { revert Hfail. unfold open_browser_and_login. destruct Chrome as [b0|].
    - destruct (maximize_window b0) as [[[]|] b1].
      + destruct (driver unit _ b1) as [[[]|] b2].
        * intros Hfail. destruct (Hfail b2 eq_refl).
        * intros _. eexists. split; [reflexivity|].
          rewrite polled_app, quits_app. simpl. rewrite app_nil_r. split; [reflexivity | lia].
      + intros _. eexists. split; [reflexivity|].
        rewrite polled_app, quits_app. simpl. rewrite app_nil_r. split; [reflexivity | lia].
    - intros _. eexists. split; [reflexivity|].
      rewrite polled_app, quits_app. simpl. rewrite app_nil_r. split; [reflexivity | lia]. }
  destruct Hcases as [h' [Hrun [Hp Hq]]]. exists h'. rewrite Hrun. auto.
Qed.

End Program.

Section Relocatable.








Variable cfg : config.
Variable srv : server.










End Relocatable.



Section Agreement.

Variable cfg : config.
Variable browser : Type.
Variable driver : forall A : Type, Automation.call A -> browser
                                   -> (A + Automation.webdriver_error) * browser.
Variable env : nat -> cycle_env.





End Agreement.

Lemma browser_quit_on_every_exit_witness :
  exists middle : list step,
    rate_limited_run = logged_in ++ middle ++ [Closed]
    /\ quits middle = 0
    /\ quits rate_limited_run = S (quits []).
Proof.
  apply (browser_quit_on_every_exit shipped unit Automation.empty_widget starts maximizes
           quits_cleanly always_rate_limited 1 3 [] logged_in rate_limited_run tt
           (Raise (SystemExit 1))).
  - vm_compute. reflexivity.
  - vm_compute. reflexivity.
  - discriminate.
Defined.

Lemma failed_login_exits_before_polling_witness :
  exists h' : list step,
    main shipped Automation.empty_widget does_not_start maximizes quits_cleanly
      always_rate_limited 1 3 []
    = (Raise (SystemExit 1), h')
    /\ polled h' = polled []
    /\ quits h' = quits [].
Proof.
  apply (failed_login_exits_before_polling shipped unit Automation.empty_widget does_not_start
           maximizes quits_cleanly always_rate_limited 1 3 []).
  intros b. vm_compute. discriminate.
Defined.
